(** * NVDA installer: the file-replacement engine of [source/installer.py]

    A shallow embedding of the file-handling functions of the installer
    ([tryRemoveFile], [tryCopyFile], [_revertGroupDelete],
    [_deleteFileGroupOrFail], [copyProgramFiles], [removeOldLibFiles] and the
    executable-selection step of [install]) over an explicit model of the
    file system, together with the properties the specification states
    about them.

    Modelling conventions.
    - A path is the list of its components ([os.path.join] is list append,
      [os.path.dirname] drops the last component).  The long-path qualifier
      that [tryCopyFile] and [tryRemoveFile] prepend names the same file and
      is not represented.
    - The file system is a finite map from paths to nodes.  Every
      operating-system call is recorded in a trace, newest first, together
      with its outcome.
    - Calls that the source guards with [try]/[except] can fail for reasons
      outside the program (a lock, a scanner).  An oracle, a function of the
      history and of the call, says when the environment makes a call fail.
      The intrinsic failure conditions of a call are kept minimal, so every
      real behaviour is the behaviour under some oracle.
    - [os.walk] is given the shape of the tree it enumerates; the files
      themselves are read and written in the file system of the world.
    - Path lookup is exact.  [str.lower] is modelled on the ASCII range.
      Integer arguments are in [Z], durations in milliseconds.
    - Logging has no effect on files or on control flow and is left out;
      the messages of the exceptions are kept. *)

From Stdlib Require Import Ascii.
From stdpp Require Import gmap strings list fin_maps infinite sorting.
From Equations Require Import Equations.

Open Scope string_scope.
Open Scope list_scope.
Open Scope nat_scope.
Open Scope stdpp_scope.

(** ** Paths, nodes and the world *)

Abbreviation path := (list string).
Abbreviation content := string.

Inductive node : Type :=
  | File (c : content)
  | Dir.

#[global] Instance node_eq_dec : EqDecision node.
Proof. solve_decision. Defined.

Abbreviation FS := (gmap path node).

(** The messages of the [RetriableFailure] exceptions of the installer. *)
Inductive Message : Type :=
  | RenameBeforeRemoveFailed (p : path)   (* "Failed to rename file %s before  remove" *)
  | CouldNotBeRemoved (p : path)          (* "File %s could not be removed" *)
  | RenameAfterFailedOverwrite (p : path) (* "Failed to rename %s after failed overwrite" *)
  | MoveToTempFailed.   (* "Failed to move files to temp directory for deletion" *)

#[global] Instance Message_eq_dec : EqDecision Message.
Proof. solve_decision. Defined.

(** The exceptions that cross function boundaries in the modelled code.
    [WindowsError] and [IOError] are aliases of [OSError] in Python 3.
    [RetriableFailure] is the one exception class the installer defines. *)
Inductive Exc : Type :=
  | RetriableFailure (msg : Message)
  | OSError
  | RuntimeError.

#[global] Instance Exc_eq_dec : EqDecision Exc.
Proof. solve_decision. Defined.

Inductive result (A : Type) : Type :=
  | Ok (a : A)
  | Raise (e : Exc).
Arguments Ok {A} a.
Arguments Raise {A} e.

(** The calls into the operating system and the standard library. *)
Inductive Call : Type :=
  | CExists (p : path)               (* os.path.exists / Path.exists *)
  | CIsdir (p : path)                (* os.path.isdir *)
  | CIsfile (p : path)               (* os.path.isfile *)
  | CReplace (src dst : path)        (* os.replace *)
  | CRemove (p : path)               (* os.remove *)
  | CRmdir (p : path)                (* os.rmdir *)
  | CRmtree (p : path)               (* shutil.rmtree *)
  | CCopyfile (src dst : path)       (* shutil.copyfile *)
  | CCopyFileW (src dst : path)      (* kernel32.CopyFileW, bFailIfExists = False *)
  | CMoveFileEx (p : path)           (* MoveFileEx(p, None, MOVEFILE_DELAY_UNTIL_REBOOT) *)
  | CMkstemp (p : path)              (* creation of the empty placeholder p *)
  | CMkdtemp (p : path)              (* tempfile.mkdtemp, creating p *)
  | CMakedirs (p : path)             (* os.makedirs / Path.mkdir(parents=True) *)
  | CSleep (ms : nat).               (* time.sleep *)

#[global] Instance Call_eq_dec : EqDecision Call.
Proof. solve_decision. Defined.

(** A recorded call: [ok] is the success of the call, or the answer of a
    query. *)
Record Event : Type := Ev { call : Call; ok : bool }.

#[global] Instance Event_eq_dec : EqDecision Event.
Proof. solve_decision. Defined.

(** [pending] is the list of files registered for deletion at the next
    restart. *)
Record World : Type := mkWorld {
  fs : FS;
  pending : list path;
  trace : list Event;
}.

(** The environment: [env h c = true] when call [c], made after history
    [h], fails for an external reason. *)
Definition Oracle : Type := list Event → Call → bool.

(** ** A state and exception monad *)

Definition M (A : Type) : Type := World → World * result A.

Definition ret {A} (a : A) : M A := λ w, (w, Ok a).

Definition bind {A B} (m : M A) (k : A → M B) : M B :=
  λ w, match m w with
       | (w', Ok a) => k a w'
       | (w', Raise e) => (w', Raise e)
       end.

Definition raise {A} (e : Exc) : M A := λ w, (w, Raise e).

Notation "'let!' x ':=' m 'in' k" := (bind m (λ x, k))
  (at level 10, x pattern, m at level 100, k at level 200).
Notation "m ';;;' k" := (bind m (λ _, k))
  (at level 100, k at level 200, right associativity).

(** [try: m except OSError: h] *)
Definition except_OSError {A} (m : M A) (h : M A) : M A :=
  λ w, match m w with
       | (w', Raise OSError) => h w'
       | r => r
       end.

(** [try: m except RetriableFailure: h] *)
Definition except_RetriableFailure {A} (m : M A) (h : M A) : M A :=
  λ w, match m w with
       | (w', Raise (RetriableFailure _)) => h w'
       | r => r
       end.

(** [try: m except Exception: h] *)
Definition except_Exception {A} (m : M A) (h : M A) : M A :=
  λ w, match m w with
       | (w', Raise _) => h w'
       | r => r
       end.

(** [try: m finally: f].  An exception of [f] replaces the outcome of [m]. *)
Definition finally {A} (m : M A) (f : M unit) : M A :=
  λ w, match m w with
       | (w', r) => match f w' with
                    | (w'', Ok _) => (w'', r)
                    | (w'', Raise e) => (w'', Raise e)
                    end
       end.

(** [try: m except OSError: return False else: return True] *)
Definition succeeds (m : M unit) : M bool :=
  except_OSError (m ;;; ret true) (ret false).

(** ** File-system queries and updates *)

Definition exists_ (f : FS) (p : path) : bool :=
  match f !! p with Some _ => true | None => false end.

Definition is_file (f : FS) (p : path) : bool :=
  match f !! p with Some (File _) => true | _ => false end.

Definition is_dir (f : FS) (p : path) : bool :=
  match f !! p with Some Dir => true | _ => false end.

Definition under (d p : path) : bool := bool_decide (d `prefix_of` p).

Definition strictly_under (d p : path) : bool :=
  under d p && negb (bool_decide (p = d)).

Definition dirname (p : path) : path := removelast p.

(** The entries of the file system strictly below [d], ancestors before
    descendants (shorter paths first), as a recursive listing yields them. *)
Definition shorter : relation path := λ p q, (length p ≤ length q)%nat.

#[global] Instance shorter_dec (p q : path) : Decision (shorter p q).
Proof. unfold shorter. apply _. Defined.

Definition descendants (f : FS) (d : path) : list path :=
  merge_sort shorter (filter (λ p, strictly_under d p = true) (map_to_list f).*1).

Definition has_children (f : FS) (d : path) : bool :=
  negb (bool_decide (descendants f d = [])).

(** Removal of a whole subtree. *)
Definition remove_subtree (d : path) (f : FS) : FS :=
  filter (λ kv, under d kv.1 = false) f.

(** Moving the subtree rooted at [s] to [d]. *)
Definition rebase (s d p : path) : path := d ++ drop (length s) p.

Definition move_subtree (s d : path) (f : FS) : FS :=
  list_to_map (map (λ kv, (rebase s d kv.1, kv.2))
                   (map_to_list (filter (λ kv, under s kv.1 = true) f)))
  ∪ remove_subtree s f.

Definition replace_effect (s d : path) (f : FS) : FS :=
  match f !! s with
  | Some (File c) => <[d := File c]> (delete s f)
  | Some Dir => move_subtree s d f
  | None => f
  end.

(** All non-empty prefixes of a path, shortest first. *)
Fixpoint prefixes (p : path) : list path :=
  match p with
  | [] => []
  | x :: q => [x] :: map (cons x) (prefixes q)
  end.

(** The directories that creating [p] with its missing ancestors has to
    make: walking up from [p] (the list is longest first) until an existing
    directory is met.  [None] when an existing file is in the way. *)
Fixpoint missing_dirs (f : FS) (ps : list path) : option (list path) :=
  match ps with
  | [] => Some []
  | p :: rest =>
      match f !! p with
      | Some Dir => Some []
      | Some (File _) => None
      | None => cons p <$> missing_dirs f rest
      end
  end.

Definition mkdir_plan (f : FS) (p : path) : option (list path) :=
  missing_dirs f (reverse (prefixes p)).

Definition make_dirs (ps : list path) (f : FS) : FS :=
  foldr (λ q g, <[q := Dir]> g) f ps.

Definition makedirs_effect (p : path) (f : FS) : FS :=
  match mkdir_plan f p with
  | Some ps => make_dirs ps f
  | None => f
  end.

Definition makedirs_possible (f : FS) (p : path) : bool :=
  match mkdir_plan f p with Some _ => true | None => false end.

(** ** Names of temporary files *)

Definition strip_tmp (s : string) : option string :=
  match s with
  | String "t"%char (String "m"%char (String "p"%char r)) => Some r
  | _ => None
  end.

(** The names of the first component below [d] of every entry under [d]. *)
Definition names_below (f : FS) (d : path) : list string :=
  omap (λ p, if under d p then head (drop (length d) p) else None)
       (map_to_list f).*1.

(** A name ["tmp..."] such that nothing exists at or below [d ++ [name]]. *)
Definition fresh_name (f : FS) (d : path) : string :=
  "tmp" +:+ fresh (omap strip_tmp (names_below f d)).

Section Engine.

(** The environment and the directory of temporary files
    ([tempfile.gettempdir()]). *)
Context (env : Oracle) (tempRoot : path).

Definition record (c : Call) (b : bool) (w : World) : World :=
  mkWorld (fs w) (pending w) (Ev c b :: trace w).

Definition set_fs (f : FS) (w : World) : World :=
  mkWorld f (pending w) (trace w).

(** A call that fails with [OSError] when its precondition does not hold or
    when the environment makes it fail, and has effect [eff] otherwise. *)
Definition syscall (c : Call) (pre : FS → bool) (eff : World → World) : M unit :=
  λ w, if pre (fs w) && negb (env (trace w) c)
       then (record c true (eff w), Ok tt)
       else (record c false w, Raise OSError).

(** A query: recorded, never fails. *)
Definition query (c : Call) (ans : FS → bool) : M bool :=
  λ w, (record c (ans (fs w)) w, Ok (ans (fs w))).

Definition os_path_exists (p : path) : M bool := query (CExists p) (λ f, exists_ f p).
Definition os_path_isdir (p : path) : M bool := query (CIsdir p) (λ f, is_dir f p).
Definition os_path_isfile (p : path) : M bool := query (CIsfile p) (λ f, is_file f p).

Definition os_remove (p : path) : M unit :=
  syscall (CRemove p) (λ f, is_file f p) (λ w, set_fs (delete p (fs w)) w).

Definition os_rmdir (p : path) : M unit :=
  syscall (CRmdir p) (λ f, is_dir f p && negb (has_children f p))
          (λ w, set_fs (delete p (fs w)) w).

Definition shutil_rmtree (p : path) : M unit :=
  syscall (CRmtree p) (λ f, is_dir f p) (λ w, set_fs (remove_subtree p (fs w)) w).

(** [os.replace] on Windows: a file replaces an existing file; nothing
    replaces a directory; a directory moves only to a free name. *)
Definition os_replace (s d : path) : M unit :=
  syscall (CReplace s d)
          (λ f, (is_file f s && negb (is_dir f d)) || (is_dir f s && negb (exists_ f d)))
          (λ w, set_fs (replace_effect s d (fs w)) w).

Definition copy_effect (s d : path) (f : FS) : FS :=
  match f !! s with
  | Some (File c) => <[d := File c]> f
  | _ => f
  end.

Definition shutil_copyfile (s d : path) : M unit :=
  syscall (CCopyfile s d) (λ f, is_file f s && negb (is_dir f d))
          (λ w, set_fs (copy_effect s d (fs w)) w).

(** [CopyFileW] reports failure by its return value (0), not by raising. *)
Definition CopyFileW (s d : path) : M bool :=
  succeeds (syscall (CCopyFileW s d) (λ f, is_file f s && negb (is_dir f d))
                    (λ w, set_fs (copy_effect s d (fs w)) w)).

(** [os.makedirs(p)]: fails when [p] exists or a file is in the way. *)
Definition os_makedirs (p : path) : M unit :=
  syscall (CMakedirs p) (λ f, negb (exists_ f p) && makedirs_possible f p)
          (λ w, set_fs (makedirs_effect p (fs w)) w).

(** [Path(p).mkdir(parents=True, exist_ok=True)] *)
Definition mkdir_parents (p : path) : M unit :=
  syscall (CMakedirs p) (λ f, makedirs_possible f p)
          (λ w, set_fs (makedirs_effect p (fs w)) w).

Definition time_sleep (ms : nat) : M unit :=
  λ w, (record (CSleep ms) true w, Ok tt).

(** [tempfile.mkdtemp()]: a new empty directory in [tempRoot]. *)
Definition scratchDir (w : World) : path := tempRoot ++ [fresh_name (fs w) tempRoot].

Definition tempfile_mkdtemp : M path :=
  λ w, let p := scratchDir w in
       (record (CMkdtemp p) true (set_fs (<[p := Dir]> (fs w)) w), Ok p).

(** Modelled from the spec: [utils.tempFile._createEmptyTempFileForDeletingFile]
    is not part of the sources at hand.  The specification describes its
    result as "a uniquely-named empty placeholder in the same directory":
    a new empty file in [dir], whose path is returned. *)
Definition placeholder (w : World) (dir : path) : path := dir ++ [fresh_name (fs w) dir].

Definition _createEmptyTempFileForDeletingFile (dir : path) : M path :=
  λ w, let p := placeholder w dir in
       (record (CMkstemp p) true (set_fs (<[p := File ""]> (fs w)) w), Ok p).

(** Modelled from the spec: [winKernel.moveFileEx] is not part of the
    sources at hand.  With [MOVEFILE_DELAY_UNTIL_REBOOT] and no target it is
    the platform's "delete on next restart" registration; it raises
    [WindowsError] on failure. *)
Definition winKernel_moveFileEx (p : path) : M unit :=
  syscall (CMoveFileEx p) (λ f, exists_ f p)
          (λ w, mkWorld (fs w) (p :: pending w) (trace w)).

(** ** [tryRemoveFile] *)

(** The loop [for count in range(numRetries)] of [tryRemoveFile]; the
    result is [true] when the function returns from inside the loop. *)
Fixpoint tryRemoveFile_attempts (n : nat) (retryInterval : nat) (tempPath : path) : M bool :=
  match n with
  | O => ret false
  | S k =>
      let! isd := os_path_isdir tempPath in
      let! deleted := succeeds (if isd then shutil_rmtree tempPath else os_remove tempPath) in
      if deleted then ret true
      else time_sleep retryInterval ;;; tryRemoveFile_attempts k retryInterval tempPath
  end.

Definition tryRemoveFile (path_ : path) (numRetries : Z) (retryInterval : nat)
    (rebootOK : bool) : M unit :=
  let dirPath := dirname path_ in
  let! tempPath := _createEmptyTempFileForDeletingFile dirPath in
  except_OSError (os_replace path_ tempPath)
                 (raise (RetriableFailure (RenameBeforeRemoveFailed path_))) ;;;
  let! deleted := tryRemoveFile_attempts (Z.to_nat numRetries) retryInterval tempPath in
  if deleted then ret tt
  else
    let! marked :=
      (if rebootOK then succeeds (winKernel_moveFileEx tempPath) else ret false) in
    if marked then ret tt
    else
      except_Exception (os_replace tempPath path_) (ret tt) ;;;
      raise (RetriableFailure (CouldNotBeRemoved path_)).

(** ** [tryCopyFile] *)

Definition tryCopyFile (sourceFilePath destFilePath : path) : M unit :=
  let! copied := CopyFileW sourceFilePath destFilePath in
  if copied then ret tt
  else
    let! there := os_path_exists destFilePath in
    if negb there then raise OSError
    else
      let! tempPath := _createEmptyTempFileForDeletingFile (dirname destFilePath) in
      except_OSError (os_replace destFilePath tempPath)
                     (raise (RetriableFailure (RenameAfterFailedOverwrite destFilePath))) ;;;
      winKernel_moveFileEx tempPath ;;;
      let! copied2 := CopyFileW sourceFilePath destFilePath in
      if copied2 then ret tt else raise OSError.

(** ** [_revertGroupDelete] and [_deleteFileGroupOrFail] *)

(** The loop of [_revertGroupDelete] over the entries that
    [Path(tempDir).rglob("*")] yields, directories included. *)
Fixpoint revert_each (tempDir installDir : path) (l : list path) : M unit :=
  match l with
  | [] => ret tt
  | tempFile :: rest =>
      let relativePath := drop (length tempDir) tempFile in
      let originalPath := installDir ++ relativePath in
      except_OSError (os_replace tempFile originalPath) (ret tt) ;;;
      revert_each tempDir installDir rest
  end.

(** The listing is taken when the loop starts.  The iterator of [rglob]
    lists each directory when it reaches it; the two differ only after a
    directory of the scratch tree has been renamed away. *)
Definition _revertGroupDelete (tempDir installDir : path) : M unit :=
  λ w, revert_each tempDir installDir (descendants (fs w) tempDir) w.

(** The loop [for count in range(1, numTries + 1)]: [n] attempts remain and
    [count] is the number of the next one.  The result is [true] when the
    loop leaves by [break]. *)
Fixpoint group_remove_attempts (n : nat) (count : nat) (retryWaitInterval : nat)
    (originalPath : path) : M bool :=
  match n with
  | O => ret false
  | S k =>
      (if 1 <? count then time_sleep retryWaitInterval else ret tt) ;;;
      let! deleted := succeeds (os_remove originalPath) in
      if deleted then ret true
      else group_remove_attempts k (S count) retryWaitInterval originalPath
  end.

Fixpoint group_each (tempDir installDir : path) (relativeFilepaths : list path)
    (numTries : Z) (retryWaitInterval : nat) : M unit :=
  match relativeFilepaths with
  | [] => ret tt
  | filepath :: rest =>
      let originalPath := installDir ++ filepath in
      let! there := os_path_exists originalPath in
      if negb there then group_each tempDir installDir rest numTries retryWaitInterval
      else
        let tempPath := tempDir ++ filepath in
        mkdir_parents (dirname tempPath) ;;;
        shutil_copyfile originalPath tempPath ;;;
        let! deleted :=
          group_remove_attempts (Z.to_nat numTries) 1 retryWaitInterval originalPath in
        if deleted then group_each tempDir installDir rest numTries retryWaitInterval
        else
          os_remove tempPath ;;;
          _revertGroupDelete tempDir installDir ;;;
          raise (RetriableFailure MoveToTempFailed)
  end.

Definition _deleteFileGroupOrFail (installDir : path) (relativeFilepaths : list path)
    (numTries : Z) (retryWaitInterval : nat) : M unit :=
  let! tempDir := tempfile_mkdtemp in
  finally (group_each tempDir installDir relativeFilepaths numTries retryWaitInterval)
          (except_OSError (shutil_rmtree tempDir) (ret tt)).

End Engine.

(** ** Directory walks *)

(** What [os.walk] enumerates: the shape of a directory tree, entries in
    the order the directory listing returns them. *)
#[warnings="-register-all"]
Inductive Tree : Type :=
  | TFile
  | TDir (entries : list (string * Tree)).

Definition is_TDir (t : Tree) : bool :=
  match t with TDir _ => true | TFile => false end.

Definition dir_names (es : list (string * Tree)) : list string :=
  (filter (λ e, is_TDir e.2 = true) es).*1.

Definition file_names (es : list (string * Tree)) : list string :=
  (filter (λ e, is_TDir e.2 = false) es).*1.

Definition child (t : Tree) (name : string) : option Tree :=
  match t with
  | TFile => None
  | TDir es => (list_find (λ e, e.1 = name) es) ≫= (λ r, Some r.2.2)
  end.

(** [str.lower] on the ASCII range. *)
Definition lower_ascii (a : ascii) : ascii :=
  let n := nat_of_ascii a in
  if (65 <=? n) && (n <=? 90) then ascii_of_nat (n + 32) else a.

Fixpoint lower (s : string) : string :=
  match s with
  | EmptyString => EmptyString
  | String a r => String (lower_ascii a) (lower r)
  end.

(** [os.path.relpath(p, start)] for a [p] below [start]. *)
Definition relpath (p start : path) : path := drop (length start) p.

Definition is_config_name (x : string) : bool :=
  bool_decide (lower x ∈ ["userconfig"; "systemconfig"]).

Section Walks.

Context (env : Oracle).

(** [globalVars.appDir] and [versionInfo.version]. *)
Context (appDir : path) (version : string).

(** *** [copyProgramFiles] *)

(** The loop [for f in files] of [copyProgramFiles]. *)
Fixpoint copyProgramFiles_files (sourcePath destPath curSourceDir : path)
    (files : list string) : M unit :=
  match files with
  | [] => ret tt
  | f :: rest =>
      if bool_decide (sourcePath = curSourceDir) && bool_decide (lower f = "nvda.exe")
      then copyProgramFiles_files sourcePath destPath curSourceDir rest
      else
        let sourceFilePath := curSourceDir ++ [f] in
        let destFilePath := destPath ++ relpath sourceFilePath sourcePath in
        tryCopyFile env sourceFilePath destFilePath ;;;
        copyProgramFiles_files sourcePath destPath curSourceDir rest
  end.

(** One directory of the top-down walk and, after it, the directories
    left in [subDirs]. *)
Fixpoint copyProgramFiles_walk (sourcePath destPath : path) (t : Tree)
    (curSourceDir : path) (detectUserConfig : bool) : M unit :=
  match t with
  | TFile => ret tt
  | TDir entries =>
      let subDirs := dir_names entries in
      let files := file_names entries in
      let subDirs' :=
        if detectUserConfig
        then filter (λ x, is_config_name x = false) subDirs
        else subDirs in
      let detectUserConfig' := if detectUserConfig then false else detectUserConfig in
      let curDestDir := destPath ++ relpath curSourceDir sourcePath in
      let! isd := os_path_isdir curDestDir in
      (if negb isd then os_makedirs env curDestDir else ret tt) ;;;
      copyProgramFiles_files sourcePath destPath curSourceDir files ;;;
      (fix descend (es : list (string * Tree)) : M unit :=
         match es with
         | [] => ret tt
         | (name, sub) :: es' =>
             (if is_TDir sub && bool_decide (name ∈ subDirs')
              then copyProgramFiles_walk sourcePath destPath sub
                     (curSourceDir ++ [name]) detectUserConfig'
              else ret tt) ;;;
             descend es'
         end) entries
  end.

Definition copyProgramFiles (appTree : Tree) (destPath : path) : M unit :=
  let sourcePath := appDir in
  copyProgramFiles_walk sourcePath destPath appTree sourcePath true.

(** *** [removeOldLibFiles] *)

Fixpoint removeOldLibFiles_dirs (currentLibPath parent : path) (subdirs : list string)
    : M unit :=
  match subdirs with
  | [] => ret tt
  | d :: rest =>
      let path_ := parent ++ [d] in
      (if bool_decide (path_ ≠ currentLibPath)
       then except_OSError (os_rmdir env path_) (ret tt)
       else ret tt) ;;;
      removeOldLibFiles_dirs currentLibPath parent rest
  end.

Fixpoint removeOldLibFiles_files (parent : path) (files : list string) (rebootOK : bool)
    : M unit :=
  match files with
  | [] => ret tt
  | f :: rest =>
      let path_ := parent ++ [f] in
      except_RetriableFailure (tryRemoveFile env path_ 2 500 rebootOK) (ret tt) ;;;
      removeOldLibFiles_files parent rest rebootOK
  end.

(** The bottom-up walk: the subdirectories first, then the directory. *)
Fixpoint removeOldLibFiles_walk (currentLibPath : path) (rebootOK : bool) (t : Tree)
    (parent : path) : M unit :=
  match t with
  | TFile => ret tt
  | TDir entries =>
      (fix descend (es : list (string * Tree)) : M unit :=
         match es with
         | [] => ret tt
         | (name, sub) :: es' =>
             removeOldLibFiles_walk currentLibPath rebootOK sub (parent ++ [name]) ;;;
             descend es'
         end) entries ;;;
      if bool_decide (parent = currentLibPath) then ret tt
      else
        removeOldLibFiles_dirs currentLibPath parent (dir_names entries) ;;;
        removeOldLibFiles_files parent (file_names entries) rebootOK
  end.

Fixpoint removeOldLibFiles_tops (destTree : Tree) (destPath : path) (rebootOK : bool)
    (topDirs : list string) : M unit :=
  match topDirs with
  | [] => ret tt
  | topDir :: rest =>
      let currentLibPath := destPath ++ [topDir; version] in
      match child destTree topDir with
      | Some t => removeOldLibFiles_walk currentLibPath rebootOK t (destPath ++ [topDir])
      | None => ret tt
      end ;;;
      removeOldLibFiles_tops destTree destPath rebootOK rest
  end.

Definition removeOldLibFiles (destTree : Tree) (destPath : path) (rebootOK : bool) : M unit :=
  removeOldLibFiles_tops destTree destPath rebootOK ["lib"; "lib64"; "libArm64"].

(** *** The step of [install] that produces [nvda.exe] *)

(** The loop [for f in ("nvda_UIAccess.exe", "nvda_noUIAccess.exe")] with its
    [else] clause. *)
Fixpoint install_select (installDir : path) (candidates : list string) : M unit :=
  match candidates with
  | [] => raise RuntimeError
  | f :: rest =>
      let f' := installDir ++ [f] in
      let! isf := os_path_isfile f' in
      if isf then tryCopyFile env f' (installDir ++ ["nvda.exe"])
      else install_select installDir rest
  end.

(** [copyProgramFiles(installDir)] followed by the selection loop, as in
    [install]. *)
Definition install_nvdaExe (appTree : Tree) (installDir : path) : M unit :=
  copyProgramFiles appTree installDir ;;;
  install_select installDir ["nvda_UIAccess.exe"; "nvda_noUIAccess.exe"].

End Walks.

(** ** The copy fallback as the specification words it *)

(** The specification of the robust copier: "remove the existing destination
    via LockedFileRemover.remove(dest, defaultPolicy, allowDeferred=true),
    then retry the copy once".  The default policy of [tryRemoveFile] is six
    attempts, half a second apart. *)
Definition RobustCopier_copy_spec (env : Oracle) (source dest : path) : M unit :=
  let! copied := CopyFileW env source dest in
  if copied then ret tt
  else
    let! there := os_path_exists dest in
    if negb there then raise OSError
    else
      tryRemoveFile env dest 6 500 true ;;;
      let! copied2 := CopyFileW env source dest in
      if copied2 then ret tt else raise OSError.

(** ** Reading traces *)

(** The number of recorded calls that satisfy [P]. *)
Definition calls_of (P : Call → bool) (h : list Event) : nat :=
  length (filter (λ e, P (call e) = true) h).

(** The number of times the call [c] was made. *)
Definition attempts (c : Call) (h : list Event) : nat :=
  calls_of (λ c', bool_decide (c' = c)) h.

Definition is_delete (c : Call) : bool :=
  match c with CRemove _ | CRmtree _ => true | _ => false end.

Definition is_MoveFileEx (c : Call) : bool :=
  match c with CMoveFileEx _ => true | _ => false end.

Definition is_CopyFileW (c : Call) : bool :=
  match c with CCopyFileW _ _ => true | _ => false end.

Definition is_Replace (c : Call) : bool :=
  match c with CReplace _ _ => true | _ => false end.

(** The events of one failed iteration of the retry loop of
    [tryRemoveFile], newest first. *)
Definition failed_attempt (iv : nat) (tp : path) : list Event :=
  [Ev (CSleep iv) true; Ev (CRemove tp) false; Ev (CIsdir tp) false].

(** ** The invariant of the group deletion *)

(** Deleting a list of paths. *)
Definition delete_all (ps : list path) (F : FS) : FS := foldr delete F ps.

(** What holds of the file system [f] between two members of the group,
    relative to the file system [F0] of the start: the scratch directory
    [td] exists; outside it, an entry is as it was or is a deleted member
    whose content is kept in the scratch directory; every entry of the
    scratch directory mirrors the original entry of the install directory,
    and a mirrored file is deleted; a member that can never be deleted is as
    it was. *)
Record group_inv (env : Oracle) (F0 : FS) (td inst : path) (rels : list path) (f : FS)
    : Prop := {
  inv_scratch : f !! td = Some Dir;
  inv_outside : ∀ p, ¬ td `prefix_of` p →
    f !! p = F0 !! p ∨
    (f !! p = None ∧
     ∃ x, x ∈ rels ∧ p = inst ++ x ∧ is_file F0 p = true ∧ f !! (td ++ x) = F0 !! p);
  inv_backup : ∀ x nd, x ≠ [] → f !! (td ++ x) = Some nd →
    F0 !! (inst ++ x) = Some nd ∧ (nd ≠ Dir → f !! (inst ++ x) = None);
  inv_locked : ∀ r, (∀ h, env h (CRemove (inst ++ r)) = true) →
    f !! (inst ++ r) = F0 !! (inst ++ r);
}.

(** ** Relations between the worlds before and after a run *)

(** Every run of [m] relates the world before to the world after by [R],
    and a value it returns satisfies [Q]. *)
Definition steps {A} (R : relation World) (Q : A → Prop) (m : M A) : Prop :=
  ∀ w w' r, m w = (w', r) → R w w' ∧ ∀ a, r = Ok a → Q a.

(** The trace grows by events that satisfy [P]. *)
Definition emits (P : Event → Prop) : relation World :=
  λ w w', ∃ evs, trace w' = evs ++ trace w ∧ Forall P evs.

(** The path [p] holds the same file, if any. *)
Definition same_file (p : path) : relation World :=
  λ w w', ∀ c, fs w !! p = Some (File c) ↔ fs w' !! p = Some (File c).

Definition any {A} : A → Prop := λ _, True.

(** The paths a call names. *)
Definition touched (c : Call) : list path :=
  match c with
  | CExists p | CIsdir p | CIsfile p | CRemove p | CRmdir p | CRmtree p
  | CMoveFileEx p | CMkstemp p | CMkdtemp p | CMakedirs p => [p]
  | CReplace s d | CCopyfile s d | CCopyFileW s d => [s; d]
  | CSleep _ => []
  end.

(** A relative directory that is neither a top-level [userConfig] or
    [systemConfig] directory nor below one. *)
Definition top_allowed (rel : path) : Prop :=
  ∀ n rest, rel = n :: rest → is_config_name n = false.

(** The events of [copyProgramFiles]: each belongs to a directory [rel] of
    the walk.  A directory test or creation names the mirror of [rel]; a copy
    goes from a file of [rel] to its mirror; every other call names an entry
    of the mirror of [rel].  At the top level no entry is an [nvda.exe]. *)
Definition walk_event (appDir destPath : path) (e : Event) : Prop :=
  ∃ rel, top_allowed rel ∧
    match call e with
    | CIsdir p | CMakedirs p => p = destPath ++ rel
    | CCopyFileW s d =>
        ∃ f, s = appDir ++ rel ++ [f] ∧ d = destPath ++ rel ++ [f] ∧
             (rel = [] → lower f ≠ "nvda.exe")
    | c => ∀ p, p ∈ touched c →
                ∃ x, p = destPath ++ rel ++ [x] ∧ (rel = [] → lower x ≠ "nvda.exe")
    end.

(** The path [p] lies in or below a top-level [userConfig] or [systemConfig]
    directory of [base]. *)
Definition below_config (base p : path) : Prop :=
  ∃ n rest, is_config_name n = true ∧ rest ≠ [] ∧ p = base ++ n :: rest.

(** An event that stays out of the top-level configuration directories: a
    copy has neither its source in one of them in the program tree nor its
    destination in one of them in the install tree; the directory tested or
    created is neither one of them nor below one; no other call names a path
    in one of them. *)
Definition outside_config (appDir destPath : path) (e : Event) : Prop :=
  match call e with
  | CCopyFileW s d => ¬ below_config appDir s ∧ ¬ below_config destPath d
  | CIsdir p | CMakedirs p =>
      ∀ n rest, is_config_name n = true → p ≠ destPath ++ n :: rest
  | c => ∀ p, p ∈ touched c → ¬ below_config destPath p
  end.

(** An event that names only entries of the directory [parent], and is not
    the removal of a directory. *)
Definition entry_event (parent : path) (e : Event) : Prop :=
  (∀ p, p ∈ touched (call e) → ∃ x, p = parent ++ [x]) ∧ (∀ p, call e ≠ CRmdir p).

(** An event that spares the directory [cur]: it does not remove [cur] and
    names no entry of [cur]. *)
Definition spares (cur : path) (e : Event) : Prop :=
  call e ≠ CRmdir cur ∧ ∀ p, p ∈ touched (call e) → dirname p ≠ cur.

(** The events of the walk of [topDir] in [removeOldLibFiles]. *)
Definition lib_walk_event (destPath : path) (topDir version : string) (e : Event) : Prop :=
  ∀ p, p ∈ touched (call e) →
    ∃ rel x, p = destPath ++ topDir :: rel ++ [x] ∧
             rel ≠ [version] ∧
             (call e = CRmdir p → rel ++ [x] ≠ [version]).

(** ** Concrete worlds and environments *)

Definition installDir0 : path := ["C:"; "Program Files"; "NVDA"].
Definition tempRoot0 : path := ["C:"; "Temp"].
Definition appDir0 : path := ["D:"; "nvda"].
Definition version0 : string := "2025.1".

(** An installed copy with two library versions, and a new program tree
    to install from. *)
Definition files0 : FS :=
  list_to_map [
    (["C:"], Dir);
    (["C:"; "Program Files"], Dir);
    (tempRoot0, Dir);
    (installDir0, Dir);
    (installDir0 ++ ["nvda.exe"], File "nvda 2024");
    (installDir0 ++ ["nvda_slave.exe"], File "slave 2024");
    (installDir0 ++ ["lib"], Dir);
    (installDir0 ++ ["lib"; "2024.4"], Dir);
    (installDir0 ++ ["lib"; "2024.4"; "old.dll"], File "helper 2024");
    (installDir0 ++ ["lib"; "2025.1"], Dir);
    (installDir0 ++ ["lib"; "2025.1"; "nvdaHelper.dll"], File "helper 2025");
    (installDir0 ++ ["lib"; "2025.1"; "x64"], Dir);
    (installDir0 ++ ["lib"; "2025.1"; "x64"; "helper64.dll"], File "helper64 2025");
    (["D:"], Dir);
    (appDir0, Dir);
    (appDir0 ++ ["nvda.exe"], File "nvda 2025");
    (appDir0 ++ ["nvda_noUIAccess.exe"], File "noUIAccess 2025");
    (appDir0 ++ ["nvda_slave.exe"], File "slave 2025");
    (appDir0 ++ ["userConfig"], Dir);
    (appDir0 ++ ["userConfig"; "nvda.ini"], File "settings");
    (appDir0 ++ ["locale"], Dir);
    (appDir0 ++ ["locale"; "userConfig"], Dir);
    (appDir0 ++ ["locale"; "userConfig"; "notes.txt"], File "notes")
  ].

Definition world0 : World := mkWorld files0 [] [].

Definition appTree0 : Tree :=
  TDir [("nvda.exe", TFile);
        ("nvda_noUIAccess.exe", TFile);
        ("nvda_slave.exe", TFile);
        ("userConfig", TDir [("nvda.ini", TFile)]);
        ("locale", TDir [("userConfig", TDir [("notes.txt", TFile)])])].

Definition installTree0 : Tree :=
  TDir [("nvda.exe", TFile);
        ("nvda_slave.exe", TFile);
        ("lib", TDir [("2024.4", TDir [("old.dll", TFile)]);
                      ("2025.1", TDir [("nvdaHelper.dll", TFile);
                                       ("x64", TDir [("helper64.dll", TFile)])])])].

(** Nothing fails. *)
Definition env_ok : Oracle := λ _ _, false.

(** Every deletion of a file fails on its first two attempts. *)
Definition env_fail_twice : Oracle :=
  λ h c, match c with
         | CRemove q => bool_decide (attempts (CRemove q) h < 2)
         | _ => false
         end.

(** Every deletion fails. *)
Definition env_delete_fails : Oracle := λ _ c, is_delete c.

(** Every deletion and every registration for deletion at restart fails. *)
Definition env_delete_and_defer_fail : Oracle := λ _ c, is_delete c || is_MoveFileEx c.

(** Every renaming fails. *)
Definition env_rename_fails : Oracle := λ _ c, is_Replace c.

(** Every [CopyFileW] fails. *)
Definition env_copy_fails : Oracle := λ _ c, is_CopyFileW c.

(** The first [CopyFileW] fails. *)
Definition env_first_copy_fails : Oracle :=
  λ h c, is_CopyFileW c && bool_decide (calls_of is_CopyFileW h = 0).

(** The file [p] cannot be deleted. *)
Definition env_locked (p : path) : Oracle := λ _ c, bool_decide (c = CRemove p).

(** The file [p] cannot be deleted and no renaming succeeds. *)
Definition env_locked_no_restore (p : path) : Oracle :=
  λ _ c, bool_decide (c = CRemove p) || is_Replace c.

(** The file [p] cannot be deleted and [q] cannot be read. *)
Definition env_locked_unreadable (p q : path) : Oracle :=
  λ _ c, bool_decide (c = CRemove p) ||
         match c with CCopyfile s _ => bool_decide (s = q) | _ => false end.

(** Removing a directory tree fails. *)
Definition env_rmtree_fails : Oracle :=
  λ _ c, match c with CRmtree _ => true | _ => false end.

Section UserConfig.

Context (env : Oracle).

(** [WritePaths.configDir]. *)
Context (configDir : path).

(** The loop [for f in files] of [copyUserConfig]. *)
Fixpoint copyUserConfig_files (sourcePath destPath curSourceDir : path)
    (files : list string) : M unit :=
  match files with
  | [] => ret tt
  | f :: rest =>
      let sourceFilePath := curSourceDir ++ [f] in
      let destFilePath := destPath ++ relpath sourceFilePath sourcePath in
      tryCopyFile env sourceFilePath destFilePath ;;;
      copyUserConfig_files sourcePath destPath curSourceDir rest
  end.

Fixpoint copyUserConfig_walk (sourcePath destPath : path) (t : Tree)
    (curSourceDir : path) : M unit :=
  match t with
  | TFile => ret tt
  | TDir entries =>
      let files := file_names entries in
      let curDestDir := destPath ++ relpath curSourceDir sourcePath in
      let! isd := os_path_isdir curDestDir in
      (if negb isd then os_makedirs env curDestDir else ret tt) ;;;
      copyUserConfig_files sourcePath destPath curSourceDir files ;;;
      (fix descend (es : list (string * Tree)) : M unit :=
         match es with
         | [] => ret tt
         | (name, sub) :: es' =>
             (if is_TDir sub
              then copyUserConfig_walk sourcePath destPath sub (curSourceDir ++ [name])
              else ret tt) ;;;
             descend es'
         end) entries
  end.

Definition copyUserConfig (configTree : Tree) (destPath : path) : M unit :=
  let sourcePath := configDir in
  copyUserConfig_walk sourcePath destPath configTree sourcePath.

End UserConfig.

(** The files of a tree, as paths relative to its root, in the order of the
    listing. *)
Fixpoint tree_files (t : Tree) : list path :=
  match t with
  | TFile => []
  | TDir entries =>
      (fix go (es : list (string * Tree)) : list path :=
         match es with
         | [] => []
         | (name, sub) :: es' =>
             (if is_TDir sub then map (cons name) (tree_files sub) else [[name]]) ++ go es'
         end) entries
  end.

(** A run of [m] that starts where [P] holds and returns normally ends
    where [Q] holds of the value returned. *)
Definition hoare {A} (P : World → Prop) (m : M A) (Q : A → World → Prop) : Prop :=
  ∀ w w' a, P w → m w = (w', Ok a) → Q a w'.

(** The state of a copy from [src] to [dst] that started in [w0]: outside
    [dst] every file is as it was, and every file of [S], a set of relative
    paths, is at its place below [dst] with the content it had below [src]. *)
Definition mirrored (src dst : path) (w0 : World) (S : path → Prop) (w : World) : Prop :=
  (∀ q, ¬ dst `prefix_of` q → same_file q w0 w) ∧
  (∀ rel, S rel → ∃ c, fs w0 !! (src ++ rel) = Some (File c) ∧
                       fs w !! (dst ++ rel) = Some (File c)).

(** ** Strings *)

(** [a in s], for a character [a]. *)
Fixpoint contains_char (a : ascii) (s : string) : bool :=
  match s with
  | EmptyString => false
  | String b r => Ascii.eqb a b || contains_char a r
  end.

(** [s.split(a)[0]]: the part of [s] before the first [a]. *)
Fixpoint before_char (a : ascii) (s : string) : string :=
  match s with
  | EmptyString => EmptyString
  | String b r => if Ascii.eqb a b then EmptyString else String b (before_char a r)
  end.

(** The split of a string at its last dot, the dot going to the second part. *)
Fixpoint split_last_dot (s : string) : option (string * string) :=
  match s with
  | EmptyString => None
  | String a r =>
      match split_last_dot r with
      | Some (root, ext) => Some (String a root, ext)
      | None => if Ascii.eqb a "." then Some (EmptyString, s) else None
      end
  end.

Fixpoint all_dots (s : string) : bool :=
  match s with
  | EmptyString => true
  | String a r => Ascii.eqb a "." && all_dots r
  end.

(** [os.path.splitext] on a file name without directory part: the extension
    starts at the last dot, unless only dots precede it. *)
Definition os_path_splitext (p : string) : string * string :=
  match split_last_dot p with
  | Some (root, ext) => if all_dots root then (p, "") else (root, ext)
  | None => (p, "")
  end.

(** [os.path.join(p, s)] for a relative component [s]: an empty component
    names [p] itself. *)
Definition os_path_join (p : path) (s : string) : path :=
  if bool_decide (s = "") then p else p ++ [s].

(** ** [getDocFilePath] *)

(** The languages that [getDocFilePath] tries, in order, for the language
    [lang] that [languageHandler.getLanguage()] returns. *)
Definition tryLangs (lang : string) : list string :=
  [lang] ++ (if contains_char "_" lang then [before_char "_" lang] else []) ++ ["en"].

(** The loop [for tryLang in tryLangs]; falling off its end returns [None]. *)
Fixpoint getDocFilePath_try (rootPath : path) (fileName : string) (langs : list string)
    : M (option path) :=
  match langs with
  | [] => ret None
  | tryLang :: rest =>
      let tryDir := os_path_join rootPath tryLang in
      let! isd := os_path_isdir tryDir in
      if negb isd then getDocFilePath_try rootPath fileName rest
      else
        let tryPath := tryDir ++ [fileName +:+ ".html"] in
        let! isf := os_path_isfile tryPath in
        if isf then ret (Some tryPath) else getDocFilePath_try rootPath fileName rest
  end.

Definition getDocFilePath (lang : string) (fileName : string) (installDir : path)
    : M (option path) :=
  let rootPath := installDir ++ ["documentation"] in
  let '(fileName', fileExt) := os_path_splitext fileName in
  getDocFilePath_try rootPath fileName' (tryLangs lang).

(** The documentation page [name] exists for the language [L] below [root]. *)
Definition has_doc (f : FS) (root : path) (name : string) (L : string) : bool :=
  is_dir f (os_path_join root L) && is_file f (os_path_join root L ++ [name]).

(** [s.endswith(suffix)] *)
Fixpoint endswith (s suffix : string) : bool :=
  String.eqb s suffix ||
  match s with
  | EmptyString => false
  | String _ r => endswith r suffix
  end.

(** The names of the entries of the directory [d]. *)
Definition listdir (f : FS) (d : path) : list string := remove_dups (names_below f d).

(** [os.listdir(d)]: raises [OSError] when [d] is not a directory.  The call
    is not recorded in the trace. *)
Definition os_listdir (d : path) : M (list string) :=
  λ w, if is_dir (fs w) d then (w, Ok (listdir (fs w) d)) else (w, Raise OSError).

Definition is_kept_top (x : string) : bool :=
  bool_decide (lower x ∈ ["userconfig"; "systemconfig"; "lib"; "lib64"; "libarm64"]).

Definition has_old_suffix (f : string) : bool :=
  existsb (endswith f) [".pyc"; ".pyo"; ".pyd"; ".dll"; ".manifest"].

Section OldProgramFiles.

Context (env : Oracle).

(** The order in which the elements of [set(listing)] are visited. *)
Context (set_order : list string → list string).

(** The loop [for fn in files] over the entries of the voices directory. *)
Fixpoint removeOldProgramFiles_voices_each (root : path) (files : list string) : M unit :=
  match files with
  | [] => ret tt
  | fn :: rest =>
      let fn' := root ++ [fn] in
      let! isd := os_path_isdir fn' in
      (if isd then shutil_rmtree env fn' else os_remove env fn') ;;;
      removeOldProgramFiles_voices_each root rest
  end.

(** The first part of [removeOldProgramFiles]: the voices of eSpeak, the
    variants left in place. *)
Definition removeOldProgramFiles_voices (destPath : path) : M unit :=
  let root := destPath ++ ["synthDrivers"; "espeak-ng-data"; "voices"] in
  let! listing := except_OSError (let! l := os_listdir root in ret (Some l)) (ret None) in
  match listing with
  | None => ret tt
  | Some l =>
      let files := filter (λ fn, fn ≠ "!v") (set_order l) in
      removeOldProgramFiles_voices_each root files
  end.

(** The loop [for f in files] of the walk. *)
Fixpoint removeOldProgramFiles_files (curDestDir : path) (files : list string) : M unit :=
  match files with
  | [] => ret tt
  | f :: rest =>
      (if has_old_suffix f
       then except_RetriableFailure (tryRemoveFile env (curDestDir ++ [f]) 6 500 false) (ret tt)
       else ret tt) ;;;
      removeOldProgramFiles_files curDestDir rest
  end.

(** The second part: the top-down walk that removes compiled files and
    libraries of older versions. *)
Fixpoint removeOldProgramFiles_walk (destPath : path) (t : Tree) (curDestDir : path)
    : M unit :=
  match t with
  | TFile => ret tt
  | TDir entries =>
      let subDirs := dir_names entries in
      let files := file_names entries in
      let subDirs' :=
        if bool_decide (curDestDir = destPath)
        then filter (λ x, is_kept_top x = false) subDirs
        else subDirs in
      removeOldProgramFiles_files curDestDir files ;;;
      (fix descend (es : list (string * Tree)) : M unit :=
         match es with
         | [] => ret tt
         | (name, sub) :: es' =>
             (if is_TDir sub && bool_decide (name ∈ subDirs')
              then removeOldProgramFiles_walk destPath sub (curDestDir ++ [name])
              else ret tt) ;;;
             descend es'
         end) entries
  end.

Definition removeOldProgramFiles (destTree : Tree) (destPath : path) : M unit :=
  removeOldProgramFiles_voices destPath ;;;
  removeOldProgramFiles_walk destPath destTree destPath.

End OldProgramFiles.

(** The entry [nd] at [q], if there before the run, is there after it. *)
Definition keeps_entry (q : path) (nd : node) : relation World :=
  λ w w', fs w !! q = Some nd → fs w' !! q = Some nd.

(** A relative path that is neither a top-level [userConfig],
    [systemConfig], [lib], [lib64] or [libArm64] directory nor below one. *)
Definition top_walked (rel : path) : Prop :=
  ∀ n rest, rel = n :: rest → is_kept_top n = false.

(** Every entry has a directory as its parent, the roots apart. *)
Definition well_formed (f : FS) : Prop :=
  map_Forall (λ k _, (length k ≤ 1)%nat ∨ f !! dirname k = Some Dir) f.

(** Nothing appears at [q]. *)
Definition no_new (q : path) : relation World :=
  λ w w', fs w !! q = None → fs w' !! q = None.

(** An installed copy with voices of eSpeak, compiled files and a user
    configuration. *)
Definition voices0 : path := installDir0 ++ ["synthDrivers"; "espeak-ng-data"; "voices"].

Definition files1 : FS :=
  list_to_map [
    (["C:"], Dir);
    (["C:"; "Program Files"], Dir);
    (installDir0, Dir);
    (installDir0 ++ ["library.pyc"], File "bytecode");
    (installDir0 ++ ["readme.txt"], File "read me");
    (installDir0 ++ ["synthDrivers"], Dir);
    (installDir0 ++ ["synthDrivers"; "espeak.pyd"], File "driver");
    (installDir0 ++ ["synthDrivers"; "espeak-ng-data"], Dir);
    (voices0, Dir);
    (voices0 ++ ["!v"], Dir);
    (voices0 ++ ["!v"; "whisper"], File "variant");
    (voices0 ++ ["en"], File "english");
    (voices0 ++ ["roa"], Dir);
    (voices0 ++ ["roa"; "fr"], File "french");
    (installDir0 ++ ["userConfig"], Dir);
    (installDir0 ++ ["userConfig"; "addon.pyd"], File "add-on")
  ].

Definition world1 : World := mkWorld files1 [] [].

Definition installTree1 : Tree :=
  TDir [("library.pyc", TFile);
        ("readme.txt", TFile);
        ("synthDrivers",
           TDir [("espeak.pyd", TFile);
                 ("espeak-ng-data",
                    TDir [("voices", TDir [("!v", TDir [("whisper", TFile)])])])]);
        ("userConfig", TDir [("addon.pyd", TFile)])].

(** Every run of [m] returns normally. *)
Definition never_raises {A} (m : M A) : Prop := ∀ w, ∃ w' a, m w = (w', Ok a).

(** The library directories that [removeOldLibFiles] walks. *)
Definition libDirs : list string := ["lib"; "lib64"; "libArm64"].

Section PortableCopy.

Context (env : Oracle) (tempRoot : path).
Context (appDir : path) (version : string) (configDir : path).
Context (set_order : list string → list string).

(** [createPortableCopy], for an absolute [destPath] (the assertion of the
    source).  Each walk is given the shape of the tree it enumerates:
    [destTree] for [removeOldProgramFiles], [appTree] for
    [copyProgramFiles], [configTree] for [copyUserConfig], and [libTree],
    the destination after the copy, for [removeOldLibFiles]. *)
Definition createPortableCopy (destTree appTree configTree libTree : Tree)
    (destPath : path) (shouldCopyUserConfig : bool) : M unit :=
  _deleteFileGroupOrFail env tempRoot destPath
    ((λ name, [name]) <$> set_order ["nvda.exe"; "nvda_noUIAccess.exe"; "nvda_UIAccess.exe"])
    6 500 ;;;
  removeOldProgramFiles env set_order destTree destPath ;;;
  copyProgramFiles env appDir appTree destPath ;;;
  tryCopyFile env (destPath ++ ["nvda_noUIAccess.exe"]) (destPath ++ ["nvda.exe"]) ;;;
  (if shouldCopyUserConfig
   then copyUserConfig env configDir configTree (destPath ++ ["userConfig"])
   else ret tt) ;;;
  removeOldLibFiles env version libTree destPath true.

End PortableCopy.

(** A relative path of the program tree that a portable copy keeps: not the
    top-level [nvda.exe], and not in or below a top-level configuration or
    library directory. *)
Definition portable_file (rel : path) : Prop :=
  (∀ f, rel = [f] → lower f ≠ "nvda.exe") ∧
  (∀ n y, rel = n :: y → is_config_name n = false ∧ n ∉ libDirs).

Definition portableDir0 : path := ["C:"; "Portable"].

(** ** Shortcuts *)

(** The arguments of [createShortcut]; [None] is Python's [None]. *)
Record ShortcutArgs : Type := mkShortcutArgs {
  path_ : string;
  targetPath : option string;
  arguments : option string;
  iconLocation : option string;
  workingDirectory : option string;
  hotkey : option string;
  prependSpecialFolder : option string;
}.

(** A call of [createShortcut] and the exception it ended with, if any. *)
Definition ShortcutCall : Type := ShortcutArgs * option Exc.

(** [createShortcut] works through the shell's COM objects.  It is taken
    here as a call that the environment lets through or makes raise, after
    the calls made so far. *)
Definition ShortcutOracle : Type := list ShortcutCall → ShortcutArgs → option Exc.

(** Computations that make shortcuts: the state is the list of the calls of
    [createShortcut], newest first. *)
Definition SM (A : Type) : Type := list ShortcutCall → list ShortcutCall * result A.

Definition createShortcut (senv : ShortcutOracle) (a : ShortcutArgs) : SM unit :=
  λ h, match senv h a with
       | None => ((a, None) :: h, Ok tt)
       | Some e => ((a, Some e) :: h, Raise e)
       end.

(** [try: m except Exception: k] *)
Definition try_except_Exception (m k : SM unit) : SM unit :=
  λ h, match m h with
       | (h', Raise _) => k h'
       | r => r
       end.

(** The arguments of the retry with the fallback hotkey, and of the retry
    with the fallback path: [iconLocation] and [workingDirectory] are not
    passed on. *)
Definition retry_hotkey (a : ShortcutArgs) (fallbackHotkey : string) : ShortcutArgs :=
  mkShortcutArgs (path_ a) (targetPath a) (arguments a) None None (Some fallbackHotkey)
                 (prependSpecialFolder a).

Definition retry_path (a : ShortcutArgs) (fallbackPath : string) : ShortcutArgs :=
  mkShortcutArgs fallbackPath (targetPath a) (arguments a) None None (hotkey a)
                 (prependSpecialFolder a).

(** The number of fallbacks still at hand. *)
Definition fallbacks (fallbackHotkey fallbackPath : option string) : nat :=
  (if fallbackHotkey is Some _ then 1 else 0) + (if fallbackPath is Some _ then 1 else 0).

Section Shortcuts.

Context (senv : ShortcutOracle).

(** The body of [_createShortcutWithFallback] is
    [try: createShortcut(...) except Exception: ...].  The clauses are the
    branches of the handler: the retry with the fallback hotkey when both
    [hotkey] and [fallbackHotkey] are given, else the retry with the
    fallback path when one is given, else nothing.  A retry passes [None]
    for the fallback it uses, which is why the recursion ends. *)
Equations(noeqns noind) _createShortcutWithFallback (a : ShortcutArgs)
    (fallbackHotkey fallbackPath : option string) : SM unit
    by wf (fallbacks fallbackHotkey fallbackPath) lt :=
  _createShortcutWithFallback a (Some fh) fp with hotkey a := {
    | Some _ =>
        try_except_Exception (createShortcut senv a)
          (_createShortcutWithFallback (retry_hotkey a fh) None fp)
    | None with fp := {
        | Some p =>
            try_except_Exception (createShortcut senv a)
              (_createShortcutWithFallback (retry_path a p) (Some fh) None)
        | None =>
            try_except_Exception (createShortcut senv a) (λ h, (h, Ok tt)) } };
  _createShortcutWithFallback a None (Some p) :=
    try_except_Exception (createShortcut senv a)
      (_createShortcutWithFallback (retry_path a p) None None);
  _createShortcutWithFallback a None None :=
    try_except_Exception (createShortcut senv a) (λ h, (h, Ok tt)).

End Shortcuts.

(** What a retry keeps of the arguments it was called with. *)
Definition retry_of (a : ShortcutArgs) (c : ShortcutCall) : Prop :=
  iconLocation c.1 = None ∧ workingDirectory c.1 = None ∧
  targetPath c.1 = targetPath a ∧ arguments c.1 = arguments a ∧
  prependSpecialFolder c.1 = prependSpecialFolder a.

(** The call ended with an exception. *)
Definition raised (c : ShortcutCall) : Prop := c.2 ≠ None.

(** The desktop shortcut as [_updateShortcuts] asks for it, with a
    translated hotkey, and an environment in which no shortcut can be made. *)
Definition desktopShortcut0 : ShortcutArgs :=
  mkShortcutArgs "NVDA.lnk" (Some "C:\Program Files\NVDA\nvda_slave.exe")
                 (Some "launchNVDA -r") None (Some "C:\Program Files\NVDA")
                 (Some "STRG+ALT+N") (Some "AllUsersDesktop").

Definition startMenuShortcut0 : ShortcutArgs :=
  mkShortcutArgs "NVDA\NVDA-Webseite.lnk" (Some "https://www.nvaccess.org") None None None
                 None (Some "AllUsersPrograms").

Definition senv_fails : ShortcutOracle := λ _ _, Some OSError.

(** Nothing is registered for deletion at restart between two worlds. *)
Definition defers_nothing : relation World :=
  λ w w', pending w' = pending w ∧
          calls_of is_MoveFileEx (trace w') = calls_of is_MoveFileEx (trace w).

(** Every exception that [m] raises satisfies [P]. *)
Definition raises_only {A} (P : Exc → Prop) (m : M A) : Prop :=
  ∀ w w' e, m w = (w', Raise e) → P e.

(** The exceptions of [_deleteFileGroupOrFail]. *)
Definition group_failure (e : Exc) : Prop :=
  e = RetriableFailure MoveToTempFailed ∨ e = OSError.

(** * Properties *)

(** ** Fresh names *)

Lemma strip_tmp_tmp (s : string) : strip_tmp ("tmp" +:+ s) = Some s.
Proof. reflexivity. Qed.

Lemma names_below_spec (f : FS) (d k : path) (n : string) (rest : path) :
  is_Some (f !! k) → k = d ++ n :: rest → n ∈ names_below f d.
Proof.
  intros [nd Hk] ->. unfold names_below.
  apply list_elem_of_omap. exists (d ++ n :: rest). split.
  - apply list_elem_of_fmap. exists (d ++ n :: rest, nd). split; [done|].
    by apply elem_of_map_to_list.
  - unfold under. rewrite bool_decide_true by (by apply prefix_app_r).
    by rewrite drop_app_length.
Qed.

(** Nothing exists at or below a path with a fresh name. *)
Lemma fresh_name_spec (f : FS) (d k : path) :
  (d ++ [fresh_name f d]) `prefix_of` k → f !! k = None.
Proof.
  intros [rest ->]. destruct (f !! _) as [nd|] eqn:Hk; [|done]. exfalso.
  assert (fresh_name f d ∈ names_below f d) as Hin.
  { eapply names_below_spec; [by eexists|]. by rewrite <- app_assoc. }
  unfold fresh_name in Hin.
  set (l := omap strip_tmp (names_below f d)) in *.
  apply (infinite_is_fresh l). apply list_elem_of_omap.
  eexists. split; [exact Hin|]. apply strip_tmp_tmp.
Qed.

Lemma placeholder_fresh (w : World) (d : path) :
  fs w !! placeholder w d = None.
Proof. by apply (fresh_name_spec _ d). Qed.

(** ** Running the primitives *)

Tactic Notation "wsimpl" := cbn [fs trace pending record set_fs call ok].
Tactic Notation "wsimpl" "in" hyp(H) := cbn [fs trace pending record set_fs call ok] in H.

Lemma World_eta (w : World) : mkWorld (fs w) (pending w) (trace w) = w.
Proof. by destruct w. Qed.

Lemma mjoin_replicate_comm {A} (n : nat) (l : list A) :
  mjoin (replicate n l) ++ l = l ++ mjoin (replicate n l).
Proof.
  induction n as [|n IH]; simpl.
  - by rewrite app_nil_r.
  - by rewrite <- app_assoc, IH.
Qed.

Lemma is_dir_File (f : FS) p c : f !! p = Some (File c) → is_dir f p = false.
Proof. unfold is_dir. by intros ->. Qed.

Lemma is_file_File (f : FS) p c : f !! p = Some (File c) → is_file f p = true.
Proof. unfold is_file. by intros ->. Qed.

Lemma tryRemoveFile_attempts_fail env n iv tp w c :
  fs w !! tp = Some (File c) →
  (∀ h, env h (CRemove tp) = true) →
  tryRemoveFile_attempts env n iv tp w =
    (mkWorld (fs w) (pending w) (mjoin (replicate n (failed_attempt iv tp)) ++ trace w),
     Ok false).
Proof.
  intros Hf Henv. revert w Hf. induction n as [|n IH]; intros w Hf.
  - simpl. unfold ret. by rewrite World_eta.
  - cbn [tryRemoveFile_attempts]. unfold bind at 1, os_path_isdir, query.
    rewrite (is_dir_File _ _ _ Hf).
    unfold bind at 1, succeeds, except_OSError, bind at 1, os_remove, syscall.
    cbn [fs trace pending record set_fs]. rewrite (is_file_File _ _ _ Hf), Henv.
    cbn. unfold bind, time_sleep. rewrite IH by done.
    cbn [fs trace pending record set_fs]. f_equal. f_equal.
    change (?a :: ?b :: ?c :: trace w) with (failed_attempt iv tp ++ trace w).
    rewrite app_assoc, mjoin_replicate_comm, <- app_assoc. done.
Qed.

Lemma calls_of_cons P e h :
  calls_of P (e :: h) = (if P (call e) then 1 else 0) + calls_of P h.
Proof.
  unfold calls_of. rewrite filter_cons. case_decide as HP.
  - by rewrite HP.
  - by destruct (P (call e)).
Qed.

Lemma calls_of_nil P : calls_of P [] = 0.
Proof. done. Qed.

Lemma calls_of_app P h1 h2 : calls_of P (h1 ++ h2) = calls_of P h1 + calls_of P h2.
Proof. unfold calls_of. by rewrite filter_app, length_app. Qed.

Lemma calls_of_replicate P n l : calls_of P (mjoin (replicate n l)) = n * calls_of P l.
Proof.
  induction n as [|n IH]; [done|]. simpl. by rewrite calls_of_app, IH.
Qed.

Lemma tryRemoveFile_prefix env p numRetries iv rebootOK w c :
  let tp := placeholder w (dirname p) in
  fs w !! p = Some (File c) →
  (∀ h, env h (CReplace p tp) = false) →
  (∀ h, env h (CRemove tp) = true) →
  tryRemoveFile env p numRetries iv rebootOK w =
    (let w2 := mkWorld (<[tp := File c]> (delete p (<[tp := File ""]> (fs w)))) (pending w)
                 (mjoin (replicate (Z.to_nat numRetries) (failed_attempt iv tp)) ++
                  Ev (CReplace p tp) true :: Ev (CMkstemp tp) true :: trace w) in
     (let! marked := (if rebootOK then succeeds (winKernel_moveFileEx env tp) else ret false) in
      if marked then ret tt
      else except_Exception (os_replace env tp p) (ret tt) ;;;
           raise (RetriableFailure (CouldNotBeRemoved p))) w2).
Proof.
  intros tp Hp Hrep Hrem.
  assert (fs w !! tp = None) as Htp by apply placeholder_fresh.
  assert (p ≠ tp) as Hne by congruence.
  unfold tryRemoveFile. unfold bind at 1, _createEmptyTempFileForDeletingFile.
  fold tp. unfold bind at 1, except_OSError, os_replace, syscall.
  cbn [fs trace pending record set_fs].
  unfold is_file at 1, is_dir at 1. rewrite lookup_insert_ne, Hp, lookup_insert_eq by done.
  rewrite Hrep. cbn [andb negb orb]. unfold bind at 1.
  erewrite tryRemoveFile_attempts_fail; [|cbn [fs]|done].
  2:{ unfold replace_effect. rewrite lookup_insert_ne, Hp by done. apply lookup_insert_eq. }
  cbn [fs trace pending]. unfold replace_effect. rewrite lookup_insert_ne, Hp by done.
  done.
Qed.

(** C4.  With deferral allowed, on a file whose initial renaming succeeds,
    whose deletion fails at every attempt and whose registration for
    deletion at restart goes through, [tryRemoveFile] returns normally, calls
    [moveFileEx] exactly once, and leaves nothing at the original path: the
    content lives on under the placeholder, which is pending deletion. *)
Theorem tryRemoveFile_rebootOK_defers env p numRetries iv w c :
  let tp := placeholder w (dirname p) in
  fs w !! p = Some (File c) →
  (∀ h, env h (CReplace p tp) = false) →
  (∀ h, env h (CRemove tp) = true) →
  (∀ h, env h (CMoveFileEx tp) = false) →
  ∃ w', tryRemoveFile env p numRetries iv true w = (w', Ok tt) ∧
        calls_of is_MoveFileEx (trace w') = 1 + calls_of is_MoveFileEx (trace w) ∧
        calls_of is_delete (trace w') = Z.to_nat numRetries + calls_of is_delete (trace w) ∧
        fs w' !! p = None ∧
        fs w' !! tp = Some (File c) ∧
        pending w' = tp :: pending w.
Proof.
  intros tp Hp Hrep Hrem Hmv.
  assert (fs w !! tp = None) as Htp by apply placeholder_fresh.
  assert (p ≠ tp) as Hne by congruence.
  rewrite (tryRemoveFile_prefix _ _ _ _ _ _ c) by done. fold tp. cbv zeta.
  unfold bind at 1, succeeds, except_OSError, bind at 1, winKernel_moveFileEx, syscall.
  cbn [fs trace pending record set_fs]. rewrite Hmv.
  unfold exists_. rewrite lookup_insert_eq. cbn [andb negb]. unfold ret.
  eexists. split; [reflexivity|]. cbn [fs trace pending record set_fs].
  repeat split.
  - unfold failed_attempt.
    rewrite calls_of_cons, calls_of_app, calls_of_replicate, !calls_of_cons. cbn. lia.
  - unfold failed_attempt.
    rewrite calls_of_cons, calls_of_app, calls_of_replicate, !calls_of_cons. cbn. lia.
  - rewrite lookup_insert_ne, lookup_delete_eq by done. done.
  - apply lookup_insert_eq.
Qed.

Lemma attempts_cons c e h :
  attempts c (e :: h) = (if bool_decide (call e = c) then 1 else 0) + attempts c h.
Proof. apply calls_of_cons. Qed.

Ltac count_attempts :=
  rewrite ?attempts_cons; cbn [call];
  repeat case_bool_decide; try congruence; try lia.

(** The restore of an exhausted removal gives back the original file system. *)
Lemma restore_fs (F : FS) (p tp : path) (c : content) :
  F !! p = Some (File c) → F !! tp = None →
  <[p := File c]> (delete tp (<[tp := File c]> (delete p (<[tp := File ""]> F)))) = F.
Proof.
  intros Hp Htp. assert (p ≠ tp) by congruence.
  apply map_eq. intros k.
  destruct (decide (k = p)) as [->|]; [by rewrite lookup_insert_eq|].
  rewrite lookup_insert_ne by done.
  destruct (decide (k = tp)) as [->|]; [by rewrite lookup_delete_eq|].
  by rewrite lookup_delete_ne, lookup_insert_ne, lookup_delete_ne, lookup_insert_ne.
Qed.

(** C5 as amended.  When every deletion attempt fails and the registration
    for deletion at restart fails or is not permitted, [tryRemoveFile]
    attempts exactly once to rename the placeholder back and raises
    [RetriableFailure], the exception it also raises when the initial
    renaming fails.  When the renaming back succeeds, the file system is
    what it was before the call; otherwise the content stays under the
    placeholder. *)
Theorem tryRemoveFile_exhausted env p numRetries iv rebootOK w c :
  let tp := placeholder w (dirname p) in
  fs w !! p = Some (File c) →
  (∀ h, env h (CReplace p tp) = false) →
  (∀ h, env h (CRemove tp) = true) →
  (rebootOK = true → ∀ h, env h (CMoveFileEx tp) = true) →
  ∃ w' restored,
    tryRemoveFile env p numRetries iv rebootOK w
      = (w', Raise (RetriableFailure (CouldNotBeRemoved p))) ∧
    head (trace w') = Some (Ev (CReplace tp p) restored) ∧
    attempts (CReplace tp p) (trace w') = 1 + attempts (CReplace tp p) (trace w) ∧
    (restored = true → fs w' = fs w) ∧
    (restored = false → fs w' !! p = None ∧ fs w' !! tp = Some (File c)) ∧
    pending w' = pending w.
Proof.
  intros tp Hp Hrep Hrem Hmv.
  assert (fs w !! tp = None) as Htp by apply placeholder_fresh.
  assert (p ≠ tp) as Hne by congruence.
  assert (tp ≠ p) as Hne' by congruence.
  rewrite (tryRemoveFile_prefix _ _ _ _ _ _ c) by done. fold tp. cbv zeta.
  set (w2 := mkWorld _ _ _).
  assert (∃ w3, (if rebootOK then succeeds (winKernel_moveFileEx env tp) else ret false) w2
                = (w3, Ok false) ∧ fs w3 = fs w2 ∧ pending w3 = pending w2 ∧
                attempts (CReplace tp p) (trace w3) = attempts (CReplace tp p) (trace w))
    as (w3 & Hrun & Hfs3 & Hpend3 & Hatt3).
  { assert (attempts (CReplace tp p) (trace w2) = attempts (CReplace tp p) (trace w)) as Hw2.
    { subst w2. wsimpl. unfold attempts. rewrite calls_of_app, calls_of_replicate.
      unfold failed_attempt. rewrite !calls_of_cons, calls_of_nil. cbn [call].
      repeat case_bool_decide; try congruence; lia. }
    destruct rebootOK.
    - unfold succeeds, except_OSError, bind, winKernel_moveFileEx, syscall.
      rewrite Hmv by done. rewrite andb_false_r. eexists. split; [reflexivity|].
      wsimpl. repeat split; try done.
    - eexists. split; [reflexivity|]. done. }
  unfold bind at 1. rewrite Hrun. unfold bind at 1, except_Exception, os_replace, syscall.
  assert (fs w3 !! tp = Some (File c)) as Htp3.
  { rewrite Hfs3. subst w2. wsimpl. apply lookup_insert_eq. }
  assert (fs w3 !! p = None) as Hp3.
  { rewrite Hfs3. subst w2. wsimpl. by rewrite lookup_insert_ne, lookup_delete_eq. }
  unfold is_file, is_dir. rewrite Htp3, Hp3. cbn [andb negb orb].
  destruct (env (trace w3) (CReplace tp p)) eqn:Hrestore; cbn [negb].
  - unfold ret, raise. exists (record (CReplace tp p) false w3), false. wsimpl.
    split; [done|]. split; [done|]. split; [count_attempts|].
    repeat split; done.
  - unfold ret, raise. eexists _, true. split; [reflexivity|]. wsimpl.
    split; [done|]. split; [count_attempts|].
    split; [|done]. intros _. unfold replace_effect. rewrite Htp3, Hfs3. subst w2. wsimpl.
    by apply restore_fs.
Qed.

Lemma remove_fs (F : FS) (p tp : path) (c : content) :
  F !! p = Some (File c) → F !! tp = None →
  delete tp (<[tp := File c]> (delete p (<[tp := File ""]> F))) = delete p F.
Proof.
  intros Hp Htp. assert (p ≠ tp) by congruence.
  apply map_eq. intros k.
  destruct (decide (k = tp)) as [->|].
  { by rewrite lookup_delete_eq, lookup_delete_ne, Htp. }
  rewrite lookup_delete_ne, lookup_insert_ne by done.
  destruct (decide (k = p)) as [->|]; [by rewrite !lookup_delete_eq|].
  by rewrite !lookup_delete_ne, lookup_insert_ne.
Qed.

Lemma tryRemoveFile_attempts_S env n iv tp w :
  is_dir (fs w) tp = false →
  tryRemoveFile_attempts env (S n) iv tp w =
    if is_file (fs w) tp && negb (env (Ev (CIsdir tp) false :: trace w) (CRemove tp))
    then (mkWorld (delete tp (fs w)) (pending w)
            (Ev (CRemove tp) true :: Ev (CIsdir tp) false :: trace w), Ok true)
    else tryRemoveFile_attempts env n iv tp
           (mkWorld (fs w) (pending w)
              (Ev (CSleep iv) true :: Ev (CRemove tp) false :: Ev (CIsdir tp) false :: trace w)).
Proof.
  intros Hd. cbn [tryRemoveFile_attempts].
  unfold bind at 1, os_path_isdir, query. rewrite Hd.
  unfold bind at 1, succeeds, except_OSError, bind at 1, os_remove, syscall. wsimpl.
  by destruct (is_file (fs w) tp && negb (env _ _)).
Qed.

Lemma tryRemoveFile_third_attempt env p w c :
  let tp := placeholder w (dirname p) in
  fs w !! p = Some (File c) →
  (∀ h, env h (CReplace p tp) = false) →
  (∀ h, env h (CRemove tp) =
        bool_decide (attempts (CRemove tp) h < 2 + attempts (CRemove tp) (trace w))) →
  ∃ w', tryRemoveFile env p 3 0 false w = (w', Ok tt) ∧
        attempts (CRemove tp) (trace w') = 3 + attempts (CRemove tp) (trace w) ∧
        calls_of is_delete (trace w') = 3 + calls_of is_delete (trace w) ∧
        fs w' = delete p (fs w).
Proof.
  intros tp Hp Hrep Hrem.
  assert (fs w !! tp = None) as Htp by apply placeholder_fresh.
  assert (p ≠ tp) as Hne by congruence.
  unfold tryRemoveFile. unfold bind at 1, _createEmptyTempFileForDeletingFile.
  fold tp. unfold bind at 1, except_OSError, os_replace, syscall. wsimpl.
  unfold is_file at 1, is_dir at 1. rewrite lookup_insert_ne, Hp, lookup_insert_eq by done.
  rewrite Hrep. cbn [andb negb orb]. unfold bind at 1.
  unfold replace_effect. rewrite lookup_insert_ne, Hp by done.
  change (Z.to_nat 3) with 3.
  set (F := <[tp := File c]> _).
  assert (F !! tp = Some (File c)) as HF by apply lookup_insert_eq.
  assert (is_dir F tp = false) as HFd by (by unfold is_dir; rewrite HF).
  assert (is_file F tp = true) as HFf by (by unfold is_file; rewrite HF).
  rewrite tryRemoveFile_attempts_S by done. wsimpl.
  rewrite HFf, Hrem, bool_decide_true by count_attempts. cbn [andb negb].
  rewrite tryRemoveFile_attempts_S by done. wsimpl.
  rewrite HFf, Hrem, bool_decide_true by count_attempts. cbn [andb negb].
  rewrite tryRemoveFile_attempts_S by done. wsimpl.
  rewrite HFf, Hrem, bool_decide_false by count_attempts. cbn [andb negb].
  eexists. split; [reflexivity|]. wsimpl.
  split; [count_attempts|]. split; [by rewrite !calls_of_cons|].
  subst F. by apply remove_fs.
Qed.

(** ** Directories and subtrees *)

Lemma prefixes_snoc (l : path) (x : string) : prefixes (l ++ [x]) = prefixes l ++ [l ++ [x]].
Proof.
  induction l as [|y l IH]; [done|].
  cbn [prefixes app]. rewrite IH, fmap_app. done.
Qed.

Lemma elem_of_prefixes (p q : path) : q ∈ prefixes p ↔ q ≠ [] ∧ q `prefix_of` p.
Proof.
  revert q. induction p as [|y p IH] using rev_ind; intros q.
  - cbn. split; [by intros ?%elem_of_nil|]. intros [Hq Hp%prefix_nil_inv]. done.
  - rewrite prefixes_snoc, elem_of_app, IH, list_elem_of_singleton. split.
    + intros [[? ?]| ->]; [split; [done|by apply prefix_app_r]|].
      split; [by destruct p|done].
    + intros [Hq [k Hk]]. destruct k as [|z k _] using rev_ind.
      * right. by rewrite app_nil_r in Hk.
      * left. split; [done|]. rewrite app_assoc in Hk.
        apply app_inj_tail in Hk as [-> _]. by exists k.
Qed.

Lemma mkdir_plan_snoc (f : FS) (l : path) (x : string) :
  mkdir_plan f (l ++ [x]) =
    match f !! (l ++ [x]) with
    | Some Dir => Some []
    | Some (File _) => None
    | None => cons (l ++ [x]) <$> mkdir_plan f l
    end.
Proof. unfold mkdir_plan. by rewrite prefixes_snoc, reverse_snoc. Qed.

Lemma mkdir_plan_dir (f : FS) (p : path) : f !! p = Some Dir → mkdir_plan f p = Some [].
Proof.
  destruct p as [|x l _] using rev_ind; [done|].
  intros Hp. by rewrite mkdir_plan_snoc, Hp.
Qed.

Lemma remove_subtree_lookup (d k : path) (f : FS) :
  remove_subtree d f !! k = if under d k then None else f !! k.
Proof.
  unfold remove_subtree. destruct (under d k) eqn:Hu.
  - apply map_lookup_filter_None. right. intros nd _. cbn. by rewrite Hu.
  - destruct (f !! k) as [nd|] eqn:Hk.
    + apply map_lookup_filter_Some. by split.
    + apply map_lookup_filter_None. by left.
Qed.

Lemma under_refl (d : path) : under d d = true.
Proof. unfold under. by apply bool_decide_true. Qed.

Lemma scratchDir_fresh (tempRoot : path) (w : World) (x : path) :
  fs w !! (scratchDir tempRoot w ++ x) = None.
Proof. apply (fresh_name_spec _ tempRoot). by apply prefix_app_r. Qed.

Lemma scratchDir_absent (tempRoot : path) (w : World) :
  fs w !! scratchDir tempRoot w = None.
Proof. rewrite <- (app_nil_r (scratchDir _ _)). apply scratchDir_fresh. Qed.

Lemma dirname_snoc (l : path) (x : string) : dirname (l ++ [x]) = l.
Proof. unfold dirname. apply removelast_last. Qed.

(** ** The retry loop of the group deletion *)

Lemma group_remove_attempts_S env n count iv p w :
  group_remove_attempts env (S n) count iv p w =
    let w1 := if 1 <? count then record (CSleep iv) true w else w in
    if is_file (fs w1) p && negb (env (trace w1) (CRemove p))
    then (record (CRemove p) true (set_fs (delete p (fs w1)) w1), Ok true)
    else group_remove_attempts env n (S count) iv p (record (CRemove p) false w1).
Proof.
  cbn [group_remove_attempts]. unfold bind at 1.
  destruct (1 <? count); unfold time_sleep, ret; cbv zeta;
    unfold bind at 1, succeeds, except_OSError, bind at 1, os_remove, syscall;
    by destruct (is_file _ p && negb (env _ _)).
Qed.

Lemma group_third_attempt env tempRoot inst name w c :
  let td := scratchDir tempRoot w in
  let p := inst ++ [name] in
  fs w !! p = Some (File c) →
  (∀ h, env h (CMakedirs td) = false) →
  (∀ h, env h (CCopyfile p (td ++ [name])) = false) →
  (∀ h, env h (CRemove p) =
        bool_decide (attempts (CRemove p) h < 2 + attempts (CRemove p) (trace w))) →
  ∃ w', _deleteFileGroupOrFail env tempRoot inst [[name]] 3 0 w = (w', Ok tt) ∧
        attempts (CRemove p) (trace w') = 3 + attempts (CRemove p) (trace w) ∧
        fs w' !! p = None.
Proof.
  intros td p Hp Hmk Hcp Hrem.
  assert (fs w !! td = None) as Htd by apply scratchDir_absent.
  assert (fs w !! (td ++ [name]) = None) as Htdn by apply scratchDir_fresh.
  assert (p ≠ td) as Hne by congruence.
  assert (p ≠ td ++ [name]) as Hne2 by congruence.
  assert (td ≠ p) as Hne3 by congruence.
  assert (td ≠ td ++ [name]) as Hne4.
  { intros H%(f_equal length). rewrite length_app in H. cbn in H. lia. }
  unfold _deleteFileGroupOrFail. unfold bind at 1, tempfile_mkdtemp. fold td.
  unfold finally. cbn [group_each]. fold p.
  unfold bind at 1, os_path_exists, query. wsimpl.
  unfold exists_ at 1 2. rewrite lookup_insert_ne, Hp by done. cbn [negb].
  rewrite dirname_snoc. unfold bind at 1, mkdir_parents, syscall. wsimpl.
  unfold makedirs_possible, makedirs_effect.
  rewrite mkdir_plan_dir by apply lookup_insert_eq. rewrite Hmk. cbn [andb negb make_dirs foldr].
  unfold bind at 1, shutil_copyfile, syscall. wsimpl.
  unfold is_file at 1, is_dir at 1.
  rewrite lookup_insert_ne, Hp, lookup_insert_ne, Htdn, Hcp by done.
  cbn [andb negb]. unfold copy_effect. rewrite lookup_insert_ne, Hp by done.
  change (Z.to_nat 3) with 3.
  set (F := <[td ++ [name] := File c]> _).
  assert (is_file F p = true) as HF.
  { unfold is_file. subst F. by rewrite !lookup_insert_ne, Hp by done. }
  unfold bind at 1.
  rewrite group_remove_attempts_S. cbn [Nat.ltb Nat.leb]. cbv zeta. wsimpl.
  rewrite HF, Hrem, bool_decide_true by count_attempts. cbn [andb negb].
  rewrite group_remove_attempts_S. cbn [Nat.ltb Nat.leb]. cbv zeta. wsimpl.
  rewrite HF, Hrem, bool_decide_true by count_attempts. cbn [andb negb].
  rewrite group_remove_attempts_S. cbn [Nat.ltb Nat.leb]. cbv zeta. wsimpl.
  rewrite HF, Hrem, bool_decide_false by count_attempts. cbn [andb negb].
  unfold ret at 1. unfold except_OSError, shutil_rmtree, syscall, ret. wsimpl.
  destruct (is_dir _ td && negb (env _ (CRmtree td))); eexists; (split; [reflexivity|]);
    wsimpl; (split; [count_attempts|]).
  - rewrite remove_subtree_lookup. destruct (under td p); [done|]. apply lookup_delete_eq.
  - apply lookup_delete_eq.
Qed.

(** ** The retry bound *)

(** C3.  With three attempts and no waiting, a file of the install directory
    whose deletion fails on exactly the first two attempts is removed on the
    third, the other steps going through: the single-file remover and the
    group deletion both return normally, and each makes exactly three
    deletion attempts on the file. *)
Theorem retry_bound_three_attempts env tempRoot inst name w c :
  let p := inst ++ [name] in
  let tp := placeholder w (dirname p) in
  let td := scratchDir tempRoot w in
  fs w !! p = Some (File c) →
  (∀ h, env h (CReplace p tp) = false) →
  (∀ h, env h (CRemove tp) =
        bool_decide (attempts (CRemove tp) h < 2 + attempts (CRemove tp) (trace w))) →
  (∀ h, env h (CMakedirs td) = false) →
  (∀ h, env h (CCopyfile p (td ++ [name])) = false) →
  (∀ h, env h (CRemove p) =
        bool_decide (attempts (CRemove p) h < 2 + attempts (CRemove p) (trace w))) →
  (∃ w', tryRemoveFile env p 3 0 false w = (w', Ok tt) ∧
         attempts (CRemove tp) (trace w') = 3 + attempts (CRemove tp) (trace w) ∧
         calls_of is_delete (trace w') = 3 + calls_of is_delete (trace w) ∧
         fs w' = delete p (fs w)) ∧
  (∃ w', _deleteFileGroupOrFail env tempRoot inst [[name]] 3 0 w = (w', Ok tt) ∧
         attempts (CRemove p) (trace w') = 3 + attempts (CRemove p) (trace w) ∧
         fs w' !! p = None).
Proof.
  intros p tp td Hp Hrep Hrem Hmk Hcp Hrem'. split.
  - by apply (tryRemoveFile_third_attempt env p w c).
  - by apply (group_third_attempt env tempRoot inst name w c).
Qed.

(** ** The fallback of [tryCopyFile] *)

Lemma CopyFileW_run env s d w :
  CopyFileW env s d w =
    if is_file (fs w) s && negb (is_dir (fs w) d) && negb (env (trace w) (CCopyFileW s d))
    then (record (CCopyFileW s d) true (set_fs (copy_effect s d (fs w)) w), Ok true)
    else (record (CCopyFileW s d) false w, Ok false).
Proof.
  unfold CopyFileW, succeeds, except_OSError, bind, syscall.
  by destruct (is_file (fs w) s && negb (is_dir (fs w) d) && negb (env _ _)).
Qed.

(** The run of [tryCopyFile] when the first copy fails, the destination is
    a file, and neither the renaming aside nor the registration is made to
    fail: everything up to the retried copy is determined. *)
Lemma tryCopyFile_fallback_run env s d w c :
  let tp := placeholder w (dirname d) in
  let F2 := <[tp := File c]> (delete d (<[tp := File ""]> (fs w))) in
  let h2 := Ev (CMoveFileEx tp) true :: Ev (CReplace d tp) true :: Ev (CMkstemp tp) true
            :: Ev (CExists d) true :: Ev (CCopyFileW s d) false :: trace w in
  fs w !! d = Some (File c) →
  is_file (fs w) s && negb (env (trace w) (CCopyFileW s d)) = false →
  (∀ h, env h (CReplace d tp) = false) →
  (∀ h, env h (CMoveFileEx tp) = false) →
  tryCopyFile env s d w =
    if is_file F2 s && negb (env h2 (CCopyFileW s d))
    then (mkWorld (copy_effect s d F2) (tp :: pending w) (Ev (CCopyFileW s d) true :: h2),
          Ok tt)
    else (mkWorld F2 (tp :: pending w) (Ev (CCopyFileW s d) false :: h2), Raise OSError).
Proof.
  intros tp F2 h2 Hd Hfirst Hren Hreg.
  assert (fs w !! tp = None) as Htp by apply placeholder_fresh.
  assert (d ≠ tp) as Hne by congruence.
  assert (is_dir (fs w) d = false) as Hdd by (by unfold is_dir; rewrite Hd).
  unfold tryCopyFile. unfold bind at 1. rewrite CopyFileW_run, Hdd.
  rewrite andb_true_r, Hfirst.
  unfold bind at 1, os_path_exists, query. wsimpl.
  unfold exists_ at 1 2. rewrite Hd. cbn [negb].
  unfold bind at 1, _createEmptyTempFileForDeletingFile. wsimpl.
  change (placeholder (record _ _ (record _ _ w)) (dirname d)) with tp.
  unfold bind at 1, except_OSError, os_replace, syscall. wsimpl.
  unfold is_file at 1, is_dir at 1. rewrite lookup_insert_ne, Hd, lookup_insert_eq, Hren by done.
  cbn [andb negb orb]. unfold replace_effect. rewrite lookup_insert_ne, Hd by done.
  fold F2. unfold bind at 1, winKernel_moveFileEx, syscall. wsimpl.
  unfold exists_ at 1. subst F2. rewrite lookup_insert_eq, Hreg. cbn [andb negb].
  unfold bind at 1. rewrite CopyFileW_run. wsimpl.
  set (F2 := <[tp := File c]> _).
  assert (is_dir F2 d = false) as ->.
  { unfold is_dir. subst F2. by rewrite lookup_insert_ne, lookup_delete_eq. }
  rewrite andb_true_r. fold h2.
  by destruct (is_file F2 s && negb (env h2 (CCopyFileW s d))).
Qed.

(** C6 as amended.  When the first copy fails and the destination is an
    existing file, [tryCopyFile] renames the destination to a new placeholder
    and registers the placeholder for deletion at the next restart, without
    a single deletion attempt; it then retries the copy exactly once, and
    raises [OSError] when the retry fails.  The placeholder is a name of the
    destination's directory at which nothing existed; the calls made are,
    in order, the failed copy, the existence test, the creation of the
    placeholder, the renaming of the destination to it, its registration
    and the retried copy; after the call the old content of the destination
    is under the placeholder. *)
Theorem tryCopyFile_fallback_defers env s d w c :
  let tp := placeholder w (dirname d) in
  fs w !! d = Some (File c) →
  is_file (fs w) s && negb (env (trace w) (CCopyFileW s d)) = false →
  (∀ h, env h (CReplace d tp) = false) →
  (∀ h, env h (CMoveFileEx tp) = false) →
  ∃ w' r copied2,
    tryCopyFile env s d w = (w', r) ∧
    head (trace w') = Some (Ev (CCopyFileW s d) copied2) ∧
    calls_of is_delete (trace w') = calls_of is_delete (trace w) ∧
    calls_of is_MoveFileEx (trace w') = 1 + calls_of is_MoveFileEx (trace w) ∧
    calls_of is_CopyFileW (trace w') = 2 + calls_of is_CopyFileW (trace w) ∧
    pending w' = tp :: pending w ∧
    r = (if copied2 then Ok tt else Raise OSError) ∧
    dirname tp = dirname d ∧
    fs w !! tp = None ∧
    trace w' = [Ev (CCopyFileW s d) copied2; Ev (CMoveFileEx tp) true;
                Ev (CReplace d tp) true; Ev (CMkstemp tp) true;
                Ev (CExists d) true; Ev (CCopyFileW s d) false] ++ trace w ∧
    calls_of is_Replace (trace w') = 1 + calls_of is_Replace (trace w) ∧
    fs w' !! tp = Some (File c) ∧
    (copied2 = false → fs w' !! d = None).
Proof.
  intros tp Hd Hfirst Hren Hreg.
  assert (fs w !! tp = None) as Htp by apply placeholder_fresh.
  assert (d ≠ tp) as Hne by congruence.
  assert (dirname tp = dirname d) as Hdir by apply dirname_snoc.
  rewrite (tryCopyFile_fallback_run env s d w c) by done. fold tp.
  match goal with |- context [if ?b then _ else _] => destruct b end;
    eexists _, _, _; (split; [reflexivity|]); wsimpl;
    rewrite !calls_of_cons; cbn [call is_delete is_MoveFileEx is_CopyFileW is_Replace].
  - split; [done|]. split; [lia|]. split; [lia|]. split; [lia|]. split; [done|].
    split; [done|]. split; [done|]. split; [done|]. split; [done|]. split; [lia|].
    split; [|done].
    unfold copy_effect. destruct (_ !! s) as [[?|]|].
    + rewrite lookup_insert_ne by done. apply lookup_insert_eq.
    + apply lookup_insert_eq.
    + apply lookup_insert_eq.
  - split; [done|]. split; [lia|]. split; [lia|]. split; [lia|]. split; [done|].
    split; [done|]. split; [done|]. split; [done|]. split; [done|]. split; [lia|].
    split; [apply lookup_insert_eq|]. intros _.
    by rewrite lookup_insert_ne, lookup_delete_eq.
Qed.

(** C10.  The fallback of [tryCopyFile] is not atomic: once the destination
    has been renamed aside and registered for deletion at restart, it is
    never renamed back; its content lives on under the placeholder only, and
    when the retried copy fails the call raises with nothing at the
    destination path. *)
Theorem tryCopyFile_fallback_not_atomic env s d w c :
  let tp := placeholder w (dirname d) in
  fs w !! d = Some (File c) →
  is_file (fs w) s && negb (env (trace w) (CCopyFileW s d)) = false →
  (∀ h, env h (CReplace d tp) = false) →
  (∀ h, env h (CMoveFileEx tp) = false) →
  ∃ w' r copied2,
    tryCopyFile env s d w = (w', r) ∧
    head (trace w') = Some (Ev (CCopyFileW s d) copied2) ∧
    calls_of is_Replace (trace w') = 1 + calls_of is_Replace (trace w) ∧
    attempts (CReplace tp d) (trace w') = attempts (CReplace tp d) (trace w) ∧
    fs w' !! tp = Some (File c) ∧
    tp ∈ pending w' ∧
    (copied2 = false → r = Raise OSError ∧ fs w' !! d = None).
Proof.
  intros tp Hd Hfirst Hren Hreg.
  assert (fs w !! tp = None) as Htp by apply placeholder_fresh.
  assert (d ≠ tp) as Hne by congruence.
  rewrite (tryCopyFile_fallback_run env s d w c) by done. fold tp.
  match goal with |- context [if ?b then _ else _] => destruct b end;
    eexists _, _, _; (split; [reflexivity|]); wsimpl.
  - split; [done|]. split; [by rewrite !calls_of_cons|]. split; [count_attempts|].
    split; [|split; [by left|done]].
    unfold copy_effect. destruct (_ !! s) as [[?|]|].
    + rewrite lookup_insert_ne by done. apply lookup_insert_eq.
    + apply lookup_insert_eq.
    + apply lookup_insert_eq.
  - split; [done|]. split; [by rewrite !calls_of_cons|]. split; [count_attempts|].
    split; [apply lookup_insert_eq|]. split; [by left|]. intros _. split; [done|].
    by rewrite lookup_insert_ne, lookup_delete_eq.
Qed.

Lemma retry_bound_three_attempts_witness :
  let p := installDir0 ++ ["nvda.exe"] in
  let tp := placeholder world0 (dirname p) in
  (∃ w', tryRemoveFile env_fail_twice p 3 0 false world0 = (w', Ok tt) ∧
         attempts (CRemove tp) (trace w') = 3 + attempts (CRemove tp) (trace world0) ∧
         calls_of is_delete (trace w') = 3 + calls_of is_delete (trace world0) ∧
         fs w' = delete p (fs world0)) ∧
  (∃ w', _deleteFileGroupOrFail env_fail_twice tempRoot0 installDir0 [["nvda.exe"]] 3 0 world0
           = (w', Ok tt) ∧
         attempts (CRemove p) (trace w') = 3 + attempts (CRemove p) (trace world0) ∧
         fs w' !! p = None).
Proof.
  apply (retry_bound_three_attempts env_fail_twice tempRoot0 installDir0 "nvda.exe" world0
           "nvda 2024").
  - vm_compute. reflexivity.
  - intros h. reflexivity.
  - intros h. reflexivity.
  - intros h. reflexivity.
  - intros h. reflexivity.
  - intros h. reflexivity.
Defined.

Lemma tryRemoveFile_rebootOK_defers_witness :
  let p := installDir0 ++ ["nvda.exe"] in
  let tp := placeholder world0 (dirname p) in
  ∃ w', tryRemoveFile env_delete_fails p 6 500 true world0 = (w', Ok tt) ∧
        calls_of is_MoveFileEx (trace w') = 1 + calls_of is_MoveFileEx (trace world0) ∧
        calls_of is_delete (trace w') = Z.to_nat 6 + calls_of is_delete (trace world0) ∧
        fs w' !! p = None ∧
        fs w' !! tp = Some (File "nvda 2024") ∧
        pending w' = tp :: pending world0.
Proof.
  apply (tryRemoveFile_rebootOK_defers env_delete_fails (installDir0 ++ ["nvda.exe"]) 6 500
           world0 "nvda 2024").
  - vm_compute. reflexivity.
  - intros h. reflexivity.
  - intros h. reflexivity.
  - intros h. reflexivity.
Defined.

Lemma tryRemoveFile_exhausted_witness :
  let p := installDir0 ++ ["nvda.exe"] in
  let tp := placeholder world0 (dirname p) in
  ∃ w' restored,
    tryRemoveFile env_delete_and_defer_fail p 6 500 true world0
      = (w', Raise (RetriableFailure (CouldNotBeRemoved p))) ∧
    head (trace w') = Some (Ev (CReplace tp p) restored) ∧
    attempts (CReplace tp p) (trace w') = 1 + attempts (CReplace tp p) (trace world0) ∧
    (restored = true → fs w' = fs world0) ∧
    (restored = false → fs w' !! p = None ∧ fs w' !! tp = Some (File "nvda 2024")) ∧
    pending w' = pending world0.
Proof.
  apply (tryRemoveFile_exhausted env_delete_and_defer_fail (installDir0 ++ ["nvda.exe"]) 6 500
           true world0 "nvda 2024").
  - vm_compute. reflexivity.
  - intros h. reflexivity.
  - intros h. reflexivity.
  - intros _ h. reflexivity.
Defined.

(** C5, counterexample.  A removal that exhausts its six attempts, with no
    deferral, and a removal whose initial renaming fails raise the same
    exception class, [RetriableFailure], with different messages; a handler
    for [RetriableFailure], as in [removeOldLibFiles], catches both.  The
    exhausted case has no kind of its own. *)
Lemma tryRemoveFile_exhausted_kind_counterexample :
  let p := installDir0 ++ ["nvda.exe"] in
  let exhausted := tryRemoveFile env_delete_fails p 6 500 false world0 in
  let rename_failed := tryRemoveFile env_rename_fails p 6 500 false world0 in
  calls_of is_delete (trace exhausted.1) = 6 ∧
  calls_of is_delete (trace rename_failed.1) = 0 ∧
  exhausted.2 = Raise (RetriableFailure (CouldNotBeRemoved p)) ∧
  rename_failed.2 = Raise (RetriableFailure (RenameBeforeRemoveFailed p)) ∧
  (except_RetriableFailure (tryRemoveFile env_delete_fails p 6 500 false) (ret tt)
     world0).2 = Ok tt ∧
  (except_RetriableFailure (tryRemoveFile env_rename_fails p 6 500 false) (ret tt)
     world0).2 = Ok tt.
Proof. vm_compute. repeat split. Qed.

Lemma tryCopyFile_fallback_defers_witness :
  let s := appDir0 ++ ["nvda_slave.exe"] in
  let d := installDir0 ++ ["nvda_slave.exe"] in
  let tp := placeholder world0 (dirname d) in
  ∃ w' r copied2,
    tryCopyFile env_copy_fails s d world0 = (w', r) ∧
    head (trace w') = Some (Ev (CCopyFileW s d) copied2) ∧
    calls_of is_delete (trace w') = calls_of is_delete (trace world0) ∧
    calls_of is_MoveFileEx (trace w') = 1 + calls_of is_MoveFileEx (trace world0) ∧
    calls_of is_CopyFileW (trace w') = 2 + calls_of is_CopyFileW (trace world0) ∧
    pending w' = tp :: pending world0 ∧
    r = (if copied2 then Ok tt else Raise OSError) ∧
    dirname tp = dirname d ∧
    fs world0 !! tp = None ∧
    trace w' = [Ev (CCopyFileW s d) copied2; Ev (CMoveFileEx tp) true;
                Ev (CReplace d tp) true; Ev (CMkstemp tp) true;
                Ev (CExists d) true; Ev (CCopyFileW s d) false] ++ trace world0 ∧
    calls_of is_Replace (trace w') = 1 + calls_of is_Replace (trace world0) ∧
    fs w' !! tp = Some (File "slave 2024") ∧
    (copied2 = false → fs w' !! d = None).
Proof.
  apply (tryCopyFile_fallback_defers env_copy_fails (appDir0 ++ ["nvda_slave.exe"])
           (installDir0 ++ ["nvda_slave.exe"]) world0 "slave 2024").
  - vm_compute. reflexivity.
  - vm_compute. reflexivity.
  - intros h. reflexivity.
  - intros h. reflexivity.
Defined.

Lemma tryCopyFile_fallback_not_atomic_witness :
  let s := appDir0 ++ ["nvda_slave.exe"] in
  let d := installDir0 ++ ["nvda_slave.exe"] in
  let tp := placeholder world0 (dirname d) in
  ∃ w' r copied2,
    tryCopyFile env_copy_fails s d world0 = (w', r) ∧
    head (trace w') = Some (Ev (CCopyFileW s d) copied2) ∧
    calls_of is_Replace (trace w') = 1 + calls_of is_Replace (trace world0) ∧
    attempts (CReplace tp d) (trace w') = attempts (CReplace tp d) (trace world0) ∧
    fs w' !! tp = Some (File "slave 2024") ∧
    tp ∈ pending w' ∧
    (copied2 = false → r = Raise OSError ∧ fs w' !! d = None).
Proof.
  apply (tryCopyFile_fallback_not_atomic env_copy_fails (appDir0 ++ ["nvda_slave.exe"])
           (installDir0 ++ ["nvda_slave.exe"]) world0 "slave 2024").
  - vm_compute. reflexivity.
  - vm_compute. reflexivity.
  - intros h. reflexivity.
  - intros h. reflexivity.
Defined.

(** C6, counterexample.  The first copy fails, the destination exists and
    nothing locks it.  Removing the destination with the locked-file remover,
    as the specification words it, deletes the file at the first attempt and
    registers nothing; [tryCopyFile] makes no deletion attempt, leaves the
    old content under the placeholder and registers it for deletion at the
    next restart. *)
Lemma tryCopyFile_no_delete_retries_counterexample :
  let s := appDir0 ++ ["nvda_slave.exe"] in
  let d := installDir0 ++ ["nvda_slave.exe"] in
  let tp := placeholder world0 (dirname d) in
  let code := tryCopyFile env_first_copy_fails s d world0 in
  let spec := RobustCopier_copy_spec env_first_copy_fails s d world0 in
  code.2 = Ok tt ∧ spec.2 = Ok tt ∧
  calls_of is_delete (trace spec.1) = 1 ∧ calls_of is_delete (trace code.1) = 0 ∧
  pending spec.1 = [] ∧ pending code.1 = [tp] ∧
  fs spec.1 !! tp = None ∧ fs code.1 !! tp = Some (File "slave 2024").
Proof. vm_compute. repeat split. Qed.

(** ** Group deletion: members that do not exist *)

Lemma group_each_skip env td inst r rest n iv w :
  fs w !! (inst ++ r) = None →
  group_each env td inst (r :: rest) n iv w =
    group_each env td inst rest n iv (record (CExists (inst ++ r)) false w).
Proof.
  intros Hr. cbn [group_each]. unfold bind at 1, os_path_exists, query.
  unfold exists_. by rewrite Hr.
Qed.

Lemma group_each_none_exist env td inst rels n iv w :
  (∀ r, r ∈ rels → fs w !! (inst ++ r) = None) →
  ∃ w', group_each env td inst rels n iv w = (w', Ok tt) ∧
        fs w' = fs w ∧ pending w' = pending w.
Proof.
  revert w. induction rels as [|r rest IH]; intros w Hnone.
  - by exists w.
  - rewrite group_each_skip by (apply Hnone; by left).
    destruct (IH (record (CExists (inst ++ r)) false w)) as (w' & Hrun & Hfs & Hpend).
    { intros r' Hr'. wsimpl. apply Hnone. by right. }
    exists w'. by rewrite Hrun.
Qed.

Lemma remove_subtree_fresh (d : path) (F : FS) :
  (∀ k, d `prefix_of` k → F !! k = None) →
  remove_subtree d (<[d := Dir]> F) = F.
Proof.
  intros Hfresh. apply map_eq. intros k. rewrite remove_subtree_lookup.
  unfold under. case_bool_decide as Hk.
  - symmetry. by apply Hfresh.
  - apply lookup_insert_ne. intros ->. by apply Hk.
Qed.

(** C8 as amended.  When no member of the group exists under the install
    directory, [_deleteFileGroupOrFail] returns normally, each member being
    skipped after the existence test; the file system is left as it was,
    except that the empty scratch directory stays behind when its removal
    fails, a failure the function ignores. *)
Theorem group_delete_none_exist env tempRoot inst rels n iv w :
  let td := scratchDir tempRoot w in
  (∀ r, r ∈ rels → fs w !! (inst ++ r) = None) →
  (∀ r, r ∈ rels → inst ++ r ≠ td) →
  (∃ w' removed,
     _deleteFileGroupOrFail env tempRoot inst rels n iv w = (w', Ok tt) ∧
     head (trace w') = Some (Ev (CRmtree td) removed) ∧
     fs w' = (if removed then fs w else <[td := Dir]> (fs w)) ∧
     pending w' = pending w) ∧
  (∀ r rest w1, fs w1 !! (inst ++ r) = None →
     group_each env td inst (r :: rest) n iv w1 =
       group_each env td inst rest n iv (record (CExists (inst ++ r)) false w1)).
Proof.
  intros td Hnone Hne. split; [|intros; by apply group_each_skip].
  unfold _deleteFileGroupOrFail. unfold bind at 1, tempfile_mkdtemp. fold td.
  unfold finally.
  set (w1 := record _ _ _).
  destruct (group_each_none_exist env td inst rels n iv w1) as (w2 & -> & Hfs & Hpend).
  { intros r Hr. subst w1. wsimpl. rewrite lookup_insert_ne by (symmetry; by apply Hne).
    by apply Hnone. }
  unfold except_OSError, shutil_rmtree, syscall, ret.
  destruct (is_dir (fs w2) td && negb (env (trace w2) (CRmtree td))).
  - exists (record (CRmtree td) true (set_fs (remove_subtree td (fs w2)) w2)), true.
    wsimpl. repeat split; [|done]. rewrite Hfs. subst w1. wsimpl.
    apply remove_subtree_fresh. intros k [x ->]. apply scratchDir_fresh.
  - exists (record (CRmtree td) false w2), false. wsimpl. repeat split; [|done].
    by rewrite Hfs.
Qed.

Lemma group_delete_none_exist_witness :
  let td := scratchDir tempRoot0 world0 in
  let rels := [["nvda_service.exe"]; ["nvda_eoaProxy.exe"]] in
  (∃ w' removed,
     _deleteFileGroupOrFail env_ok tempRoot0 installDir0 rels 6 500 world0 = (w', Ok tt) ∧
     head (trace w') = Some (Ev (CRmtree td) removed) ∧
     fs w' = (if removed then fs world0 else <[td := Dir]> (fs world0)) ∧
     pending w' = pending world0) ∧
  (∀ r rest w1, fs w1 !! (installDir0 ++ r) = None →
     group_each env_ok td installDir0 (r :: rest) 6 500 w1 =
       group_each env_ok td installDir0 rest 6 500 (record (CExists (installDir0 ++ r)) false w1)).
Proof.
  apply (group_delete_none_exist env_ok tempRoot0 installDir0
           [["nvda_service.exe"]; ["nvda_eoaProxy.exe"]] 6 500 world0).
  - intros r Hr. repeat (apply elem_of_cons in Hr as [->|Hr]; [vm_compute; reflexivity|]).
    by apply elem_of_nil in Hr.
  - intros r Hr. repeat (apply elem_of_cons in Hr as [->|Hr]; [vm_compute; discriminate|]).
    by apply elem_of_nil in Hr.
Defined.

(** C8, counterexample.  No member of the group exists and removing the
    scratch directory fails: the call returns normally and the scratch
    directory is left behind. *)
Lemma group_delete_scratch_left_counterexample :
  let td := scratchDir tempRoot0 world0 in
  let run := _deleteFileGroupOrFail env_rmtree_fails tempRoot0 installDir0
               [["nvda_service.exe"]; ["nvda_eoaProxy.exe"]] 6 500 world0 in
  fs world0 !! (installDir0 ++ ["nvda_service.exe"]) = None ∧
  fs world0 !! (installDir0 ++ ["nvda_eoaProxy.exe"]) = None ∧
  fs world0 !! td = None ∧
  run.2 = Ok tt ∧
  fs run.1 !! td = Some Dir.
Proof. vm_compute. repeat split. Qed.

(** ** Group deletion: all or nothing *)

Lemma delete_all_lookup (ps : list path) (F : FS) (k : path) :
  delete_all ps F !! k = if decide (k ∈ ps) then None else F !! k.
Proof.
  induction ps as [|p ps IH]; cbn [delete_all foldr].
  - by rewrite decide_False by apply not_elem_of_nil.
  - fold (delete_all ps F). destruct (decide (k = p)) as [->|Hne].
    + rewrite lookup_delete_eq. by rewrite decide_True by (by left).
    + rewrite lookup_delete_ne, IH by done.
      destruct (decide (k ∈ ps)).
      * by rewrite decide_True by (by right).
      * rewrite decide_False; [done|]. by intros [?|?]%elem_of_cons.
Qed.

Lemma make_dirs_lookup (ps : list path) (f : FS) (k : path) :
  make_dirs ps f !! k = if decide (k ∈ ps) then Some Dir else f !! k.
Proof.
  induction ps as [|p ps IH]; cbn [make_dirs foldr].
  - by rewrite decide_False by apply not_elem_of_nil.
  - fold (make_dirs ps f). destruct (decide (k = p)) as [->|Hne].
    + rewrite lookup_insert_eq. by rewrite decide_True by (by left).
    + rewrite lookup_insert_ne, IH by done.
      destruct (decide (k ∈ ps)).
      * by rewrite decide_True by (by right).
      * rewrite decide_False; [done|]. by intros [?|?]%elem_of_cons.
Qed.

Lemma strictly_under_spec (d k : path) :
  strictly_under d k = true ↔ ∃ x, x ≠ [] ∧ k = d ++ x.
Proof.
  unfold strictly_under, under. rewrite andb_true_iff, negb_true_iff.
  rewrite bool_decide_eq_true, bool_decide_eq_false. split.
  - intros [[x ->] Hne]. exists x. split; [|done]. intros ->. by rewrite app_nil_r in Hne.
  - intros (x & Hx & ->). split; [by exists x|].
    intros H%(f_equal length). rewrite length_app in H. destruct x; [done|]. cbn in H. lia.
Qed.

Lemma elem_of_descendants (f : FS) (d k : path) :
  k ∈ descendants f d ↔ strictly_under d k = true ∧ is_Some (f !! k).
Proof.
  unfold descendants. rewrite merge_sort_Permutation, list_elem_of_filter.
  rewrite list_elem_of_fmap. split.
  - intros [Hu ([k' nd] & -> & Hin%elem_of_map_to_list)]. split; [done|by eexists].
  - intros [Hu [nd Hk]]. split; [done|]. exists (k, nd). split; [done|].
    by apply elem_of_map_to_list.
Qed.

Lemma NoDup_descendants (f : FS) (d : path) : NoDup (descendants f d).
Proof.
  unfold descendants. rewrite merge_sort_Permutation.
  apply NoDup_filter, NoDup_fst_map_to_list.
Qed.

Lemma mkdir_plan_under (f : FS) (td y : path) :
  f !! td = Some Dir →
  (∀ y' nd, y' ≠ [] → y' `prefix_of` y → f !! (td ++ y') = Some nd → nd = Dir) →
  ∃ ps, mkdir_plan f (td ++ y) = Some ps ∧
        ∀ q, q ∈ ps → ∃ y', q = td ++ y' ∧ y' ≠ [] ∧ y' `prefix_of` y ∧ f !! q = None.
Proof.
  intros Htd. induction y as [|x y IH] using rev_ind; intros Hdirs.
  - rewrite app_nil_r, mkdir_plan_dir by done. exists []. split; [done|].
    by intros q ?%elem_of_nil.
  - rewrite app_assoc, mkdir_plan_snoc, <- app_assoc.
    destruct (f !! (td ++ y ++ [x])) as [[c|]|] eqn:Hk.
    + by specialize (Hdirs (y ++ [x]) (File c) ltac:(by destruct y) ltac:(done) Hk).
    + exists []. split; [done|]. by intros q ?%elem_of_nil.
    + destruct IH as (ps & -> & Hps).
      { intros y' nd ? ? ?. eapply Hdirs; [done| |done]. by apply prefix_app_r. }
      eexists. split; [reflexivity|]. intros q [->|Hq]%elem_of_cons.
      * exists (y ++ [x]). split; [done|]. split; [by destruct y|]. done.
      * destruct (Hps q Hq) as (y' & -> & ? & ? & ?). exists y'.
        repeat split; try done. by apply prefix_app_r.
Qed.

Lemma group_remove_attempts_spec env n count iv p w :
  ∃ w' b, group_remove_attempts env n count iv p w = (w', Ok b) ∧
          pending w' = pending w ∧
          (b = true → fs w' = delete p (fs w) ∧ ∃ h, env h (CRemove p) = false) ∧
          (b = false → fs w' = fs w).
Proof.
  revert count w. induction n as [|n IH]; intros count w.
  - exists w, false. by repeat split.
  - rewrite group_remove_attempts_S. cbv zeta.
    set (w1 := if 1 <? count then _ else _).
    assert (fs w1 = fs w ∧ pending w1 = pending w) as [Hfs Hpend]
      by (subst w1; by destruct (1 <? count)).
    destruct (is_file (fs w1) p && negb (env (trace w1) (CRemove p))) eqn:Hok.
    + eexists _, true. split; [reflexivity|]. wsimpl. rewrite Hfs. repeat split; try done.
      apply andb_true_iff in Hok as [_ Hok%negb_true_iff]. by eexists.
    + destruct (IH (S count) (record (CRemove p) false w1)) as (w' & b & -> & Hp & Ht & Hf).
      cbn [fs pending record] in Hp, Ht, Hf. rewrite Hfs in Ht, Hf. rewrite Hpend in Hp.
      by exists w', b.
Qed.

Lemma except_replace_run env s d w :
  except_OSError (os_replace env s d) (ret tt) w =
    if ((is_file (fs w) s && negb (is_dir (fs w) d)) ||
        (is_dir (fs w) s && negb (exists_ (fs w) d))) && negb (env (trace w) (CReplace s d))
    then (record (CReplace s d) true (set_fs (replace_effect s d (fs w)) w), Ok tt)
    else (record (CReplace s d) false w, Ok tt).
Proof.
  unfold except_OSError, os_replace, syscall.
  by match goal with |- context [if ?b then _ else _] => destruct b end.
Qed.

Lemma app_ne_self (d x : path) : x ≠ [] → d ++ x ≠ d.
Proof.
  intros Hx H%(f_equal length). rewrite length_app in H. destruct x; [done|]. cbn in H. lia.
Qed.

Section AllOrNothing.

Context (env : Oracle) (tempRoot inst : path) (rels : list path).
Context (numTries : Z) (iv : nat) (w : World).

Let td : path := scratchDir tempRoot w.

(** Only deletions of group members fail. *)
Hypothesis Henv : ∀ h c, env h c = true → ∃ r, r ∈ rels ∧ c = CRemove (inst ++ r).
(** The members are named, and none is a directory. *)
Hypothesis Hmem : ∀ r, r ∈ rels → r ≠ [] ∧ fs w !! (inst ++ r) ≠ Some Dir.
(** An existing member lies in directories. *)
Hypothesis Hanc : ∀ r q, r ∈ rels → is_Some (fs w !! (inst ++ r)) →
  q ∈ prefixes r → q ≠ r → fs w !! (inst ++ q) = Some Dir.
(** The scratch directory and the install directory are apart. *)
Hypothesis Hapart : ¬ inst `prefix_of` td ∧ ¬ td `prefix_of` inst.

Local Abbreviation Inv := (group_inv env (fs w) td inst rels).

Lemma inst_not_under (x : path) : ¬ td `prefix_of` inst ++ x.
Proof using Hapart.
  intros Hp. destruct Hapart as [H1 H2].
  destruct (prefix_weak_total td inst (inst ++ x)) as [?|?]; [done|by apply prefix_app_r|..]; done.
Qed.

Lemma inst_td_ne (x y : path) : inst ++ x ≠ td ++ y.
Proof using Hapart.
  intros Heq. apply (inst_not_under x). rewrite Heq. by apply prefix_app_r.
Qed.

Lemma inst_ne_td (x : path) : inst ++ x ≠ td.
Proof using Hapart. rewrite <- (app_nil_r td). apply inst_td_ne. Qed.

Lemma td_fresh (x : path) : fs w !! (td ++ x) = None.
Proof. apply scratchDir_fresh. Qed.

Lemma env_false (h : list Event) (c : Call) :
  (∀ r, c ≠ CRemove (inst ++ r)) → env h c = false.
Proof using Henv.
  intros Hc. destruct (env h c) eqn:He; [|done].
  destruct (Henv _ _ He) as (r & _ & ->). by destruct (Hc r).
Qed.

Lemma group_inv_init : Inv (<[td := Dir]> (fs w)).
Proof.
  split.
  - apply lookup_insert_eq.
  - intros p Hp. left. apply lookup_insert_ne. intros <-. by apply Hp.
  - intros x nd Hx. rewrite lookup_insert_ne, td_fresh; [done|].
    by apply not_eq_sym, app_ne_self.
  - intros r _. apply lookup_insert_ne. apply not_eq_sym, inst_ne_td.
Qed.

(** Restoring: every backup left in the scratch directory goes back. *)
Lemma revert_each_spec (l : list path) (w1 : World) :
  Inv (fs w1) →
  NoDup l →
  (∀ k, k ∈ l → ∃ x, x ≠ [] ∧ k = td ++ x) →
  (∀ x c, x ≠ [] → fs w1 !! (td ++ x) = Some (File c) → td ++ x ∈ l) →
  ∃ w2, revert_each env td inst l w1 = (w2, Ok tt) ∧
        pending w2 = pending w1 ∧
        fs w2 !! td = Some Dir ∧
        ∀ p, ¬ td `prefix_of` p → fs w2 !! p = fs w !! p.
Proof using Henv Hmem Hapart.
  revert w1. induction l as [|k l IH]; intros w1 HI Hnd Hl Hfiles.
  - exists w1. split; [done|]. split; [done|]. split; [apply HI|].
    intros p Hp. destruct (inv_outside _ _ _ _ _ _ HI p Hp) as [?|(_ & x & Hx & -> & Hf & Hb)];
      [done|].
    unfold is_file in Hf. destruct (fs w !! (inst ++ x)) as [[c|]|] eqn:HF; try done.
    destruct (Hmem x Hx) as [Hne _].
    by apply Hfiles, elem_of_nil in Hb.
  - destruct (Hl k ltac:(by left)) as (x & Hx & ->).
    apply NoDup_cons in Hnd as [Hk Hnd].
    cbn [revert_each]. rewrite drop_app_length. unfold bind at 1.
    rewrite except_replace_run.
    rewrite (env_false _ (CReplace _ _)) by done. rewrite andb_true_r.
    assert (∀ w', (∀ c, fs w1 !! (td ++ x) ≠ Some (File c)) →
              fs w' = fs w1 → pending w' = pending w1 →
              ∃ w2, revert_each env td inst l w' = (w2, Ok tt) ∧ pending w2 = pending w1 ∧
                    fs w2 !! td = Some Dir ∧ ∀ p, ¬ td `prefix_of` p → fs w2 !! p = fs w !! p)
      as Hsame.
    { intros w' Hnf Hfs Hpend. destruct (IH w') as (w2 & ? & ? & ? & ?).
      - by rewrite Hfs.
      - done.
      - intros k' Hk'. apply Hl. by right.
      - intros x' c' Hx'. rewrite Hfs. intros Hin. pose proof Hin as Hin'.
        apply Hfiles in Hin; [|done]. apply elem_of_cons in Hin as [Heq|?]; [|done].
        apply app_inv_head in Heq as ->. by destruct (Hnf c').
      - exists w2. repeat split; try done. congruence. }
    destruct (fs w1 !! (td ++ x)) as [[c|]|] eqn:Hsrc.
    + destruct (inv_backup _ _ _ _ _ _ HI x (File c) Hx Hsrc) as [HF0 Hdst].
      specialize (Hdst ltac:(done)).
      unfold is_file, is_dir. rewrite Hsrc, Hdst. cbn [andb negb orb].
      unfold replace_effect. rewrite Hsrc.
      set (f' := <[inst ++ x := File c]> (delete (td ++ x) (fs w1))).
      destruct (IH (record (CReplace (td ++ x) (inst ++ x)) true (set_fs f' w1)))
        as (w2 & ? & ? & ? & ?); [| done | | | by exists w2].
      * wsimpl. split.
        -- subst f'. rewrite lookup_insert_ne by apply inst_ne_td.
           rewrite lookup_delete_ne by (by apply app_ne_self). apply HI.
        -- intros p Hp. subst f'. destruct (decide (p = inst ++ x)) as [->|Hpx].
           { left. by rewrite lookup_insert_eq. }
           rewrite lookup_insert_ne by done.
           rewrite lookup_delete_ne by (intros <-; apply Hp; by apply prefix_app_r).
           destruct (inv_outside _ _ _ _ _ _ HI p Hp) as [?|(? & x' & ? & -> & ? & Hb)];
             [by left|right].
           split; [done|]. exists x'. repeat split; try done.
           rewrite lookup_insert_ne by apply inst_td_ne.
           rewrite lookup_delete_ne; [done|]. intros Heq. apply app_inv_head in Heq. congruence.
        -- intros x' nd Hx'. subst f'. rewrite lookup_insert_ne by apply inst_td_ne.
           destruct (decide (x' = x)) as [->|Hxx]; [by rewrite lookup_delete_eq|].
           rewrite lookup_delete_ne by (intros Heq; apply app_inv_head in Heq; congruence).
           intros Hb. destruct (inv_backup _ _ _ _ _ _ HI x' nd Hx' Hb) as [? Hd].
           split; [done|]. intros Hnd'.
           rewrite lookup_insert_ne by (intros Heq; apply app_inv_head in Heq; congruence).
           rewrite lookup_delete_ne by (apply not_eq_sym, inst_td_ne). by apply Hd.
        -- intros r Hr. subst f'. destruct (decide (r = x)) as [->|Hrx].
           { by rewrite lookup_insert_eq. }
           rewrite lookup_insert_ne by (intros Heq; apply app_inv_head in Heq; congruence).
           rewrite lookup_delete_ne by (apply not_eq_sym, inst_td_ne).
           by apply (inv_locked _ _ _ _ _ _ HI).
      * intros k' Hk'. apply Hl. by right.
      * intros x' c' Hx'. wsimpl. subst f'. rewrite lookup_insert_ne by apply inst_td_ne.
        destruct (decide (x' = x)) as [->|Hxx]; [by rewrite lookup_delete_eq|].
        rewrite lookup_delete_ne by (intros Heq; apply app_inv_head in Heq; congruence).
        intros Hin. apply Hfiles in Hin; [|done]. apply elem_of_cons in Hin as [Heq|?]; [|done].
        apply app_inv_head in Heq. congruence.
    + destruct (inv_backup _ _ _ _ _ _ HI x Dir Hx Hsrc) as [HF0 _].
      assert (fs w1 !! (inst ++ x) = Some Dir) as Hdst.
      { destruct (inv_outside _ _ _ _ _ _ HI (inst ++ x) (inst_not_under x))
          as [->|(_ & _ & _ & _ & Hf & _)]; [done|].
        unfold is_file in Hf. by rewrite HF0 in Hf. }
      unfold is_file, is_dir, exists_. rewrite Hsrc, Hdst. cbn [andb negb orb].
      by apply Hsame.
    + unfold is_file, is_dir. rewrite Hsrc. cbn [andb negb orb]. by apply Hsame.
Qed.

(** The directories made for a backup keep the invariant. *)
Lemma group_inv_make_dirs (f : FS) (r0 : path) (x : string) (ps : list path) :
  r0 ++ [x] ∈ rels →
  is_Some (fs w !! (inst ++ r0 ++ [x])) →
  (∀ q, q ∈ ps → ∃ y', q = td ++ y' ∧ y' ≠ [] ∧ y' `prefix_of` r0 ∧ f !! q = None) →
  Inv f → Inv (make_dirs ps f).
Proof using Hanc Hapart.
  intros Hr HF0 Hps HI.
  assert (∀ p, ¬ td `prefix_of` p → p ∉ ps) as Hout.
  { intros p Hp Hin. destruct (Hps p Hin) as (y' & -> & _). apply Hp. by apply prefix_app_r. }
  split.
  - rewrite make_dirs_lookup. case_decide; [done|apply HI].
  - intros p Hp. rewrite make_dirs_lookup, decide_False by (by apply Hout).
    destruct (inv_outside _ _ _ _ _ _ HI p Hp) as [?|(? & x' & ? & -> & Hf & Hb)];
      [by left|right].
    split; [done|]. exists x'. repeat split; try done.
    rewrite make_dirs_lookup. case_decide as Hin; [|done].
    destruct (Hps _ Hin) as (? & _ & _ & _ & Hnone).
    unfold is_file in Hf. rewrite <- Hb, Hnone in Hf. done.
  - intros x' nd Hx'. rewrite make_dirs_lookup. case_decide as Hin.
    + intros [= <-]. split; [|done].
      destruct (Hps _ Hin) as (y' & Heq & Hy' & Hpre & _).
      apply app_inv_head in Heq as ->.
      apply (Hanc (r0 ++ [x])); [done|done| |].
      * apply elem_of_prefixes. split; [done|]. by apply prefix_app_r.
      * intros ->. by apply prefix_snoc_not in Hpre.
    + intros Hb. destruct (inv_backup _ _ _ _ _ _ HI x' nd Hx' Hb) as [? Hd].
      split; [done|]. intros Hnd.
      rewrite make_dirs_lookup, decide_False by apply Hout, inst_not_under. by apply Hd.
  - intros r' Hr'. rewrite make_dirs_lookup, decide_False by apply Hout, inst_not_under.
    by apply (inv_locked _ _ _ _ _ _ HI).
Qed.

(** A member deleted after its backup was made keeps the invariant. *)
Lemma group_inv_deleted (f : FS) (r : path) (c : content) :
  r ∈ rels →
  fs w !! (inst ++ r) = Some (File c) →
  (∃ h, env h (CRemove (inst ++ r)) = false) →
  Inv f → Inv (delete (inst ++ r) (<[td ++ r := File c]> f)).
Proof using Hmem Hapart.
  intros Hr HF0 Hunlocked HI. destruct (Hmem r Hr) as [Hrne _]. split.
  - rewrite lookup_delete_ne by apply inst_ne_td.
    rewrite lookup_insert_ne by (by apply app_ne_self). apply HI.
  - intros p Hp. destruct (decide (p = inst ++ r)) as [->|Hne].
    + right. split; [apply lookup_delete_eq|]. exists r. unfold is_file. rewrite HF0.
      repeat split; try done.
      rewrite lookup_delete_ne by apply inst_td_ne. apply lookup_insert_eq.
    + rewrite lookup_delete_ne by done.
      rewrite lookup_insert_ne by (intros <-; apply Hp; by apply prefix_app_r).
      destruct (inv_outside _ _ _ _ _ _ HI p Hp) as [?|(? & x' & ? & -> & Hf & Hb)];
        [by left|right].
      split; [done|]. exists x'. repeat split; try done.
      rewrite lookup_delete_ne by apply inst_td_ne.
      rewrite lookup_insert_ne; [done|]. intros Heq. apply app_inv_head in Heq. congruence.
  - intros x' nd Hx'. rewrite lookup_delete_ne by apply inst_td_ne.
    destruct (decide (x' = r)) as [->|Hne].
    + rewrite lookup_insert_eq. intros [= <-]. split; [done|]. intros _. apply lookup_delete_eq.
    + rewrite lookup_insert_ne by (intros Heq; apply app_inv_head in Heq; congruence).
      intros Hb. destruct (inv_backup _ _ _ _ _ _ HI x' nd Hx' Hb) as [? Hd].
      split; [done|]. intros Hnd.
      rewrite lookup_delete_ne by (intros Heq; apply app_inv_head in Heq; congruence).
      rewrite lookup_insert_ne by (apply not_eq_sym, inst_td_ne). by apply Hd.
  - intros r' Hlocked. destruct (decide (r' = r)) as [->|Hne].
    + destruct Hunlocked as [h Hh]. by rewrite Hlocked in Hh.
    + rewrite lookup_delete_ne by (intros Heq; apply app_inv_head in Heq; congruence).
      rewrite lookup_insert_ne by (apply not_eq_sym, inst_td_ne).
      by apply (inv_locked _ _ _ _ _ _ HI).
Qed.

Lemma group_each_spec (rest : list path) (w1 : World) :
  (∀ r, r ∈ rest → r ∈ rels) →
  Inv (fs w1) →
  ∃ w2 res,
    group_each env td inst rest numTries iv w1 = (w2, res) ∧
    pending w2 = pending w1 ∧
    ((res = Ok tt ∧ Inv (fs w2) ∧
      (∀ r, r ∈ rest → fs w2 !! (inst ++ r) = None) ∧
      (∀ x, fs w1 !! (inst ++ x) = None → fs w2 !! (inst ++ x) = None)) ∨
     (res = Raise (RetriableFailure MoveToTempFailed) ∧ fs w2 !! td = Some Dir ∧
      ∀ p, ¬ td `prefix_of` p → fs w2 !! p = fs w !! p)).
Proof using Henv Hmem Hanc Hapart.
  revert w1. induction rest as [|r rest IH]; intros w1 Hsub HI.
  - exists w1, (Ok tt). split; [done|]. split; [done|]. left.
    split; [done|]. split; [done|]. split; [|done]. by intros r ?%elem_of_nil.
  - assert (r ∈ rels) as Hr by (apply Hsub; by left).
    assert (∀ r', r' ∈ rest → r' ∈ rels) as Hsub' by (intros; apply Hsub; by right).
    destruct (Hmem r Hr) as [Hrne Hnotdir].
    destruct (fs w1 !! (inst ++ r)) as [nd|] eqn:Hcur.
    + (* the member exists *)
      assert (fs w !! (inst ++ r) = Some nd) as HF0.
      { destruct (inv_outside _ _ _ _ _ _ HI _ (inst_not_under r)) as [<-|[? _]]; congruence. }
      destruct nd as [c|]; [|done].
      destruct r as [|x r0 _] using rev_ind; [done|].
      cbn [group_each]. unfold bind at 1, os_path_exists, query. unfold exists_ at 1 2.
      rewrite Hcur. cbn [negb].
      rewrite (app_assoc td), dirname_snoc.
      destruct (mkdir_plan_under (fs w1) td r0) as (ps & Hplan & Hps); [apply HI| |].
      { intros y' nd Hy' Hpre Hb.
        destruct (inv_backup _ _ _ _ _ _ HI y' nd Hy' Hb) as [HF _].
        rewrite (Hanc (r0 ++ [x]) y') in HF; [congruence|done|by eexists| |].
        - apply elem_of_prefixes. split; [done|by apply prefix_app_r].
        - intros ->. by apply prefix_snoc_not in Hpre. }
      unfold bind at 1, mkdir_parents, syscall. wsimpl.
      unfold makedirs_possible, makedirs_effect. rewrite Hplan.
      rewrite (env_false _ (CMakedirs _)) by done. cbn [andb negb].
      pose proof (group_inv_make_dirs _ r0 x ps Hr ltac:(by eexists) Hps HI) as HI1.
      set (f1 := make_dirs ps (fs w1)) in *.
      assert (f1 !! (inst ++ r0 ++ [x]) = Some (File c)) as Hcur1.
      { subst f1. rewrite make_dirs_lookup, decide_False; [done|].
        intros Hin. destruct (Hps _ Hin) as (? & Heq & _). by apply inst_td_ne in Heq. }
      assert (f1 !! (td ++ r0 ++ [x]) = None) as Hnew.
      { destruct (f1 !! (td ++ r0 ++ [x])) as [nd|] eqn:Hb; [|done].
        destruct (inv_backup _ _ _ _ _ _ HI1 _ nd Hrne Hb) as [HF Hd].
        rewrite HF0 in HF. injection HF as <-. rewrite Hd in Hcur1; done. }
      unfold bind at 1, shutil_copyfile, syscall. wsimpl. rewrite <- (app_assoc td).
      unfold is_file at 1, is_dir at 1. rewrite Hcur1, Hnew.
      rewrite (env_false _ (CCopyfile _ _)) by done. cbn [andb negb].
      unfold copy_effect. rewrite Hcur1.
      unfold bind at 1.
      match goal with |- context [group_remove_attempts env ?n ?k ?i ?p ?ww] =>
        destruct (group_remove_attempts_spec env n k i p ww) as (w3 & b & -> & Hp3 & Ht & Hf)
      end.
      cbn [fs pending record set_fs] in Hp3, Ht, Hf.
      destruct b.
      * (* deleted: on to the next member *)
        destruct (Ht eq_refl) as [Hfs3 Hunlocked].
        destruct (IH w3 Hsub') as (w2 & res & -> & Hp2 & Hres).
        { rewrite Hfs3. by apply group_inv_deleted. }
        exists w2, res. split; [done|]. split; [congruence|].
        destruct Hres as [(-> & HI2 & Hgone & Hmono)|?]; [left|by right].
        assert (∀ y, fs w1 !! (inst ++ y) = None → fs w2 !! (inst ++ y) = None) as Hmono'.
        { intros y Hy. apply Hmono. rewrite Hfs3.
          destruct (decide (inst ++ y = inst ++ r0 ++ [x])) as [->|?];
            [apply lookup_delete_eq|].
          rewrite lookup_delete_ne by done.
          rewrite lookup_insert_ne by (apply not_eq_sym, inst_td_ne).
          subst f1. rewrite make_dirs_lookup, decide_False; [done|].
          intros Hin. destruct (Hps _ Hin) as (? & Heq & _). by apply inst_td_ne in Heq. }
        split; [done|]. split; [done|]. split; [|done].
        intros r' [->|Hr']%elem_of_cons; [|by apply Hgone].
        apply Hmono. rewrite Hfs3. apply lookup_delete_eq.
      * (* every attempt failed: remove the backup, restore, raise *)
        specialize (Hf eq_refl).
        unfold bind at 1, os_remove, syscall. rewrite Hf.
        unfold is_file at 1. rewrite lookup_insert_eq.
        rewrite (env_false _ (CRemove (td ++ _)))
          by (intros r' [=Heq]; symmetry in Heq; by apply inst_td_ne in Heq).
        cbn [andb negb].
        rewrite delete_insert_eq, delete_id by done.
        unfold bind at 1, _revertGroupDelete. wsimpl.
        destruct (revert_each_spec (descendants f1 td)
                    (record (CRemove (td ++ r0 ++ [x])) true (set_fs f1 w3)))
          as (w5 & -> & Hp5 & Htd5 & Hout5).
        { done. }
        { apply NoDup_descendants. }
        { intros k [Hk _]%elem_of_descendants. by apply strictly_under_spec. }
        { intros y c' Hy Hb. cbn [fs record set_fs] in Hb. apply elem_of_descendants. split; [|by eexists].
          apply strictly_under_spec. by exists y. }
        eexists _, _. split; [reflexivity|]. cbn [pending record set_fs] in Hp5. split; [congruence|].
        right. by repeat split.
    + (* the member does not exist: skipped *)
      rewrite group_each_skip by done.
      destruct (IH (record (CExists (inst ++ r)) false w1) Hsub' HI)
        as (w2 & res & -> & Hp2 & Hres).
      exists w2, res. split; [done|]. split; [done|].
      destruct Hres as [(-> & HI2 & Hgone & Hmono)|?]; [left|by right].
      split; [done|]. split; [done|]. split; [|done].
      intros r' [->|Hr']%elem_of_cons; [by apply Hmono|by apply Hgone].
Qed.

(** C1 as amended.  Take a group whose members are files (or absent) lying
    in directories of the install directory, a scratch directory apart from
    the install directory, and an environment in which nothing fails but
    deletions of group members.  Then [_deleteFileGroupOrFail] ends in one
    of two states: it returns normally and every member is gone, nothing
    else having changed; or it raises [RetriableFailure] and the file system
    is exactly what it was before the call.  In both the scratch directory
    is gone.  A member that exists and can never be deleted forces the
    second state. *)
Theorem group_delete_all_or_nothing :
  ∃ w' res,
    _deleteFileGroupOrFail env tempRoot inst rels numTries iv w = (w', res) ∧
    pending w' = pending w ∧
    fs w' !! td = None ∧
    ((res = Ok tt ∧ fs w' = delete_all (map (app inst) rels) (fs w)) ∨
     (res = Raise (RetriableFailure MoveToTempFailed) ∧ fs w' = fs w)) ∧
    (∀ r0, r0 ∈ rels → is_Some (fs w !! (inst ++ r0)) →
           (∀ h, env h (CRemove (inst ++ r0)) = true) →
           res = Raise (RetriableFailure MoveToTempFailed)).
Proof using Henv Hmem Hanc Hapart.
  unfold _deleteFileGroupOrFail. unfold bind at 1, tempfile_mkdtemp. fold td.
  unfold finally.
  destruct (group_each_spec rels (record (CMkdtemp td) true (set_fs (<[td := Dir]> (fs w)) w)))
    as (w2 & res & -> & Hp2 & Hres); [done|apply group_inv_init|].
  cbn [pending record set_fs] in Hp2.
  assert (fs w2 !! td = Some Dir) as Htd2.
  { destruct Hres as [(_ & HI2 & _)|(_ & ? & _)]; [apply HI2|done]. }
  unfold except_OSError, shutil_rmtree, syscall. unfold is_dir. rewrite Htd2.
  rewrite (env_false _ (CRmtree _)) by done. cbn [andb negb].
  eexists _, _. split; [reflexivity|]. wsimpl. split; [done|].
  split; [by rewrite remove_subtree_lookup, under_refl|].
  destruct Hres as [(-> & HI2 & Hgone & _)|(-> & _ & Hout)].
  - split.
    + left. split; [done|]. apply map_eq. intros k.
      rewrite remove_subtree_lookup, delete_all_lookup. unfold under.
      case_bool_decide as Hk.
      * destruct Hk as [x ->]. rewrite td_fresh. by case_decide.
      * case_decide as Hin.
        -- apply list_elem_of_fmap in Hin as (r & -> & Hr). by apply Hgone.
        -- destruct (inv_outside _ _ _ _ _ _ HI2 k Hk) as [?|(_ & x & Hx & -> & _)]; [done|].
           destruct Hin. apply list_elem_of_fmap. by exists x.
    + intros r0 Hr0 [nd Hnd] Hlocked.
      pose proof (inv_locked _ _ _ _ _ _ HI2 r0 Hlocked) as Heq.
      rewrite (Hgone r0 Hr0), Hnd in Heq. done.
  - split; [|done]. right. split; [done|]. apply map_eq. intros k.
    rewrite remove_subtree_lookup. unfold under. case_bool_decide as Hk.
    + destruct Hk as [x ->]. by rewrite td_fresh.
    + by apply Hout.
Qed.

End AllOrNothing.

Lemma group_delete_all_or_nothing_witness :
  let rels := [["nvda.exe"]; ["lib"; "2024.4"; "old.dll"]; ["nvda_slave.exe"];
               ["nvda_service.exe"]] in
  let env := env_locked (installDir0 ++ ["nvda_slave.exe"]) in
  ∃ w' res,
    _deleteFileGroupOrFail env tempRoot0 installDir0 rels 6 500 world0 = (w', res) ∧
    pending w' = pending world0 ∧
    fs w' !! scratchDir tempRoot0 world0 = None ∧
    ((res = Ok tt ∧ fs w' = delete_all (map (app installDir0) rels) (fs world0)) ∨
     (res = Raise (RetriableFailure MoveToTempFailed) ∧ fs w' = fs world0)) ∧
    (∀ r0, r0 ∈ rels → is_Some (fs world0 !! (installDir0 ++ r0)) →
           (∀ h, env h (CRemove (installDir0 ++ r0)) = true) →
           res = Raise (RetriableFailure MoveToTempFailed)).
Proof.
  apply (group_delete_all_or_nothing (env_locked (installDir0 ++ ["nvda_slave.exe"]))
           tempRoot0 installDir0
           [["nvda.exe"]; ["lib"; "2024.4"; "old.dll"]; ["nvda_slave.exe"];
            ["nvda_service.exe"]] 6 500 world0).
  - intros h c Hc. apply bool_decide_eq_true in Hc. exists ["nvda_slave.exe"].
    split; [|done]. do 2 right. by left.
  - intros r Hr.
    repeat (apply elem_of_cons in Hr as [->|Hr]; [split; [done|vm_compute; done]|]).
    by apply elem_of_nil in Hr.
  - intros r q Hr _ Hq Hne.
    repeat (apply elem_of_cons in Hr as [->|Hr];
            [cbn in Hq;
             repeat (apply elem_of_cons in Hq as [->|Hq]; [done || (vm_compute; done)|]);
             by apply elem_of_nil in Hq|]).
    by apply elem_of_nil in Hr.
  - apply (bool_decide_unpack _). vm_compute. exact I.
Defined.

(** C1, counterexample.  One member cannot be deleted and renaming back
    fails: the call reports failure with the first member gone and the
    second still there, neither of the two states. *)
Lemma group_delete_partial_state_counterexample :
  let nvda := installDir0 ++ ["nvda.exe"] in
  let slave := installDir0 ++ ["nvda_slave.exe"] in
  let run := _deleteFileGroupOrFail (env_locked_no_restore slave) tempRoot0 installDir0
               [["nvda.exe"]; ["nvda_slave.exe"]] 6 500 world0 in
  fs world0 !! nvda = Some (File "nvda 2024") ∧
  fs world0 !! slave = Some (File "slave 2024") ∧
  run.2 = Raise (RetriableFailure MoveToTempFailed) ∧
  fs run.1 !! nvda = None ∧
  fs run.1 !! slave = Some (File "slave 2024").
Proof. vm_compute. repeat split. Qed.

(** The same loss without any failed renaming: the backup copy of the
    second member cannot be made, [OSError] leaves the function, and the
    first member, already deleted, is not restored. *)
Lemma group_delete_copy_failure_example :
  let nvda := installDir0 ++ ["nvda.exe"] in
  let slave := installDir0 ++ ["nvda_slave.exe"] in
  let run := _deleteFileGroupOrFail (env_locked_unreadable slave slave) tempRoot0 installDir0
               [["nvda.exe"]; ["nvda_slave.exe"]] 6 500 world0 in
  run.2 = Raise OSError ∧
  fs run.1 !! nvda = None ∧
  fs run.1 !! slave = Some (File "slave 2024") ∧
  calls_of is_Replace (trace run.1) = 0.
Proof. vm_compute. repeat split. Qed.

(** ** Failed restores are not reported *)

Lemma syscall_trace env c pre eff w w' r :
  (∀ w0, trace (eff w0) = trace w0) →
  syscall env c pre eff w = (w', r) →
  ∃ b, trace w' = Ev c b :: trace w.
Proof.
  intros Heff. unfold syscall.
  destruct (pre (fs w) && negb (env (trace w) c)); intros [= <- <-]; eexists; wsimpl;
    by rewrite ?Heff.
Qed.

Lemma revert_each_total env td inst l w :
  ∃ w', revert_each env td inst l w = (w', Ok tt).
Proof.
  revert w. induction l as [|k l IH]; intros w; [by exists w|].
  cbn [revert_each]. unfold bind at 1. rewrite except_replace_run.
  match goal with |- context [if ?b then _ else _] => destruct b end; apply IH.
Qed.

Lemma group_remove_attempts_replaces env n count iv p w w' r :
  group_remove_attempts env n count iv p w = (w', r) →
  calls_of is_Replace (trace w') = calls_of is_Replace (trace w).
Proof.
  revert count w. induction n as [|n IH]; intros count w.
  - by intros [= <- <-].
  - rewrite group_remove_attempts_S. cbv zeta.
    set (w1 := if 1 <? count then _ else _).
    assert (calls_of is_Replace (trace w1) = calls_of is_Replace (trace w)) as Hw1.
    { subst w1. destruct (1 <? count); [|done]. wsimpl. by rewrite calls_of_cons. }
    destruct (is_file (fs w1) p && negb (env (trace w1) (CRemove p))).
    + intros [= <- <-]. wsimpl. by rewrite calls_of_cons.
    + intros Hrun%IH. rewrite Hrun. wsimpl. by rewrite calls_of_cons.
Qed.

(** Unless [group_each] raises [RetriableFailure], it has renamed nothing. *)
Lemma group_each_replaces env td inst rels n iv w w' r :
  group_each env td inst rels n iv w = (w', r) →
  r = Raise (RetriableFailure MoveToTempFailed) ∨
  calls_of is_Replace (trace w') = calls_of is_Replace (trace w).
Proof.
  revert w. induction rels as [|rel rest IH]; intros w.
  - intros [= <- <-]. by right.
  - cbn [group_each]. unfold bind at 1, os_path_exists, query.
    destruct (exists_ (fs w) (inst ++ rel)); cbn [negb].
    2:{ intros [?|Hrun]%IH; [by left|right]. rewrite Hrun. wsimpl. by rewrite calls_of_cons. }
    unfold bind at 1.
    destruct (mkdir_parents env (dirname (td ++ rel)) _) as [w1 [[]|e]] eqn:Hmk.
    2:{ apply syscall_trace in Hmk as [b Hb]; [|done].
        intros [= <- <-]. right. rewrite Hb. wsimpl. by rewrite !calls_of_cons. }
    apply syscall_trace in Hmk as [b1 Hb1]; [|done]. wsimpl in Hb1.
    unfold bind at 1.
    destruct (shutil_copyfile env (inst ++ rel) (td ++ rel) w1) as [w2 [[]|e]] eqn:Hcp.
    2:{ apply syscall_trace in Hcp as [b Hb]; [|done].
        intros [= <- <-]. right. rewrite Hb, Hb1. by rewrite !calls_of_cons. }
    apply syscall_trace in Hcp as [b2 Hb2]; [|done].
    unfold bind at 1.
    destruct (group_remove_attempts env _ _ _ _ w2) as [w3 [b|e]] eqn:Hrm.
    2:{ apply group_remove_attempts_replaces in Hrm.
        intros [= <- <-]. right. rewrite Hrm, Hb2, Hb1. by rewrite !calls_of_cons. }
    apply group_remove_attempts_replaces in Hrm.
    destruct b.
    + intros [?|Hrun]%IH; [by left|right].
      rewrite Hrun, Hrm, Hb2, Hb1. by rewrite !calls_of_cons.
    + unfold bind at 1.
      destruct (os_remove env (td ++ rel) w3) as [w4 [[]|e]] eqn:Hrb.
      2:{ apply syscall_trace in Hrb as [b Hb]; [|done].
          intros [= <- <-]. right. rewrite Hb, calls_of_cons, Hrm, Hb2, Hb1.
          by rewrite !calls_of_cons. }
      unfold bind at 1, _revertGroupDelete.
      destruct (revert_each_total env td inst (descendants (fs w4) td) w4) as [w5 ->].
      unfold raise. intros [= <- <-]. by left.
Qed.

(** C2 as amended.  A restore that fails is swallowed: [_revertGroupDelete]
    never raises, and a group deletion in which a file was renamed back,
    with or without success, raises [RetriableFailure], the exception of
    every failed group deletion.  The result carries no trace of a failed
    restore. *)
Theorem failed_restore_not_distinguished env tempRoot inst rels n iv w :
  (∀ td w1, ∃ w2, _revertGroupDelete env td inst w1 = (w2, Ok tt)) ∧
  (∀ w' res evs s d restored,
     _deleteFileGroupOrFail env tempRoot inst rels n iv w = (w', res) →
     trace w' = evs ++ trace w →
     Ev (CReplace s d) restored ∈ evs →
     res = Raise (RetriableFailure MoveToTempFailed)).
Proof.
  split.
  { intros td w1. apply revert_each_total. }
  intros w' res evs s d restored Hrun Htrace Hin.
  unfold _deleteFileGroupOrFail in Hrun. unfold bind at 1, tempfile_mkdtemp in Hrun.
  unfold finally in Hrun.
  destruct (group_each env _ inst rels n iv _) as [w2 r2] eqn:Hgroup.
  apply group_each_replaces in Hgroup. wsimpl in Hgroup.
  rewrite calls_of_cons in Hgroup. cbn in Hgroup.
  assert (res = r2 ∧ calls_of is_Replace (trace w') = calls_of is_Replace (trace w2))
    as [-> Hlast].
  { unfold except_OSError, shutil_rmtree, syscall, ret in Hrun.
    destruct (is_dir (fs w2) _ && negb (env (trace w2) _)); injection Hrun as <- <-;
      wsimpl; by rewrite calls_of_cons. }
  destruct Hgroup as [?|Hsame]; [done|]. exfalso.
  rewrite Hsame, Htrace, calls_of_app in Hlast.
  assert (0 < calls_of is_Replace evs); [|lia].
  apply list_elem_of_split in Hin as (l1 & l2 & ->).
  rewrite calls_of_app, calls_of_cons. cbn. lia.
Qed.

Lemma failed_restore_not_distinguished_witness :
  let slave := installDir0 ++ ["nvda_slave.exe"] in
  let backup := scratchDir tempRoot0 world0 ++ ["nvda.exe"] in
  let run := _deleteFileGroupOrFail (env_locked_no_restore slave) tempRoot0 installDir0
               [["nvda.exe"]; ["nvda_slave.exe"]] 6 500 world0 in
  Ev (CReplace backup (installDir0 ++ ["nvda.exe"])) false ∈ trace run.1 ∧
  run.2 = Raise (RetriableFailure MoveToTempFailed).
Proof.
  intros slave backup run.
  assert (Ev (CReplace backup (installDir0 ++ ["nvda.exe"])) false ∈ trace run.1) as Hin.
  { apply (bool_decide_unpack _). vm_compute. exact I. }
  split; [exact Hin|].
  apply (proj2 (failed_restore_not_distinguished (env_locked_no_restore slave) tempRoot0
                  installDir0 [["nvda.exe"]; ["nvda_slave.exe"]] 6 500 world0)
           run.1 run.2 (trace run.1) backup (installDir0 ++ ["nvda.exe"]) false).
  - apply surjective_pairing.
  - symmetry. apply app_nil_r.
  - exact Hin.
Defined.

(** C2, counterexample.  The same group deletion, once with the restore
    going through and once with the restore failing and the first member
    lost: the two calls report the same [RetriableFailure]. *)
Lemma failed_restore_same_result_counterexample :
  let nvda := installDir0 ++ ["nvda.exe"] in
  let slave := installDir0 ++ ["nvda_slave.exe"] in
  let backup := scratchDir tempRoot0 world0 ++ ["nvda.exe"] in
  let rolled_back := _deleteFileGroupOrFail (env_locked slave) tempRoot0 installDir0
                       [["nvda.exe"]; ["nvda_slave.exe"]] 6 500 world0 in
  let inconsistent := _deleteFileGroupOrFail (env_locked_no_restore slave) tempRoot0
                        installDir0 [["nvda.exe"]; ["nvda_slave.exe"]] 6 500 world0 in
  Ev (CReplace backup nvda) true ∈ trace rolled_back.1 ∧
  fs rolled_back.1 !! nvda = Some (File "nvda 2024") ∧
  Ev (CReplace backup nvda) false ∈ trace inconsistent.1 ∧
  fs inconsistent.1 !! nvda = None ∧
  rolled_back.2 = Raise (RetriableFailure MoveToTempFailed) ∧
  inconsistent.2 = Raise (RetriableFailure MoveToTempFailed) ∧
  rolled_back.2 = inconsistent.2.
Proof.
  cbv zeta. split; [apply (bool_decide_unpack _); vm_compute; exact I|].
  split; [vm_compute; reflexivity|].
  split; [apply (bool_decide_unpack _); vm_compute; exact I|].
  vm_compute. repeat split.
Qed.

(** ** Composing runs *)

#[global] Instance emits_preorder P : PreOrder (emits P).
Proof.
  split.
  - intros w. by exists [].
  - intros w1 w2 w3 (e1 & H1 & F1) (e2 & H2 & F2). exists (e2 ++ e1).
    split; [by rewrite H2, H1, app_assoc|by apply Forall_app].
Qed.

#[global] Instance same_file_preorder p : PreOrder (same_file p).
Proof.
  split.
  - by intros w c.
  - intros w1 w2 w3 H1 H2 c. specialize (H1 c). specialize (H2 c). tauto.
Qed.

Section Steps.

Context (R : relation World) `{!PreOrder R}.

Lemma steps_ret {A} (Q : A → Prop) (a : A) : Q a → steps R Q (ret a).
Proof. intros Ha w w' r [= <- <-]. split; [done|]. by intros ? [= <-]. Qed.

Lemma steps_raise {A} (Q : A → Prop) (e : Exc) : steps R Q (raise e).
Proof. intros w w' r [= <- <-]. by split. Qed.

Lemma steps_bind {A B} (Q : A → Prop) (Q' : B → Prop) (m : M A) (k : A → M B) :
  steps R Q m → (∀ a, Q a → steps R Q' (k a)) → steps R Q' (bind m k).
Proof.
  intros Hm Hk w w' r. unfold bind. destruct (m w) as [w1 [a|e]] eqn:Hrun.
  - destruct (Hm _ _ _ Hrun) as [HR HQ]. intros Hrun'.
    destruct (Hk a (HQ a eq_refl) _ _ _ Hrun') as [HR' HQ']. split; [by etrans|done].
  - destruct (Hm _ _ _ Hrun) as [HR _]. intros [= <- <-]. by split.
Qed.

Lemma steps_except_OSError {A} (Q : A → Prop) (m h : M A) :
  steps R Q m → steps R Q h → steps R Q (except_OSError m h).
Proof.
  intros Hm Hh w w' r. unfold except_OSError. destruct (m w) as [w1 [a|[]]] eqn:Hrun;
    destruct (Hm _ _ _ Hrun) as [HR HQ].
  - intros [= <- <-]. by split.
  - intros [= <- <-]. by split.
  - intros Hrun'. destruct (Hh _ _ _ Hrun') as [HR' HQ']. split; [by etrans|done].
  - intros [= <- <-]. by split.
Qed.

Lemma steps_except_RetriableFailure {A} (Q : A → Prop) (m h : M A) :
  steps R Q m → steps R Q h → steps R Q (except_RetriableFailure m h).
Proof.
  intros Hm Hh w w' r. unfold except_RetriableFailure.
  destruct (m w) as [w1 [a|[]]] eqn:Hrun; destruct (Hm _ _ _ Hrun) as [HR HQ].
  - intros [= <- <-]. by split.
  - intros Hrun'. destruct (Hh _ _ _ Hrun') as [HR' HQ']. split; [by etrans|done].
  - intros [= <- <-]. by split.
  - intros [= <- <-]. by split.
Qed.

Lemma steps_except_Exception {A} (Q : A → Prop) (m h : M A) :
  steps R Q m → steps R Q h → steps R Q (except_Exception m h).
Proof.
  intros Hm Hh w w' r. unfold except_Exception.
  destruct (m w) as [w1 [a|e]] eqn:Hrun; destruct (Hm _ _ _ Hrun) as [HR HQ].
  - intros [= <- <-]. by split.
  - intros Hrun'. destruct (Hh _ _ _ Hrun') as [HR' HQ']. split; [by etrans|done].
Qed.

Lemma steps_succeeds (m : M unit) : steps R any m → steps R any (succeeds m).
Proof.
  intros Hm. apply steps_except_OSError; [|by apply steps_ret].
  eapply steps_bind; [exact Hm|]. intros. by apply steps_ret.
Qed.

Lemma steps_if {A} (Q : A → Prop) (b : bool) (m1 m2 : M A) :
  steps R Q m1 → steps R Q m2 → steps R Q (if b then m1 else m2).
Proof. by destruct b. Qed.

Lemma steps_syscall env c pre eff :
  (∀ w, R w (record c false w)) →
  (∀ w, pre (fs w) = true → R w (record c true (eff w))) →
  steps R any (syscall env c pre eff).
Proof.
  intros Hfail Hok w w' r. unfold syscall.
  destruct (pre (fs w)) eqn:Hpre; cbn [andb]; [destruct (env _ _); cbn [negb]|];
    intros [= <- <-]; split; auto; done.
Qed.

Lemma steps_query c ans :
  (∀ w b, R w (record c b w)) → steps R any (query c ans).
Proof. intros H w w' r [= <- <-]. by split. Qed.

End Steps.

Lemma Tree_ind' (P : Tree → Prop) :
  P TFile → (∀ es, Forall (λ e, P e.2) es → P (TDir es)) → ∀ t, P t.
Proof.
  intros Hf Hd. fix IH 1. intros [|es]; [exact Hf|]. apply Hd.
  induction es as [|[n t] es IHes]; constructor; [apply IH|apply IHes].
Qed.

Lemma emits_one (P : Event → Prop) c b w w1 :
  P (Ev c b) → trace w1 = trace w → emits P w (record c b w1).
Proof. intros HP Ht. exists [Ev c b]. wsimpl. rewrite Ht. split; [done|]. by constructor. Qed.

Lemma lower_tmp (s : string) : lower ("tmp" +:+ s) ≠ "nvda.exe".
Proof. done. Qed.

Lemma relpath_app (base rel : path) : relpath (base ++ rel) base = rel.
Proof. unfold relpath. apply drop_app_length. Qed.

Section CopyWalk.

Context (env : Oracle) (appDir destPath : path).

Local Abbreviation R := (emits (walk_event appDir destPath)).

Lemma tryCopyFile_walk_events (rel : path) (f : string) :
  top_allowed rel →
  (rel = [] → lower f ≠ "nvda.exe") →
  steps R any (tryCopyFile env (appDir ++ rel ++ [f]) (destPath ++ rel ++ [f])).
Proof.
  intros Hrel Hf.
  assert (∀ b, walk_event appDir destPath
                 (Ev (CCopyFileW (appDir ++ rel ++ [f]) (destPath ++ rel ++ [f])) b)) as Hcopy.
  { intros b. exists rel. split; [done|]. by exists f. }
  assert (∀ c b, (∀ p, p ∈ touched c →
                       ∃ x, p = destPath ++ rel ++ [x] ∧ (rel = [] → lower x ≠ "nvda.exe")) →
                 match c with CIsdir _ | CMakedirs _ | CCopyFileW _ _ => False | _ => True end →
                 walk_event appDir destPath (Ev c b)) as Hother.
  { intros c b Hc Hkind. exists rel. split; [done|]. by destruct c. }
  assert (steps R any (CopyFileW env (appDir ++ rel ++ [f]) (destPath ++ rel ++ [f]))) as HC.
  { apply (steps_succeeds R). apply (steps_syscall R); intros; by apply emits_one. }
  unfold tryCopyFile.
  apply (steps_bind R any); [exact HC|]. intros copied _.
  apply steps_if; [by apply (steps_ret R)|].
  apply (steps_bind R any).
  { apply (steps_query R). intros w b. apply emits_one; [|done]. apply Hother; [|done].
    intros p ->%list_elem_of_singleton. by exists f. }
  intros there _. apply steps_if; [by apply (steps_raise R)|].
  apply (steps_bind R (λ tp, ∃ x, tp = destPath ++ rel ++ [x] ∧ lower x ≠ "nvda.exe")).
  { intros w w' r [= <- <-]. rewrite (app_assoc destPath), dirname_snoc.
    unfold placeholder. wsimpl. split.
    - apply emits_one; [|done]. apply Hother; [|done]. intros p ->%list_elem_of_singleton.
      eexists. rewrite <- app_assoc. split; [done|]. intros _. apply lower_tmp.
    - intros tp [= <-]. eexists. rewrite <- app_assoc. split; [done|]. apply lower_tmp. }
  intros tp (x & -> & Hx).
  apply (steps_bind R any).
  { apply (steps_except_OSError R); [|by apply (steps_raise R)].
    apply (steps_syscall R); intros; (apply emits_one; [|done]); apply Hother; try done.
    - intros p [->|[->|[]%elem_of_nil]%elem_of_cons]%elem_of_cons; [by exists f|by exists x].
    - intros p [->|[->|[]%elem_of_nil]%elem_of_cons]%elem_of_cons; [by exists f|by exists x]. }
  intros _ _.
  apply (steps_bind R any).
  { apply (steps_syscall R); intros; (apply emits_one; [|done]); apply Hother; try done.
    - intros p ->%list_elem_of_singleton. by exists x.
    - intros p ->%list_elem_of_singleton. by exists x. }
  intros _ _.
  apply (steps_bind R any); [exact HC|]. intros copied2 _.
  apply steps_if; [by apply (steps_ret R)|by apply (steps_raise R)].
Qed.

End CopyWalk.

(** The walk of [copyProgramFiles] keeps every relation that its three
    actions keep: the test and the creation of a mirrored directory that is
    not a top-level configuration directory or below one, and the copy of a
    file of such a directory, the top-level [nvda.exe] left out. *)
Section WalkSteps.

Context (env : Oracle) (appDir destPath : path).
Context (R : relation World) `{!PreOrder R}.

Hypothesis Hisdir : ∀ rel, top_allowed rel → steps R any (os_path_isdir (destPath ++ rel)).
Hypothesis Hmakedirs : ∀ rel, top_allowed rel → steps R any (os_makedirs env (destPath ++ rel)).
Hypothesis Hcopy : ∀ rel f, top_allowed rel → (rel = [] → lower f ≠ "nvda.exe") →
  steps R any (tryCopyFile env (appDir ++ rel ++ [f]) (destPath ++ rel ++ [f])).

Lemma copyProgramFiles_files_steps (rel : path) (files : list string) :
  top_allowed rel →
  steps R any (copyProgramFiles_files env appDir destPath (appDir ++ rel) files).
Proof using Hcopy PreOrder0.
  intros Hrel. induction files as [|f files IH]; [by apply (steps_ret R)|].
  cbn [copyProgramFiles_files].
  destruct (bool_decide (appDir = appDir ++ rel) && bool_decide (lower f = "nvda.exe"))
    eqn:Hskip; [done|].
  rewrite <- (app_assoc appDir), relpath_app.
  apply (steps_bind R any); [|done].
  apply Hcopy; [done|]. intros -> Hlow.
  rewrite app_nil_r in Hskip. by rewrite !bool_decide_true in Hskip.
Qed.

Lemma top_allowed_child (rel : path) (name : string) :
  top_allowed rel → (rel = [] → is_config_name name = false) → top_allowed (rel ++ [name]).
Proof.
  intros Hrel Hname n rest Heq. destruct rel as [|n' rel'].
  - injection Heq as <- _. by apply Hname.
  - injection Heq as <- _. by eapply Hrel.
Qed.

Lemma copyProgramFiles_walk_steps (t : Tree) :
  ∀ rel detect,
    (rel = [] → detect = true) →
    top_allowed rel →
    steps R any (copyProgramFiles_walk env appDir destPath t (appDir ++ rel) detect).
Proof using Hisdir Hmakedirs Hcopy PreOrder0.
  induction t as [|entries IH] using Tree_ind'; intros rel detect Hdetect Hrel.
  - by apply (steps_ret R).
  - cbn [copyProgramFiles_walk]. rewrite relpath_app.
    apply (steps_bind R any); [by apply Hisdir|].
    intros isd _. apply (steps_bind R any).
    { apply steps_if; [by apply Hmakedirs|by apply (steps_ret R)]. }
    intros _ _. apply (steps_bind R any); [by apply copyProgramFiles_files_steps|].
    intros _ _.
    set (subDirs' := if detect then _ else _).
    assert (∀ name, name ∈ subDirs' → rel = [] → is_config_name name = false) as Hkeep.
    { intros name Hin Hnil. subst subDirs'. rewrite (Hdetect Hnil) in Hin.
      by apply list_elem_of_filter in Hin as [? _]. }
    clearbody subDirs'.
    induction IH as [|[name sub] es Hsub _ IHes]; [by apply (steps_ret R)|].
    apply (steps_bind R any); [|intros _ _; apply IHes].
    destruct (is_TDir sub && bool_decide (name ∈ subDirs')) eqn:Hdesc;
      [|by apply (steps_ret R)].
    apply andb_true_iff in Hdesc as [_ Hin%bool_decide_eq_true].
    rewrite <- (app_assoc appDir). apply Hsub.
    + by destruct rel.
    + apply top_allowed_child; [done|]. by apply Hkeep.
Qed.

Lemma copyProgramFiles_steps (appTree : Tree) :
  steps R any (copyProgramFiles env appDir appTree destPath).
Proof using Hisdir Hmakedirs Hcopy PreOrder0.
  unfold copyProgramFiles.
  pose proof (copyProgramFiles_walk_steps appTree [] true) as H.
  rewrite app_nil_r in H. by apply H.
Qed.

End WalkSteps.

(** The events of [copyProgramFiles]. *)
Lemma copyProgramFiles_events env appDir destPath (appTree : Tree) :
  steps (emits (walk_event appDir destPath)) any
        (copyProgramFiles env appDir appTree destPath).
Proof.
  set (R := emits (walk_event appDir destPath)).
  assert (∀ rel c b, top_allowed rel →
            match c with CIsdir p | CMakedirs p => p = destPath ++ rel | _ => False end →
            walk_event appDir destPath (Ev c b)) as Hdir.
  { intros rel c b Hrel Hc. exists rel. split; [done|]. by destruct c. }
  apply (copyProgramFiles_steps env appDir destPath R).
  - intros rel Hrel. apply (steps_query R). intros w b. by apply emits_one; [eapply Hdir|].
  - intros rel Hrel. apply (steps_syscall R); intros; by apply emits_one; [eapply Hdir|].
  - intros rel f Hrel Hf. by apply tryCopyFile_walk_events.
Qed.

Lemma emits_mono (P Q : Event → Prop) w w' :
  (∀ e, P e → Q e) → emits P w w' → emits Q w w'.
Proof.
  intros HPQ (evs & Ht & HP). exists evs. split; [done|]. eapply Forall_impl; eauto.
Qed.

Lemma steps_emits_mono {A} (P Q : Event → Prop) (m : M A) :
  (∀ e, P e → Q e) → steps (emits P) any m → steps (emits Q) any m.
Proof.
  intros HPQ Hm w w' r Hrun. destruct (Hm _ _ _ Hrun) as [He _].
  split; [by eapply emits_mono|done].
Qed.

Lemma tryRemoveFile_attempts_entry_events env n iv (parent : path) (x : string) :
  steps (emits (entry_event parent)) any (tryRemoveFile_attempts env n iv (parent ++ [x])).
Proof.
  set (R := emits (entry_event parent)).
  assert (∀ c b, touched c = [parent ++ [x]] → (∀ p, c ≠ CRmdir p) →
                 entry_event parent (Ev c b)) as Hev.
  { intros c b Hc Hk. split; [|done]. cbn [call]. rewrite Hc.
    intros p ->%list_elem_of_singleton. by exists x. }
  induction n as [|n IH]; [by apply (steps_ret R)|].
  cbn [tryRemoveFile_attempts].
  apply (steps_bind R any).
  { apply (steps_query R). intros w b. by apply emits_one; [apply Hev|]. }
  intros isd _. apply (steps_bind R any).
  { apply (steps_succeeds R). apply steps_if; apply (steps_syscall R); intros;
      by apply emits_one; [apply Hev|]. }
  intros deleted _. apply steps_if; [by apply (steps_ret R)|].
  apply (steps_bind R any); [|done].
  intros w w' r [= <- <-]. split; [|done]. apply emits_one; [|done].
  split; [|done]. by intros p ?%elem_of_nil.
Qed.

Lemma tryRemoveFile_entry_events env (parent : path) (f : string) n iv rebootOK :
  steps (emits (entry_event parent)) any (tryRemoveFile env (parent ++ [f]) n iv rebootOK).
Proof.
  set (R := emits (entry_event parent)).
  assert (∀ c b, (∀ p, p ∈ touched c → ∃ x, p = parent ++ [x]) → (∀ p, c ≠ CRmdir p) →
                 entry_event parent (Ev c b)) as Hev.
  { intros c b Hc Hk. by split. }
  unfold tryRemoveFile. rewrite dirname_snoc.
  apply (steps_bind R (λ tp, ∃ x, tp = parent ++ [x])).
  { intros w w' r [= <- <-]. unfold placeholder. split.
    - apply emits_one; [|done]. apply Hev; [|done].
      intros p ->%list_elem_of_singleton. by eexists.
    - intros tp [= <-]. by eexists. }
  intros tp [x ->].
  assert (∀ s d, s ∈ [parent ++ [f]; parent ++ [x]] → d ∈ [parent ++ [f]; parent ++ [x]] →
                 steps R any (os_replace env s d)) as Hreplace.
  { intros s d Hs Hd. apply (steps_syscall R); intros; (apply emits_one; [|done]);
      (apply Hev; [|done]); intros p [->|[->|[]%elem_of_nil]%elem_of_cons]%elem_of_cons.
    all: match goal with
         | H : ?q ∈ _ |- ∃ _, ?q = _ =>
             apply elem_of_cons in H as [->|[->|[]%elem_of_nil]%elem_of_cons]; by eexists
         end. }
  apply (steps_bind R any).
  { apply (steps_except_OSError R); [|by apply (steps_raise R)].
    apply Hreplace; [by left|right; by left]. }
  intros _ _. apply (steps_bind R any); [apply tryRemoveFile_attempts_entry_events|].
  intros deleted _. apply steps_if; [by apply (steps_ret R)|].
  apply (steps_bind R any).
  { apply steps_if; [|by apply (steps_ret R)]. apply (steps_succeeds R).
    apply (steps_syscall R); intros; (apply emits_one; [|done]); (apply Hev; [|done]);
      intros p ->%list_elem_of_singleton; by eexists. }
  intros marked _. apply steps_if; [by apply (steps_ret R)|].
  apply (steps_bind R any); [|intros; by apply (steps_raise R)].
  apply (steps_except_Exception R); [|by apply (steps_ret R)].
  apply Hreplace; [right; by left|by left].
Qed.

Section LibWalk.

Context (env : Oracle) (destPath : path) (version topDir : string) (rebootOK : bool).

Local Abbreviation cur := (destPath ++ [topDir; version]).
Local Abbreviation R := (emits (lib_walk_event destPath topDir version)).

Lemma lib_parent (rel : path) (x : string) :
  (destPath ++ topDir :: rel) ++ [x] = destPath ++ topDir :: rel ++ [x].
Proof. by rewrite <- app_assoc. Qed.

Lemma removeOldLibFiles_dirs_events (rel : path) (subdirs : list string) :
  rel ≠ [version] →
  steps R any (removeOldLibFiles_dirs env cur (destPath ++ topDir :: rel) subdirs).
Proof.
  intros Hrel. induction subdirs as [|d subdirs IH]; [by apply (steps_ret R)|].
  cbn [removeOldLibFiles_dirs]. apply (steps_bind R any); [|done].
  case_bool_decide as Hne; [|by apply (steps_ret R)].
  apply (steps_except_OSError R); [|by apply (steps_ret R)].
  assert (∀ b, lib_walk_event destPath topDir version
                 (Ev (CRmdir ((destPath ++ topDir :: rel) ++ [d])) b)) as Hev.
  { intros b p ->%list_elem_of_singleton. exists rel, d.
    split; [apply lib_parent|]. split; [done|]. intros _ Heq. apply Hne.
    by rewrite lib_parent, Heq. }
  apply (steps_syscall R); intros; by apply emits_one.
Qed.

Lemma removeOldLibFiles_files_events (rel : path) (files : list string) :
  rel ≠ [version] →
  steps R any (removeOldLibFiles_files env (destPath ++ topDir :: rel) files rebootOK).
Proof.
  intros Hrel. induction files as [|f files IH]; [by apply (steps_ret R)|].
  cbn [removeOldLibFiles_files]. apply (steps_bind R any); [|done].
  apply (steps_except_RetriableFailure R); [|by apply (steps_ret R)].
  eapply steps_emits_mono; [|apply tryRemoveFile_entry_events].
  intros e [Hpaths Hkind] p Hp. destruct (Hpaths p Hp) as [x ->].
  exists rel, x. split; [apply lib_parent|]. split; [done|]. intros Hc. by apply Hkind in Hc.
Qed.

Lemma removeOldLibFiles_walk_events (t : Tree) :
  ∀ rel, steps R any (removeOldLibFiles_walk env cur rebootOK t (destPath ++ topDir :: rel)).
Proof.
  induction t as [|entries IH] using Tree_ind'; intros rel.
  - by apply (steps_ret R).
  - cbn [removeOldLibFiles_walk]. apply (steps_bind R any).
    + induction IH as [|[name sub] es Hsub _ IHes]; [by apply (steps_ret R)|].
      apply (steps_bind R any); [|intros _ _; apply IHes].
      rewrite <- app_assoc. apply (Hsub (rel ++ [name])).
    + intros _ _. case_bool_decide as Hcur; [by apply (steps_ret R)|].
      assert (rel ≠ [version]) as Hrel by (by intros ->).
      apply (steps_bind R any); [by apply removeOldLibFiles_dirs_events|].
      intros _ _. by apply removeOldLibFiles_files_events.
Qed.

End LibWalk.

Lemma lib_walk_event_spares (destPath : path) (version topDir T : string) (e : Event) :
  lib_walk_event destPath topDir version e → spares (destPath ++ [T; version]) e.
Proof.
  intros He. split.
  - intros Hc. destruct (He (destPath ++ [T; version])) as (rel & x & Heq & _ & Hrm).
    { rewrite Hc. by left. }
    apply app_inv_head in Heq. injection Heq as -> Heq. by apply Hrm.
  - intros p Hp Hdir. destruct (He p Hp) as (rel & x & -> & Hrel & _).
    rewrite <- lib_parent, dirname_snoc in Hdir.
    apply app_inv_head in Hdir. injection Hdir as -> ->. done.
Qed.

Lemma removeOldLibFiles_tops_events env version destTree destPath rebootOK tops :
  steps (emits (λ e, ∀ T, spares (destPath ++ [T; version]) e)) any
        (removeOldLibFiles_tops env version destTree destPath rebootOK tops).
Proof.
  set (R := emits (λ e, ∀ T, spares (destPath ++ [T; version]) e)).
  induction tops as [|topDir tops IH]; [by apply (steps_ret R)|].
  cbn [removeOldLibFiles_tops]. apply (steps_bind R any); [|done].
  destruct (child destTree topDir) as [t|]; [|by apply (steps_ret R)].
  eapply steps_emits_mono; [|apply (removeOldLibFiles_walk_events _ _ _ _ _ t [])].
  intros e He T. by eapply lib_walk_event_spares.
Qed.

(** ** The destination's [nvda.exe] *)

Lemma missing_dirs_None (f : FS) (l ps : list path) :
  missing_dirs f l = Some ps → ∀ q, q ∈ ps → f !! q = None.
Proof.
  revert ps. induction l as [|p l IH]; intros ps; cbn [missing_dirs].
  - intros [= <-] q ?%elem_of_nil. done.
  - destruct (f !! p) as [[c|]|] eqn:Hp; [done|by intros [= <-] q ?%elem_of_nil|].
    destruct (missing_dirs f l) as [ps'|]; [|done]. cbn. intros [= <-] q [->|Hq]%elem_of_cons.
    + done.
    + by apply (IH ps').
Qed.

Lemma makedirs_effect_same_file (P p : path) (w : World) b c :
  same_file P w (record c b (set_fs (makedirs_effect p (fs w)) w)).
Proof.
  intros x. wsimpl. unfold makedirs_effect.
  destruct (mkdir_plan (fs w) p) as [ps|] eqn:Hplan; [|done].
  rewrite make_dirs_lookup. case_decide as Hin; [|done].
  rewrite (missing_dirs_None _ _ _ Hplan P Hin). split; done.
Qed.

Lemma same_file_lookup (P : path) (w w' : World) :
  fs w' !! P = fs w !! P → same_file P w w'.
Proof. intros Heq c. by rewrite Heq. Qed.

Lemma move_subtree_lookup_outside (s d P : path) (f : FS) :
  ¬ s `prefix_of` P → ¬ d `prefix_of` P → move_subtree s d f !! P = f !! P.
Proof.
  intros Hs Hd. unfold move_subtree. rewrite lookup_union_r.
  - rewrite remove_subtree_lookup. unfold under. by rewrite bool_decide_false.
  - apply not_elem_of_list_to_map_1. rewrite <- list_fmap_compose.
    intros ([k nd] & Hk & _)%list_elem_of_fmap. cbn in Hk. apply Hd. rewrite Hk.
    unfold rebase. by apply prefix_app_r.
Qed.

Lemma tryCopyFile_same_file env (s d P : path) :
  ¬ d `prefix_of` P →
  (∀ x, ¬ (dirname d ++ ["tmp" +:+ x]) `prefix_of` P) →
  steps (same_file P) any (tryCopyFile env s d).
Proof.
  intros Hd Htmp. set (R := same_file P).
  assert (d ≠ P) as HdP by (by intros ->).
  assert (steps R any (CopyFileW env s d)) as HC.
  { apply (steps_succeeds R). apply (steps_syscall R); intros w; [done|]. intros _.
    apply same_file_lookup. wsimpl. unfold copy_effect.
    destruct (fs w !! s) as [[c|]|]; [|done|done]. by rewrite lookup_insert_ne. }
  unfold tryCopyFile.
  apply (steps_bind R any); [exact HC|]. intros copied _.
  apply steps_if; [by apply (steps_ret R)|].
  apply (steps_bind R any); [by apply (steps_query R)|].
  intros there _. apply steps_if; [by apply (steps_raise R)|].
  apply (steps_bind R (λ tp, ¬ tp `prefix_of` P)).
  { intros w w' r [= <- <-]. unfold placeholder. wsimpl. split.
    - apply same_file_lookup. wsimpl. apply lookup_insert_ne. intros Heq.
      apply (Htmp (fresh (omap strip_tmp (names_below (fs w) (dirname d))))).
      unfold fresh_name in Heq. by rewrite Heq.
    - intros tp [= <-]. apply Htmp. }
  intros tp Htp. assert (tp ≠ P) as HtpP by (by intros ->).
  apply (steps_bind R any).
  { apply (steps_except_OSError R); [|by apply (steps_raise R)].
    apply (steps_syscall R); intros w; [done|]. intros _.
    apply same_file_lookup. wsimpl. unfold replace_effect.
    destruct (fs w !! d) as [[c|]|]; [|by apply move_subtree_lookup_outside|done].
    by rewrite lookup_insert_ne, lookup_delete_ne. }
  intros _ _.
  apply (steps_bind R any); [by apply (steps_syscall R)|].
  intros _ _.
  apply (steps_bind R any); [exact HC|]. intros copied2 _.
  apply steps_if; [by apply (steps_ret R)|by apply (steps_raise R)].
Qed.

Lemma copyProgramFiles_same_file env appDir destPath (appTree : Tree) (f0 : string) :
  lower f0 = "nvda.exe" →
  steps (same_file (destPath ++ [f0])) any (copyProgramFiles env appDir appTree destPath).
Proof.
  intros Hf0. set (R := same_file (destPath ++ [f0])).
  assert (∀ rel x, (rel = [] → lower x ≠ "nvda.exe") →
                   ¬ (destPath ++ rel ++ [x]) `prefix_of` (destPath ++ [f0])) as Hout.
  { intros rel x Hx Hpre%prefix_app_inv.
    destruct rel as [|n rel].
    - destruct Hpre as [k Hk]. injection Hk as <- _. by apply Hx.
    - destruct Hpre as [k Hk]. injection Hk as <- Hk. by destruct rel. }
  apply (copyProgramFiles_steps env appDir destPath R).
  - intros rel _. by apply (steps_query R).
  - intros rel _. apply (steps_syscall R); intros w; [done|]. intros _.
    apply makedirs_effect_same_file.
  - intros rel f Hrel Hf. apply tryCopyFile_same_file.
    + by apply Hout.
    + intros x. rewrite (app_assoc destPath), dirname_snoc, <- app_assoc.
      apply Hout. intros _. apply lower_tmp.
Qed.

Lemma install_select_run env (installDir : path) (w : World) :
  let ui := installDir ++ ["nvda_UIAccess.exe"] in
  let noui := installDir ++ ["nvda_noUIAccess.exe"] in
  let target := installDir ++ ["nvda.exe"] in
  install_select env installDir ["nvda_UIAccess.exe"; "nvda_noUIAccess.exe"] w =
    if is_file (fs w) ui
    then tryCopyFile env ui target (record (CIsfile ui) true w)
    else if is_file (fs w) noui
         then tryCopyFile env noui target
                (record (CIsfile noui) true (record (CIsfile ui) false w))
         else (record (CIsfile noui) false (record (CIsfile ui) false w),
               Raise RuntimeError).
Proof.
  cbv zeta. cbn [install_select]. unfold bind at 1, os_path_isfile, query.
  destruct (is_file (fs w) (installDir ++ ["nvda_UIAccess.exe"])); [done|].
  unfold bind at 1. wsimpl.
  by destruct (is_file (fs w) (installDir ++ ["nvda_noUIAccess.exe"])).
Qed.

Lemma tryCopyFile_direct env (s d : path) (w : World) (c : content) :
  fs w !! s = Some (File c) →
  is_dir (fs w) d = false →
  env (trace w) (CCopyFileW s d) = false →
  ∃ w', tryCopyFile env s d w = (w', Ok tt) ∧ fs w' !! d = Some (File c).
Proof.
  intros Hs Hd Henv. unfold tryCopyFile. unfold bind at 1. rewrite CopyFileW_run.
  unfold is_file. rewrite Hs, Hd, Henv. cbn [andb negb].
  eexists. split; [reflexivity|]. wsimpl. unfold copy_effect. rewrite Hs.
  apply lookup_insert_eq.
Qed.

(** C9.  The walk of [copyProgramFiles] makes no copy from or to a top-level
    [nvda.exe], whatever the case of its name, and leaves the file at the
    destination's [nvda.exe] as it was.  The selection that follows it in
    [install] copies [nvda_UIAccess.exe], or else [nvda_noUIAccess.exe], over
    [nvda.exe], and raises [RuntimeError] when neither is a file; a copy that
    goes through puts the content of its source at the destination. *)
Theorem nvda_exe_comes_from_selection env appDir appTree installDir :
  (∀ w w' r, copyProgramFiles env appDir appTree installDir w = (w', r) →
     (∃ evs, trace w' = evs ++ trace w ∧
             ∀ s d b f, Ev (CCopyFileW s d) b ∈ evs → lower f = "nvda.exe" →
                        s ≠ appDir ++ [f] ∧ d ≠ installDir ++ [f]) ∧
     (∀ f, lower f = "nvda.exe" → same_file (installDir ++ [f]) w w')) ∧
  (∀ w,
     let ui := installDir ++ ["nvda_UIAccess.exe"] in
     let noui := installDir ++ ["nvda_noUIAccess.exe"] in
     let target := installDir ++ ["nvda.exe"] in
     install_select env installDir ["nvda_UIAccess.exe"; "nvda_noUIAccess.exe"] w =
       if is_file (fs w) ui
       then tryCopyFile env ui target (record (CIsfile ui) true w)
       else if is_file (fs w) noui
            then tryCopyFile env noui target
                   (record (CIsfile noui) true (record (CIsfile ui) false w))
            else (record (CIsfile noui) false (record (CIsfile ui) false w),
                  Raise RuntimeError)) ∧
  (∀ s w c, fs w !! s = Some (File c) →
            is_dir (fs w) (installDir ++ ["nvda.exe"]) = false →
            env (trace w) (CCopyFileW s (installDir ++ ["nvda.exe"])) = false →
            ∃ w', tryCopyFile env s (installDir ++ ["nvda.exe"]) w = (w', Ok tt) ∧
                  fs w' !! (installDir ++ ["nvda.exe"]) = Some (File c)).
Proof.
  split; [|split].
  - intros w w' r Hrun. split.
    + destruct (copyProgramFiles_events env appDir installDir appTree _ _ _ Hrun)
        as [(evs & Ht & Hevs) _].
      exists evs. split; [done|]. intros s d b f Hin Hf.
      rewrite Forall_forall in Hevs. destruct (Hevs _ Hin) as (rel & _ & Hshape).
      cbn in Hshape. destruct Hshape as (f' & -> & -> & Hf').
      split; intros Heq%app_inv_head; (destruct rel as [|n rel];
        [injection Heq as ->; by apply Hf'|injection Heq as _ Heq; by destruct rel]).
    + intros f Hf.
      by destruct (copyProgramFiles_same_file env appDir installDir appTree f Hf _ _ _ Hrun).
  - intros w. apply install_select_run.
  - intros s w c. apply tryCopyFile_direct.
Qed.

Lemma not_below_config (base rel : path) (x : string) :
  top_allowed rel → ¬ below_config base (base ++ rel ++ [x]).
Proof.
  intros Hrel (n & rest & Hn & Hrest & Heq). apply app_inv_head in Heq.
  destruct rel as [|n' rel'].
  - injection Heq as _ <-. done.
  - injection Heq as -> _. by rewrite (Hrel n rel' eq_refl) in Hn.
Qed.

Lemma walk_event_outside_config (appDir destPath : path) (e : Event) :
  walk_event appDir destPath e → outside_config appDir destPath e.
Proof.
  intros (rel & Hrel & Hshape). unfold outside_config.
  destruct (call e);
    try (intros q Hq; destruct (Hshape q Hq) as (x & -> & _); by apply not_below_config).
  - intros n rest Hn Heq. subst. apply app_inv_head in Heq.
    by rewrite (Hrel n rest Heq) in Hn.
  - destruct Hshape as (f & -> & -> & _). split; by apply not_below_config.
  - intros n rest Hn Heq. subst. apply app_inv_head in Heq.
    by rewrite (Hrel n rest Heq) in Hn.
Qed.

(** C7 as amended.  [copyProgramFiles] visits and copies nothing in the
    top-level [userConfig] and [systemConfig] directories of the program
    tree, whatever the case of their names, nor below them: every event of
    the walk stays out of them.  [removeOldLibFiles] neither removes the
    library directory of the current version nor touches an entry of that
    directory. *)
Theorem protected_subtrees_spared :
  (∀ env appDir appTree destPath w w' r,
     copyProgramFiles env appDir appTree destPath w = (w', r) →
     emits (outside_config appDir destPath) w w') ∧
  (∀ env version destTree destPath rebootOK w w' r,
     removeOldLibFiles env version destTree destPath rebootOK w = (w', r) →
     emits (λ e, ∀ topDir, spares (destPath ++ [topDir; version]) e) w w').
Proof.
  split.
  - intros env appDir appTree destPath w w' r Hrun.
    destruct (copyProgramFiles_events env appDir destPath appTree _ _ _ Hrun) as [He _].
    eapply emits_mono; [|exact He]. apply walk_event_outside_config.
  - intros env version destTree destPath rebootOK w w' r Hrun.
    by destruct (removeOldLibFiles_tops_events env version destTree destPath rebootOK _
                   _ _ _ Hrun).
Qed.

Lemma nvda_exe_comes_from_selection_witness :
  let run := copyProgramFiles env_ok appDir0 appTree0 installDir0 world0 in
  (∃ evs, trace run.1 = evs ++ trace world0 ∧
          ∀ s d b f, Ev (CCopyFileW s d) b ∈ evs → lower f = "nvda.exe" →
                     s ≠ appDir0 ++ [f] ∧ d ≠ installDir0 ++ [f]) ∧
  same_file (installDir0 ++ ["nvda.exe"]) world0 run.1.
Proof.
  intros run.
  destruct (proj1 (nvda_exe_comes_from_selection env_ok appDir0 appTree0 installDir0)
              world0 run.1 run.2 (surjective_pairing _)) as [Hevents Hsame].
  split; [exact Hevents|]. apply Hsame. reflexivity.
Defined.

(** The step of [install] on the concrete world: the configuration at the
    top level is not copied, and [nvda.exe] gets the content of
    [nvda_noUIAccess.exe], the only candidate present. *)
Lemma install_nvdaExe_example :
  let run := install_nvdaExe env_ok appDir0 appTree0 installDir0 world0 in
  run.2 = Ok tt ∧
  fs run.1 !! (installDir0 ++ ["nvda.exe"]) = Some (File "noUIAccess 2025") ∧
  fs run.1 !! (installDir0 ++ ["nvda_slave.exe"]) = Some (File "slave 2025") ∧
  fs run.1 !! (installDir0 ++ ["userConfig"]) = None ∧
  fs run.1 !! (installDir0 ++ ["userConfig"; "nvda.ini"]) = None.
Proof. vm_compute. repeat split. Qed.

Lemma protected_subtrees_spared_witness :
  emits (outside_config appDir0 installDir0) world0
        (copyProgramFiles env_ok appDir0 appTree0 installDir0 world0).1 ∧
  emits (λ e, ∀ topDir, spares (installDir0 ++ [topDir; version0]) e) world0
        (removeOldLibFiles env_ok version0 installTree0 installDir0 true world0).1.
Proof.
  split.
  - eapply (proj1 protected_subtrees_spared). apply surjective_pairing.
  - eapply (proj2 protected_subtrees_spared). apply surjective_pairing.
Defined.

(** C7, counterexample.  A [userConfig] directory below the top level of the
    program tree is visited, and the file in it is copied. *)
Lemma nested_userConfig_copied_counterexample :
  let run := copyProgramFiles env_ok appDir0 appTree0 installDir0 world0 in
  let nested := ["locale"; "userConfig"; "notes.txt"] in
  is_config_name "userConfig" = true ∧
  Ev (CIsdir (installDir0 ++ ["locale"; "userConfig"])) false ∈ trace run.1 ∧
  Ev (CCopyFileW (appDir0 ++ nested) (installDir0 ++ nested)) true ∈ trace run.1 ∧
  fs world0 !! (installDir0 ++ nested) = None ∧
  fs run.1 !! (installDir0 ++ nested) = Some (File "notes").
Proof.
  cbv zeta. split; [reflexivity|].
  split; [apply (bool_decide_unpack _); vm_compute; exact I|].
  split; [apply (bool_decide_unpack _); vm_compute; exact I|].
  vm_compute. split; reflexivity.
Qed.

(** What [removeOldLibFiles] does below the library directory of the current
    version: the directory and its own files stay, the file of its
    subdirectory is removed. *)
Lemma removeOldLibFiles_below_current_version_example :
  let run := removeOldLibFiles env_ok version0 installTree0 installDir0 true world0 in
  let current := installDir0 ++ ["lib"; version0] in
  run.2 = Ok tt ∧
  fs run.1 !! current = Some Dir ∧
  fs run.1 !! (current ++ ["nvdaHelper.dll"]) = Some (File "helper 2025") ∧
  fs run.1 !! (installDir0 ++ ["lib"; "2024.4"]) = None ∧
  fs world0 !! (current ++ ["x64"; "helper64.dll"]) = Some (File "helper64 2025") ∧
  fs run.1 !! (current ++ ["x64"; "helper64.dll"]) = None.
Proof. vm_compute. repeat split. Qed.

(** ** Single files: what a removal or a copy leaves behind *)

Lemma tryRemoveFile_attempts_file env n iv tp w c :
  fs w !! tp = Some (File c) →
  ∃ w' b, tryRemoveFile_attempts env n iv tp w = (w', Ok b) ∧
    pending w' = pending w ∧
    (b = true → fs w' = delete tp (fs w)) ∧
    (b = false → fs w' = fs w) ∧
    calls_of is_delete (trace w') ≤ n + calls_of is_delete (trace w) ∧
    (b = false → calls_of is_delete (trace w') = n + calls_of is_delete (trace w)).
Proof.
  intros Hf. revert w Hf. induction n as [|n IH]; intros w Hf.
  - exists w, false. repeat split; done.
  - rewrite tryRemoveFile_attempts_S by (by eapply is_dir_File).
    rewrite (is_file_File _ _ _ Hf). cbn [andb].
    destruct (env _ _); cbn [negb].
    + destruct (IH (mkWorld (fs w) (pending w)
                     (Ev (CSleep iv) true :: Ev (CRemove tp) false :: Ev (CIsdir tp) false
                        :: trace w)) Hf) as (w' & b & -> & Hp & Ht & Hff & Hle & Heq).
      cbn [fs pending trace] in *. rewrite !calls_of_cons in Hle, Heq. cbn in Hle, Heq.
      exists w', b. repeat split; try done; [lia|]. intros Hb. rewrite (Heq Hb). lia.
    + eexists _, true. split; [reflexivity|]. cbn [fs pending trace].
      rewrite !calls_of_cons. cbn. repeat split; try done; lia.
Qed.

(** The continuation of [tryRemoveFile] after the placeholder is made. *)
Lemma tryRemoveFile_file_outcome env p n iv rb w c :
  let tp := placeholder w (dirname p) in
  fs w !! p = Some (File c) →
  ∃ w' r, tryRemoveFile env p n iv rb w = (w', r) ∧
    calls_of is_delete (trace w') ≤ Z.to_nat n + calls_of is_delete (trace w) ∧
    ((r = Raise (RetriableFailure (RenameBeforeRemoveFailed p)) ∧
      fs w' = <[tp := File ""]> (fs w) ∧ pending w' = pending w ∧
      calls_of is_delete (trace w') = calls_of is_delete (trace w)) ∨
     (r = Ok tt ∧ fs w' = delete p (fs w) ∧ pending w' = pending w) ∨
     (r = Ok tt ∧ rb = true ∧ fs w' = <[tp := File c]> (delete p (fs w)) ∧
      pending w' = tp :: pending w) ∨
     (r = Raise (RetriableFailure (CouldNotBeRemoved p)) ∧ pending w' = pending w ∧
      (fs w' = fs w ∨ fs w' = <[tp := File c]> (delete p (fs w))))).
Proof.
  intros tp Hp.
  assert (fs w !! tp = None) as Htp by apply placeholder_fresh.
  assert (p ≠ tp) as Hne by congruence.
  assert (tp ≠ p) as Hne' by congruence.
  unfold tryRemoveFile. unfold bind at 1, _createEmptyTempFileForDeletingFile.
  fold tp. unfold bind at 1, except_OSError, os_replace, syscall. wsimpl.
  unfold is_file at 1, is_dir at 1. rewrite lookup_insert_ne, Hp, lookup_insert_eq by done.
  cbn [andb negb orb].
  destruct (env _ (CReplace p tp)); cbn [negb].
  { unfold raise. eexists _, _. split; [reflexivity|]. wsimpl. rewrite !calls_of_cons. cbn.
    split; [lia|]. left. done. }
  unfold bind at 1. unfold replace_effect. rewrite lookup_insert_ne, Hp by done.
  set (F := <[tp := File c]> _).
  assert (F = <[tp := File c]> (delete p (fs w))) as HFeq.
  { subst F. apply map_eq. intros k.
    destruct (decide (k = tp)) as [->|]; [by rewrite !lookup_insert_eq|].
    rewrite !lookup_insert_ne by done.
    destruct (decide (k = p)) as [->|]; [by rewrite !lookup_delete_eq|].
    by rewrite !lookup_delete_ne, lookup_insert_ne. }
  assert (F !! tp = Some (File c)) as HF by apply lookup_insert_eq.
  match goal with |- context [tryRemoveFile_attempts _ _ _ _ ?w0] => set (w2 := w0) end.
  destruct (tryRemoveFile_attempts_file env (Z.to_nat n) iv tp w2 c HF)
    as (w3 & b & -> & Hpend3 & Hdel & Hkeep & Hle & _).
  subst w2. cbn [fs pending trace record set_fs] in *. rewrite !calls_of_cons in Hle. cbn in Hle.
  destruct b.
  { unfold ret. eexists _, _. split; [reflexivity|]. split; [lia|]. right. left.
    split; [done|]. split; [|done]. rewrite Hdel by done. subst F. by apply remove_fs. }
  specialize (Hkeep eq_refl). unfold bind at 1.
  assert (∃ w4 marked,
            (if rb then succeeds (winKernel_moveFileEx env tp) else ret false) w3
              = (w4, Ok marked) ∧ fs w4 = fs w3 ∧
            calls_of is_delete (trace w4) = calls_of is_delete (trace w3) ∧
            (marked = true → rb = true ∧ pending w4 = tp :: pending w3) ∧
            (marked = false → pending w4 = pending w3))
    as (w4 & marked & -> & Hfs4 & Hc4 & Hm1 & Hm0).
  { destruct rb; [|by eexists _, false].
    unfold succeeds, except_OSError, bind, winKernel_moveFileEx, syscall.
    destruct (exists_ (fs w3) tp && negb (env (trace w3) (CMoveFileEx tp))).
    - eexists _, true. split; [reflexivity|]. wsimpl. rewrite calls_of_cons. by cbn.
    - eexists _, false. split; [reflexivity|]. wsimpl. rewrite calls_of_cons. by cbn. }
  destruct marked.
  { destruct (Hm1 eq_refl) as [-> Hpend4].
    unfold ret. eexists _, _. split; [reflexivity|]. split; [lia|]. right. right. left.
    repeat split; [congruence|congruence]. }
  specialize (Hm0 eq_refl).
  unfold bind at 1, except_Exception, os_replace, syscall.
  assert (fs w4 !! tp = Some (File c)) as Htp4 by congruence.
  assert (fs w4 !! p = None) as Hp4.
  { rewrite Hfs4, Hkeep, HFeq. by rewrite lookup_insert_ne, lookup_delete_eq. }
  wsimpl. unfold is_file, is_dir. rewrite Htp4, Hp4. cbn [andb negb orb].
  destruct (env (trace w4) (CReplace tp p)); cbn [negb].
  - unfold ret, raise. eexists _, _. split; [reflexivity|]. wsimpl. rewrite calls_of_cons. cbn.
    split; [lia|]. right. right. right. split; [done|]. split; [congruence|]. right. congruence.
  - unfold ret, raise. eexists _, _. split; [reflexivity|]. wsimpl. rewrite calls_of_cons. cbn.
    split; [lia|]. right. right. right. split; [done|]. split; [congruence|]. left.
    rewrite Hfs4, Hkeep. subst F. by apply restore_fs.
Qed.

Lemma tryRemoveFile_rest_frame env p tp n iv (rb : bool) w1 x :
  fs w1 !! tp = Some (File x) →
  ∃ (w' : World) (r : result unit),
    (except_OSError (os_replace env p tp)
                    (raise (RetriableFailure (RenameBeforeRemoveFailed p))) ;;;
     let! deleted := tryRemoveFile_attempts env (Z.to_nat n) iv tp in
     if deleted then ret tt
     else
       let! marked :=
         (if rb then succeeds (winKernel_moveFileEx env tp) else ret false) in
       if marked then ret tt
       else
         except_Exception (os_replace env tp p) (ret tt) ;;;
         raise (RetriableFailure (CouldNotBeRemoved p))) w1 = (w', r) ∧
    (∀ q, q ≠ p → q ≠ tp → fs w' !! q = fs w1 !! q) ∧
    calls_of is_delete (trace w') ≤ Z.to_nat n + calls_of is_delete (trace w1) ∧
    (r = Ok tt ∨ ∃ msg, r = Raise (RetriableFailure msg)) ∧
    (is_file (fs w1) p = false →
       r = Raise (RetriableFailure (RenameBeforeRemoveFailed p)) ∧ fs w' = fs w1 ∧
       pending w' = pending w1 ∧
       calls_of is_delete (trace w') = calls_of is_delete (trace w1)).
Proof.
  intros Htp.
  unfold bind at 1, except_OSError, os_replace, syscall. wsimpl.
  assert (is_dir (fs w1) tp = false) as Hd by (by eapply is_dir_File).
  assert (exists_ (fs w1) tp = true) as He by (unfold exists_; by rewrite Htp).
  rewrite Hd, He. cbn [negb]. rewrite andb_true_r, andb_false_r, orb_false_r.
  destruct (is_file (fs w1) p) eqn:Hp; cbn [andb].
  2:{ unfold raise. eexists _, _. split; [reflexivity|]. wsimpl. rewrite calls_of_cons. cbn.
      split; [done|]. split; [lia|]. split; [right; by eexists|]. done. }
  destruct (env _ (CReplace p tp)); cbn [negb].
  { unfold raise. eexists _, _. split; [reflexivity|]. wsimpl. rewrite calls_of_cons. cbn.
    split; [done|]. split; [lia|]. split; [right; by eexists|]. done. }
  unfold is_file in Hp. destruct (fs w1 !! p) as [[c|]|] eqn:Hpc; try done.
  unfold bind at 1. unfold replace_effect. rewrite Hpc.
  set (F := <[tp := File c]> _).
  assert (F !! tp = Some (File c)) as HF by apply lookup_insert_eq.
  assert (∀ q, q ≠ p → q ≠ tp → F !! q = fs w1 !! q) as HFq.
  { intros q ? ?. subst F. by rewrite lookup_insert_ne, lookup_delete_ne. }
  assert (is_dir F p = false) as HFp.
  { unfold is_dir. subst F. destruct (decide (p = tp)) as [->|].
    - by rewrite lookup_insert_eq.
    - by rewrite lookup_insert_ne, lookup_delete_eq. }
  match goal with |- context [tryRemoveFile_attempts _ _ _ _ ?w0] => set (w2 := w0) end.
  destruct (tryRemoveFile_attempts_file env (Z.to_nat n) iv tp w2 c HF)
    as (w3 & b & -> & Hpend3 & Hdel & Hkeep & Hle & _).
  subst w2. cbn [fs pending trace record set_fs] in *. rewrite !calls_of_cons in Hle.
  cbn in Hle.
  destruct b.
  { unfold ret. eexists _, _. split; [reflexivity|].
    split; [|split; [lia|split; [by left|done]]].
    intros q ? ?. rewrite Hdel by done. rewrite lookup_delete_ne by done. by apply HFq. }
  specialize (Hkeep eq_refl). unfold bind at 1.
  assert (∃ w4 marked,
            (if rb then succeeds (winKernel_moveFileEx env tp) else ret false) w3
              = (w4, Ok marked) ∧ fs w4 = fs w3 ∧
            calls_of is_delete (trace w4) = calls_of is_delete (trace w3))
    as (w4 & marked & -> & Hfs4 & Hc4).
  { destruct rb; [|by eexists _, false].
    unfold succeeds, except_OSError, bind, winKernel_moveFileEx, syscall.
    destruct (exists_ (fs w3) tp && negb (env (trace w3) (CMoveFileEx tp))).
    - eexists _, true. split; [reflexivity|]. wsimpl. rewrite calls_of_cons. by cbn.
    - eexists _, false. split; [reflexivity|]. wsimpl. rewrite calls_of_cons. by cbn. }
  destruct marked.
  { unfold ret. eexists _, _. split; [reflexivity|].
    split; [|split; [lia|split; [by left|done]]].
    intros q ? ?. rewrite Hfs4, Hkeep. by apply HFq. }
  unfold bind at 1, except_Exception, os_replace, syscall. wsimpl.
  rewrite Hfs4, Hkeep, HFp. unfold is_file, is_dir at 1. rewrite HF. cbn [andb negb orb].
  destruct (env (trace w4) (CReplace tp p)); cbn [negb].
  - unfold ret, raise. eexists _, _. split; [reflexivity|]. wsimpl. rewrite calls_of_cons. cbn.
    split; [|split; [lia|split; [right; by eexists|done]]].
    intros q ? ?. rewrite Hfs4, Hkeep. by apply HFq.
  - unfold ret, raise. eexists _, _. split; [reflexivity|]. wsimpl. rewrite calls_of_cons. cbn.
    split; [|split; [lia|split; [right; by eexists|done]]].
    intros q ? ?. unfold replace_effect. rewrite ?Hfs4, ?Hkeep, ?HF.
    rewrite lookup_insert_ne, lookup_delete_ne by done. by apply HFq.
Qed.

Lemma tryRemoveFile_unfold env p n iv (rb : bool) w :
  let tp := placeholder w (dirname p) in
  tryRemoveFile env p n iv rb w =
    (except_OSError (os_replace env p tp)
                    (raise (RetriableFailure (RenameBeforeRemoveFailed p))) ;;;
     let! deleted := tryRemoveFile_attempts env (Z.to_nat n) iv tp in
     if deleted then ret tt
     else
       let! marked :=
         (if rb then succeeds (winKernel_moveFileEx env tp) else ret false) in
       if marked then ret tt
       else
         except_Exception (os_replace env tp p) (ret tt) ;;;
         raise (RetriableFailure (CouldNotBeRemoved p)))
      (record (CMkstemp tp) true (set_fs (<[tp := File ""]> (fs w)) w)).
Proof. reflexivity. Qed.

Lemma tryRemoveFile_touches_only_path env p n iv rb w w' r :
  tryRemoveFile env p n iv rb w = (w', r) →
  (∀ q, q ≠ p → q ≠ placeholder w (dirname p) → fs w' !! q = fs w !! q) ∧
  calls_of is_delete (trace w') ≤ Z.to_nat n + calls_of is_delete (trace w) ∧
  (r = Ok tt ∨ ∃ msg, r = Raise (RetriableFailure msg)).
Proof.
  rewrite tryRemoveFile_unfold. cbv zeta. set (tp := placeholder _ _).
  set (w1 := record _ _ _).
  destruct (tryRemoveFile_rest_frame env p tp n iv rb w1 "") as (w2 & r2 & -> & Hq & Hle & Hr & _).
  { subst w1. wsimpl. apply lookup_insert_eq. }
  intros [= <- <-]. subst w1. cbn [fs pending trace record set_fs] in *.
  rewrite calls_of_cons in Hle. cbn in Hle. split; [|done].
  intros q ? ?. rewrite Hq by done. by rewrite lookup_insert_ne.
Qed.

Lemma tryCopyFile_outcome env s d w :
  let tp := placeholder w (dirname d) in
  ∃ (w' : World) (r : result unit), tryCopyFile env s d w = (w', r) ∧
    (∀ q, q ≠ d → q ≠ tp → fs w' !! q = fs w !! q) ∧
    (∀ c, fs w !! s = Some (File c) → r = Ok tt →
          fs w' !! d = Some (File c) ∧ (pending w' = pending w ∨ pending w' = tp :: pending w)) ∧
    (fs w !! d = None → r ≠ Ok tt →
       r = Raise OSError ∧ fs w' = fs w ∧ pending w' = pending w) ∧
    (r = Ok tt ∨ r = Raise OSError ∨
     r = Raise (RetriableFailure (RenameAfterFailedOverwrite d))) ∧
    (is_file (fs w) s = false → s ≠ tp → r ≠ Ok tt).
Proof.
  intros tp.
  assert (fs w !! tp = None) as Htp by apply placeholder_fresh.
  unfold tryCopyFile. unfold bind at 1. rewrite CopyFileW_run.
  destruct (is_file (fs w) s && negb (is_dir (fs w) d) && negb (env (trace w) (CCopyFileW s d)))
    eqn:Hfirst.
  { apply andb_true_iff in Hfirst as [[Hs Hd]%andb_true_iff _].
    unfold is_file in Hs. destruct (fs w !! s) as [[c|]|] eqn:Hsc; try done.
    unfold ret. eexists _, _. split; [reflexivity|]. wsimpl. unfold copy_effect. rewrite Hsc.
    split; [intros q ? ?; by rewrite lookup_insert_ne|].
    split; [intros c' [= <-] _; split; [apply lookup_insert_eq|by left]|].
    split; [done|]. split; [by left|].
    intros Hnf. unfold is_file in Hnf. by rewrite Hsc in Hnf. }
  unfold bind at 1, os_path_exists, query. wsimpl.
  destruct (exists_ (fs w) d) eqn:Hex; cbn [negb].
  2:{ unfold raise. eexists _, _. split; [reflexivity|]. wsimpl.
      split; [done|]. split; [done|]. split; [done|]. split; [right; by left|]. done. }
  assert (d ≠ tp) as Hne.
  { intros Heq. unfold exists_ in Hex. by rewrite Heq, Htp in Hex. }
  unfold bind at 1, _createEmptyTempFileForDeletingFile. wsimpl.
  change (placeholder (record _ _ (record _ _ w)) (dirname d)) with tp.
  unfold bind at 1, except_OSError, os_replace, syscall. wsimpl.
  unfold is_dir at 1, exists_ at 1. rewrite lookup_insert_eq. cbn [negb].
  rewrite andb_true_r, andb_false_r, orb_false_r.
  unfold is_file at 1. rewrite lookup_insert_ne by done.
  destruct (fs w !! d) as [[cd|]|] eqn:Hd; cbn [andb].
  3: (unfold exists_ in Hex; by rewrite Hd in Hex).
  2: (unfold raise; eexists _, _; split; [reflexivity|]; wsimpl;
      split; [intros q ? ?; by rewrite lookup_insert_ne|];
      split; [done|]; split; [done|]; split; [right; by right|]; done).
  destruct (env _ (CReplace d tp)); cbn [negb].
  { unfold raise. eexists _, _. split; [reflexivity|]. wsimpl.
    split; [intros q ? ?; by rewrite lookup_insert_ne|].
    split; [done|]. split; [done|]. split; [right; by right|]. done. }
  unfold bind at 1. unfold replace_effect. rewrite lookup_insert_ne, Hd by done.
  set (F := <[tp := File cd]> _).
  assert (∀ q, q ≠ d → q ≠ tp → F !! q = fs w !! q) as HFq.
  { intros q ? ?. subst F. by rewrite lookup_insert_ne, lookup_delete_ne, lookup_insert_ne. }
  assert (F !! d = None) as HFd.
  { subst F. by rewrite lookup_insert_ne, lookup_delete_eq. }
  unfold bind at 1, winKernel_moveFileEx, syscall. wsimpl.
  assert (exists_ F tp = true) as ->
    by (unfold exists_; subst F; by rewrite lookup_insert_eq). cbn [andb].
  destruct (env _ (CMoveFileEx tp)); cbn [negb].
  { eexists _, _. split; [reflexivity|]. wsimpl.
    split; [done|]. split; [done|]. split; [done|]. split; [right; by left|]. done. }
  wsimpl. rewrite CopyFileW_run. wsimpl.
  unfold is_dir at 1. rewrite HFd. rewrite andb_true_r.
  destruct (is_file F s && negb (env _ (CCopyFileW s d))) eqn:Hsecond.
  2:{ unfold raise. eexists _, _. split; [reflexivity|]. wsimpl.
      split; [done|]. split; [done|]. split; [done|]. split; [right; by left|]. done. }
  apply andb_true_iff in Hsecond as [Hs _].
  unfold is_file in Hs. destruct (F !! s) as [[c|]|] eqn:Hsc; try done.
  unfold ret. eexists _, _. split; [reflexivity|]. wsimpl. unfold copy_effect. rewrite Hsc.
  split; [intros q ? ?; rewrite lookup_insert_ne by done; by apply HFq|].
  split.
  { intros c' Hc' _. split; [|by right]. rewrite lookup_insert_eq.
    assert (s ≠ d) by congruence. assert (s ≠ tp) by congruence.
    rewrite HFq in Hsc by done. congruence. }
  split; [done|]. split; [by left|].
  intros Hnf Hstp. assert (s ≠ d) by congruence. rewrite HFq in Hsc by done.
  unfold is_file in Hnf. by rewrite Hsc in Hnf.
Qed.

(** X6.  A copy whose source is not a file, onto an existing file: the first
    copy fails, the destination is taken for locked, renamed aside and
    registered for deletion at the next restart, and the second copy fails
    as the first did.  [tryCopyFile] raises [OSError], and the destination
    is gone from its path. *)
Theorem tryCopyFile_missing_source env s d w cd :
  let tp := placeholder w (dirname d) in
  is_file (fs w) s = false → s ≠ tp →
  fs w !! d = Some (File cd) →
  (∀ h, env h (CReplace d tp) = false) →
  (∀ h, env h (CMoveFileEx tp) = false) →
  ∃ w', tryCopyFile env s d w = (w', Raise OSError) ∧
        fs w' !! d = None ∧ fs w' !! tp = Some (File cd) ∧ pending w' = tp :: pending w ∧
        calls_of is_CopyFileW (trace w') = 2 + calls_of is_CopyFileW (trace w).
Proof.
  intros tp Hs Hstp Hd Hren Hreg.
  assert (fs w !! tp = None) as Htp by apply placeholder_fresh.
  assert (d ≠ tp) as Hne by congruence.
  assert (s ≠ d) as Hsd.
  { intros ->. unfold is_file in Hs. by rewrite Hd in Hs. }
  rewrite (tryCopyFile_fallback_run env s d w cd) by (try done; by rewrite Hs).
  fold tp. cbv zeta.
  assert (is_file (<[tp := File cd]> (delete d (<[tp := File ""]> (fs w)))) s = false) as ->.
  { unfold is_file in *. by rewrite lookup_insert_ne, lookup_delete_ne, lookup_insert_ne. }
  cbn [andb]. eexists. split; [reflexivity|]. cbn [fs pending trace].
  split; [by rewrite lookup_insert_ne, lookup_delete_eq|].
  split; [apply lookup_insert_eq|]. split; [done|].
  by rewrite !calls_of_cons.
Qed.

(** X1.  Whatever fails, [tryRemoveFile] changes nothing but the path it is
    given and the placeholder it creates beside it: every other path holds
    after the call what it held before. *)
Theorem tryRemoveFile_changes_only_its_path env p n iv rb w w' r :
  tryRemoveFile env p n iv rb w = (w', r) →
  ∀ q, q ≠ p → q ≠ placeholder w (dirname p) → fs w' !! q = fs w !! q.
Proof. intros Hrun. by destruct (tryRemoveFile_touches_only_path _ _ _ _ _ _ _ _ Hrun). Qed.

(** X2.  [tryRemoveFile] makes at most [numRetries] deletion attempts, none
    when [numRetries] is zero or negative, and raises nothing but
    [RetriableFailure]. *)
Theorem tryRemoveFile_attempts_bounded env p n iv rb w :
  let run := tryRemoveFile env p n iv rb w in
  (calls_of is_delete (trace run.1) ≤ Z.to_nat n + calls_of is_delete (trace w))%nat ∧
  (run.2 = Ok tt ∨ ∃ msg, run.2 = Raise (RetriableFailure msg)).
Proof.
  cbv zeta. destruct (tryRemoveFile env p n iv rb w) as [w' r] eqn:Hrun.
  by destruct (tryRemoveFile_touches_only_path _ _ _ _ _ _ _ _ Hrun) as (_ & ? & ?).
Qed.

(** X3.  The outcomes of [tryRemoveFile] on an existing file, whatever
    fails.  When it returns, nothing is left at the path: the file is
    deleted and nothing else has changed, or, with [rebootOK], its content
    is under the placeholder, which is registered for deletion at the next
    restart.  When it raises, it raises [RetriableFailure], registers
    nothing, and the content is not lost: it is at the path or under the
    placeholder. *)
Theorem tryRemoveFile_outcomes env p n iv rb w c :
  fs w !! p = Some (File c) →
  let run := tryRemoveFile env p n iv rb w in
  let tp := placeholder w (dirname p) in
  match run.2 with
  | Ok _ =>
      fs run.1 !! p = None ∧
      ((fs run.1 = delete p (fs w) ∧ pending run.1 = pending w) ∨
       (rb = true ∧ fs run.1 = <[tp := File c]> (delete p (fs w)) ∧
        pending run.1 = tp :: pending w))
  | Raise e =>
      (∃ msg, e = RetriableFailure msg) ∧ pending run.1 = pending w ∧
      (fs run.1 !! p = Some (File c) ∨ fs run.1 !! tp = Some (File c))
  end.
Proof.
  intros Hp. cbv zeta. set (tp := placeholder w (dirname p)).
  assert (fs w !! tp = None) as Htp by apply placeholder_fresh.
  assert (p ≠ tp) as Hne by congruence.
  destruct (tryRemoveFile_file_outcome env p n iv rb w c Hp) as (w' & r & -> & _ & Hcases).
  fold tp in Hcases. cbn [fst snd].
  destruct Hcases as [(-> & Hfs & Hpend & _)|[(-> & Hfs & Hpend)|[(-> & -> & Hfs & Hpend)
                     |(-> & Hpend & Hfs)]]].
  - split; [by eexists|]. split; [done|]. left. by rewrite Hfs, lookup_insert_ne.
  - split; [by rewrite Hfs, lookup_delete_eq|]. by left.
  - split; [by rewrite Hfs, lookup_insert_ne, lookup_delete_eq|]. by right.
  - split; [by eexists|]. split; [done|]. destruct Hfs as [-> | ->]; [by left|right].
    apply lookup_insert_eq.
Qed.

(** X4.  Where nothing exists at the path, [tryRemoveFile] fails at its
    first step, the renaming: it raises [RetriableFailure] without one
    deletion attempt and without registering anything, and leaves behind the
    empty placeholder it had created. *)
Theorem tryRemoveFile_missing_path env p n iv rb w :
  let tp := placeholder w (dirname p) in
  fs w !! p = None → p ≠ tp →
  ∃ w', tryRemoveFile env p n iv rb w =
          (w', Raise (RetriableFailure (RenameBeforeRemoveFailed p))) ∧
        fs w' = <[tp := File ""]> (fs w) ∧ pending w' = pending w ∧
        calls_of is_delete (trace w') = calls_of is_delete (trace w).
Proof.
  intros tp Hp Hne. rewrite tryRemoveFile_unfold. cbv zeta. fold tp.
  set (w1 := record _ _ _).
  destruct (tryRemoveFile_rest_frame env p tp n iv rb w1 "") as (w2 & r2 & -> & _ & _ & _ & Hnf).
  { subst w1. wsimpl. apply lookup_insert_eq. }
  destruct Hnf as (-> & Hfs & Hpend & Hcalls).
  { subst w1. wsimpl. unfold is_file. by rewrite lookup_insert_ne, Hp. }
  exists w2. split; [done|]. subst w1. cbn [fs pending trace record set_fs] in *.
  rewrite calls_of_cons in Hcalls. done.
Qed.

(** X5.  When [tryCopyFile] returns normally, the destination holds the
    content that the source had, and no path other than the destination and
    the placeholder beside it has changed. *)
Theorem tryCopyFile_normal_return env s d w w' c :
  fs w !! s = Some (File c) →
  tryCopyFile env s d w = (w', Ok tt) →
  fs w' !! d = Some (File c) ∧
  ∀ q, q ≠ d → q ≠ placeholder w (dirname d) → fs w' !! q = fs w !! q.
Proof.
  intros Hs Hrun.
  destruct (tryCopyFile_outcome env s d w) as (w2 & r2 & Hrun2 & Hframe & Hok & _).
  rewrite Hrun in Hrun2. injection Hrun2 as <- <-.
  split; [|done]. by destruct (Hok c Hs eq_refl).
Qed.

(** X7.  A copy that fails where no destination exists raises [OSError] at
    once: no placeholder is made, nothing is registered, and the file system
    is what it was.  [tryCopyFile] raises nothing but [OSError] and
    [RetriableFailure]. *)
Theorem tryCopyFile_failure_without_destination env s d w w' r :
  tryCopyFile env s d w = (w', r) →
  (r = Ok tt ∨ r = Raise OSError ∨
   r = Raise (RetriableFailure (RenameAfterFailedOverwrite d))) ∧
  (fs w !! d = None → r ≠ Ok tt →
   r = Raise OSError ∧ fs w' = fs w ∧ pending w' = pending w).
Proof.
  intros Hrun.
  destruct (tryCopyFile_outcome env s d w) as (w2 & r2 & Hrun2 & _ & _ & Hmiss & Hr & _).
  rewrite Hrun in Hrun2. injection Hrun2 as <- <-. done.
Qed.

Lemma run_returns {A} (x : World * result A) (a : A) : x.2 = Ok a → x = (x.1, Ok a).
Proof. destruct x as [w r]. cbn. by intros ->. Qed.

Lemma tryRemoveFile_changes_only_its_path_witness :
  let p := installDir0 ++ ["nvda.exe"] in
  let q := installDir0 ++ ["nvda_slave.exe"] in
  fs (tryRemoveFile env_delete_fails p 6 500 false world0).1 !! q = fs world0 !! q.
Proof.
  intros p q.
  apply (tryRemoveFile_changes_only_its_path env_delete_fails p 6 500 false world0 _
           (tryRemoveFile env_delete_fails p 6 500 false world0).2).
  - apply surjective_pairing.
  - apply (bool_decide_unpack _). vm_compute. exact I.
  - apply (bool_decide_unpack _). vm_compute. exact I.
Defined.

Lemma tryRemoveFile_outcomes_witness :
  let p := installDir0 ++ ["nvda.exe"] in
  let run := tryRemoveFile env_delete_fails p 6 500 true world0 in
  let tp := placeholder world0 (dirname p) in
  match run.2 with
  | Ok _ =>
      fs run.1 !! p = None ∧
      ((fs run.1 = delete p (fs world0) ∧ pending run.1 = pending world0) ∨
       (true = true ∧ fs run.1 = <[tp := File "nvda 2024"]> (delete p (fs world0)) ∧
        pending run.1 = tp :: pending world0))
  | Raise e =>
      (∃ msg, e = RetriableFailure msg) ∧ pending run.1 = pending world0 ∧
      (fs run.1 !! p = Some (File "nvda 2024") ∨ fs run.1 !! tp = Some (File "nvda 2024"))
  end.
Proof.
  intros p.
  apply (tryRemoveFile_outcomes env_delete_fails p 6 500 true world0 "nvda 2024").
  vm_compute. reflexivity.
Defined.

Lemma tryRemoveFile_missing_path_witness :
  let p := installDir0 ++ ["absent.dll"] in
  let tp := placeholder world0 (dirname p) in
  ∃ w', tryRemoveFile env_ok p 6 500 true world0 =
          (w', Raise (RetriableFailure (RenameBeforeRemoveFailed p))) ∧
        fs w' = <[tp := File ""]> (fs world0) ∧ pending w' = pending world0 ∧
        calls_of is_delete (trace w') = calls_of is_delete (trace world0).
Proof.
  intros p tp.
  apply (tryRemoveFile_missing_path env_ok p 6 500 true world0).
  - vm_compute. reflexivity.
  - apply (bool_decide_unpack _). vm_compute. exact I.
Defined.

Lemma tryCopyFile_normal_return_witness :
  let s := appDir0 ++ ["nvda_slave.exe"] in
  let d := installDir0 ++ ["nvda_slave.exe"] in
  fs (tryCopyFile env_first_copy_fails s d world0).1 !! d = Some (File "slave 2025") ∧
  ∀ q, q ≠ d → q ≠ placeholder world0 (dirname d) →
       fs (tryCopyFile env_first_copy_fails s d world0).1 !! q = fs world0 !! q.
Proof.
  intros s d.
  apply (tryCopyFile_normal_return env_first_copy_fails s d world0
           (tryCopyFile env_first_copy_fails s d world0).1 "slave 2025").
  - vm_compute. reflexivity.
  - apply run_returns. vm_compute. reflexivity.
Defined.

Lemma tryCopyFile_missing_source_witness :
  let s := appDir0 ++ ["absent.exe"] in
  let d := installDir0 ++ ["nvda.exe"] in
  let tp := placeholder world0 (dirname d) in
  ∃ w', tryCopyFile env_ok s d world0 = (w', Raise OSError) ∧
        fs w' !! d = None ∧ fs w' !! tp = Some (File "nvda 2024") ∧
        pending w' = tp :: pending world0 ∧
        calls_of is_CopyFileW (trace w') = 2 + calls_of is_CopyFileW (trace world0).
Proof.
  intros s d tp.
  apply (tryCopyFile_missing_source env_ok s d world0 "nvda 2024").
  - vm_compute. reflexivity.
  - apply (bool_decide_unpack _). vm_compute. exact I.
  - vm_compute. reflexivity.
  - intros h. reflexivity.
  - intros h. reflexivity.
Defined.

Lemma tryCopyFile_failure_without_destination_witness :
  let s := appDir0 ++ ["nvda_slave.exe"] in
  let d := installDir0 ++ ["new.exe"] in
  let run := tryCopyFile env_copy_fails s d world0 in
  (run.2 = Ok tt ∨ run.2 = Raise OSError ∨
   run.2 = Raise (RetriableFailure (RenameAfterFailedOverwrite d))) ∧
  (fs world0 !! d = None → run.2 ≠ Ok tt →
   run.2 = Raise OSError ∧ fs run.1 = fs world0 ∧ pending run.1 = pending world0).
Proof.
  intros s d run.
  apply (tryCopyFile_failure_without_destination env_copy_fails s d world0).
  apply surjective_pairing.
Defined.

(** ** Mirrors: what the copy walks produce *)

Lemma hoare_bind {A B} (P : World → Prop) (Q : A → World → Prop) (Q' : B → World → Prop)
    (m : M A) (k : A → M B) :
  hoare P m Q → (∀ a, hoare (Q a) (k a) Q') → hoare P (bind m k) Q'.
Proof.
  intros Hm Hk w w' b HP. unfold bind. destruct (m w) as [w1 [a|e]] eqn:Hrun; [|done].
  intros Hrun'. eapply Hk; [|exact Hrun']. by eapply Hm.
Qed.

Lemma hoare_ret {A} (P : World → Prop) (Q : A → World → Prop) (a : A) :
  (∀ w, P w → Q a w) → hoare P (ret a) Q.
Proof. intros H w w' b HP [= <- <-]. by apply H. Qed.

Lemma hoare_weaken {A} (P P' : World → Prop) (Q Q' : A → World → Prop) (m : M A) :
  hoare P m Q → (∀ w, P' w → P w) → (∀ a w, Q a w → Q' a w) → hoare P' m Q'.
Proof. intros Hm HP HQ w w' a HP' Hrun. apply HQ. eapply Hm; [|done]. by apply HP. Qed.

Section Mirror.

Context (env : Oracle) (src dst : path) (w0 : World).
Hypothesis Hsd : ¬ src `prefix_of` dst.
Hypothesis Hds : ¬ dst `prefix_of` src.

Lemma src_outside (rel : path) : ¬ dst `prefix_of` src ++ rel.
Proof using Hsd Hds.
  intros Hpre. destruct (prefix_weak_total dst src (src ++ rel)); [done|by apply prefix_app_r|done|done].
Qed.

Lemma mirrored_query (S : path → Prop) c ans :
  hoare (mirrored src dst w0 S) (query c ans) (λ _, mirrored src dst w0 S).
Proof. intros w w' a HP [= <- _]. exact HP. Qed.

Lemma mirrored_makedirs (S : path → Prop) (p : path) :
  hoare (mirrored src dst w0 S) (os_makedirs env p) (λ _, mirrored src dst w0 S).
Proof.
  intros w w' a [Hout Hin]. unfold os_makedirs, syscall.
  destruct (_ && _); [|done]. intros [= <- _].
  pose proof (λ P, makedirs_effect_same_file P p w true (CMakedirs p)) as Hmk.
  split.
  - intros q Hq. etrans; [by apply Hout|]. apply Hmk.
  - intros rel Hrel. destruct (Hin rel Hrel) as (c & H0 & H1). exists c. split; [done|].
    by apply (Hmk (dst ++ rel)).
Qed.

Lemma mirrored_tryCopyFile (S : path → Prop) (rel : path) (f : string) :
  hoare (mirrored src dst w0 S) (tryCopyFile env (src ++ rel ++ [f]) (dst ++ rel ++ [f]))
        (λ _, mirrored src dst w0 (λ r, S r ∨ r = rel ++ [f])).
Proof using Hsd Hds.
  intros w w' [] [Hout Hin] Hrun.
  destruct (tryCopyFile_outcome env (src ++ rel ++ [f]) (dst ++ rel ++ [f]) w)
    as (w2 & r & Hrun2 & Hframe & Hok & _ & _ & Hsrc).
  rewrite Hrun in Hrun2. injection Hrun2 as <- <-.
  set (tp := placeholder w (dirname (dst ++ rel ++ [f]))) in *.
  assert (fs w !! tp = None) as Htp by apply placeholder_fresh.
  assert (dst `prefix_of` tp) as Htpd.
  { subst tp. rewrite (app_assoc dst), dirname_snoc. unfold placeholder.
    rewrite <- app_assoc. by apply prefix_app_r. }
  assert (dst `prefix_of` dst ++ rel ++ [f]) as Hdd by (by apply prefix_app_r).
  assert (src ++ rel ++ [f] ≠ tp) as Hstp.
  { intros Heq. apply (src_outside (rel ++ [f])). by rewrite Heq. }
  assert (∃ c, fs w !! (src ++ rel ++ [f]) = Some (File c)) as [c Hc].
  { destruct (is_file (fs w) (src ++ rel ++ [f])) eqn:Hf.
    - unfold is_file in Hf. destruct (fs w !! _) as [[c|]|]; try done. by exists c.
    - by destruct (Hsrc eq_refl Hstp). }
  destruct (Hok c Hc eq_refl) as [Hd' _].
  split; [|intros r [Hr| ->]].
  - intros q Hq. etrans; [by apply Hout|]. apply same_file_lookup.
    apply Hframe; by intros ->.
  - destruct (Hin r Hr) as (c' & H0 & H1). exists c'. split; [done|].
    destruct (decide (dst ++ r = dst ++ rel ++ [f])) as [Heq|Hne].
    + apply app_inv_head in Heq. subst r.
      apply (Hout _ (src_outside _)) in H0. congruence.
    + rewrite Hframe; [done|done|]. intros Heq. rewrite Heq in H1. congruence.
  - exists c. split; [|done]. by apply (Hout _ (src_outside _)).
Qed.


Lemma mirrored_mono (S S' : path → Prop) (w : World) :
  (∀ r, S' r → S r) → mirrored src dst w0 S w → mirrored src dst w0 S' w.
Proof. intros HS [Hout Hin]. split; [done|]. intros r Hr. apply Hin. by apply HS. Qed.

Lemma copyUserConfig_files_mirror (S : path → Prop) (rel : path) (files : list string) :
  hoare (mirrored src dst w0 S)
        (copyUserConfig_files env src dst (src ++ rel) files)
        (λ _, mirrored src dst w0 (λ r, S r ∨ ∃ f, f ∈ files ∧ r = rel ++ [f])).
Proof using Hsd Hds.
  revert S. induction files as [|f files IH]; intros S.
  - apply hoare_ret. intros w. apply mirrored_mono. intros r [Hr|(f & []%elem_of_nil & _)]. done.
  - cbn [copyUserConfig_files]. rewrite <- (app_assoc src), relpath_app.
    eapply hoare_bind; [apply mirrored_tryCopyFile|]. intros ?.
    eapply hoare_weaken; [apply IH|done|]. intros ? w. apply mirrored_mono.
    intros r [Hr|(f' & Hf' & Hr)]; [left; by left|].
    apply elem_of_cons in Hf' as [Heq|Hf']; [left; right; by subst|].
    right. by exists f'.
Qed.

End Mirror.

Lemma elem_of_tree_files_dir (es : list (string * Tree)) (x : path) :
  x ∈ tree_files (TDir es) ↔
  ∃ name sub, (name, sub) ∈ es ∧
    if is_TDir sub then ∃ y, y ∈ tree_files sub ∧ x = name :: y else x = [name].
Proof.
  cbn [tree_files]. induction es as [|[name sub] es IH].
  - split; [by intros ?%elem_of_nil|]. by intros (? & ? & ?%elem_of_nil & _).
  - rewrite elem_of_app, IH. split.
    + intros [Hx|(n & s & Hin & Hx)].
      * exists name, sub. split; [by left|]. destruct (is_TDir sub).
        -- apply list_elem_of_fmap in Hx as (y & -> & Hy). by exists y.
        -- by apply list_elem_of_singleton in Hx.
      * exists n, s. split; [by right|done].
    + intros (n & s & [[= -> ->]|Hin]%elem_of_cons & Hx).
      * left. destruct (is_TDir sub).
        -- destruct Hx as (y & Hy & ->). apply list_elem_of_fmap. by exists y.
        -- by apply list_elem_of_singleton.
      * right. by exists n, s.
Qed.

Lemma elem_of_file_names (es : list (string * Tree)) (f : string) :
  f ∈ file_names es ↔ ∃ sub, (f, sub) ∈ es ∧ is_TDir sub = false.
Proof.
  unfold file_names. rewrite list_elem_of_fmap. split.
  - intros ([n sub] & -> & [H1 H2]%list_elem_of_filter). by exists sub.
  - intros (sub & Hin & Hd). exists (f, sub). split; [done|]. by apply list_elem_of_filter.
Qed.

Section MirrorWalk.

Context (env : Oracle) (src dst : path) (w0 : World).
Hypothesis Hsd : ¬ src `prefix_of` dst.
Hypothesis Hds : ¬ dst `prefix_of` src.

Lemma copyUserConfig_walk_mirror (t : Tree) :
  ∀ (rel : path) (S : path → Prop),
    hoare (mirrored src dst w0 S)
          (copyUserConfig_walk env src dst t (src ++ rel))
          (λ _, mirrored src dst w0 (λ r, S r ∨ ∃ x, x ∈ tree_files t ∧ r = rel ++ x)).
Proof using Hsd Hds.
  induction t as [|entries IH] using Tree_ind'; intros rel S.
  - apply hoare_ret. intros w. apply mirrored_mono.
    intros r [Hr|(x & []%elem_of_nil & _)]. done.
  - cbn [copyUserConfig_walk]. rewrite relpath_app.
    eapply hoare_bind; [apply mirrored_query|]. intros isd.
    eapply hoare_bind.
    { destruct (negb isd); [apply mirrored_makedirs|apply hoare_ret; intros w Hw; exact Hw]. }
    intros ?. eapply hoare_bind; [by apply copyUserConfig_files_mirror|]. intros ?.
    set (S1 := λ r, S r ∨ ∃ f, f ∈ file_names entries ∧ r = rel ++ [f]).
    eapply hoare_weaken with
      (Q := λ _, mirrored src dst w0
                   (λ r, S1 r ∨ ∃ name sub y, (name, sub) ∈ entries ∧ is_TDir sub = true ∧
                                             y ∈ tree_files sub ∧ r = rel ++ name :: y)).
    2: done.
    2:{ intros ? w. apply mirrored_mono. intros r [Hr|(x & Hx & ->)]; [left; by left|].
        apply elem_of_tree_files_dir in Hx as (name & sub & Hin & Hx).
        destruct (is_TDir sub) eqn:Hd.
        - destruct Hx as (y & Hy & ->). right. by exists name, sub, y.
        - subst x. left. right. exists name. split; [|done].
          apply elem_of_file_names. by exists sub. }
    generalize S1. clear S1.
    induction IH as [|[name sub] es Hsub _ IHes]; intros S1.
    + apply hoare_ret. intros w. apply mirrored_mono.
      intros r [Hr|(? & ? & ? & []%elem_of_nil & _)]. done.
    + eapply hoare_bind.
      { instantiate (1 := λ _, mirrored src dst w0
                                 (λ r, S1 r ∨ is_TDir sub = true ∧
                                              ∃ y, y ∈ tree_files sub ∧ r = rel ++ name :: y)).
        destruct (is_TDir sub) eqn:Hd.
        - rewrite <- (app_assoc src). eapply hoare_weaken; [apply (Hsub (rel ++ [name]))|done|].
          intros ? w. apply mirrored_mono. intros r [Hr|[_ (y & Hy & ->)]]; [by left|].
          right. exists y. by rewrite <- app_assoc.
        - apply hoare_ret. intros w. apply mirrored_mono. by intros r [Hr|[? _]]; [|done]. }
      intros ?. eapply hoare_weaken; [apply IHes|done|].
      intros ? w. apply mirrored_mono.
      intros r [Hr|(n & s & y & [[= -> ->]|Hin]%elem_of_cons & Hd & Hy & ->)].
      * left. by left.
      * left. right. split; [done|]. by exists y.
      * right. by exists n, s, y.
Qed.


Lemma copyProgramFiles_files_mirror (S : path → Prop) (rel : path) (files : list string) :
  hoare (mirrored src dst w0 S)
        (copyProgramFiles_files env src dst (src ++ rel) files)
        (λ _, mirrored src dst w0
                (λ r, S r ∨ ∃ f, f ∈ files ∧ r = rel ++ [f] ∧
                                 (rel = [] → lower f ≠ "nvda.exe"))).
Proof using Hsd Hds.
  revert S. induction files as [|f files IH]; intros S.
  - apply hoare_ret. intros w. apply mirrored_mono. intros r [Hr|(f & []%elem_of_nil & _)]. done.
  - cbn [copyProgramFiles_files].
    destruct (bool_decide (src = src ++ rel) && bool_decide (lower f = "nvda.exe")) eqn:Hskip.
    + eapply hoare_weaken; [apply IH|done|]. intros ? w. apply mirrored_mono.
      intros r [Hr|(f' & Hf' & -> & Hlow)]; [by left|].
      apply elem_of_cons in Hf' as [->|Hf']; [|right; by exists f'].
      apply andb_true_iff in Hskip as [Hrel%bool_decide_eq_true Hf%bool_decide_eq_true].
      exfalso. apply Hlow; [|done]. symmetry in Hrel.
      rewrite <- (app_nil_r src) in Hrel at 2. by apply app_inv_head in Hrel.
    + rewrite <- (app_assoc src), relpath_app.
      eapply hoare_bind; [by apply mirrored_tryCopyFile|]. intros ?.
      eapply hoare_weaken; [apply IH|done|]. intros ? w. apply mirrored_mono.
      intros r [Hr|(f' & Hf' & Hr & Hlow)]; [left; by left|].
      apply elem_of_cons in Hf' as [Heq|Hf']; [left; right; by subst|].
      right. by exists f'.
Qed.

Lemma elem_of_dir_names (es : list (string * Tree)) (d : string) :
  d ∈ dir_names es ↔ ∃ sub, (d, sub) ∈ es ∧ is_TDir sub = true.
Proof.
  unfold dir_names. rewrite list_elem_of_fmap. split.
  - intros ([n sub] & -> & [H1 H2]%list_elem_of_filter). by exists sub.
  - intros (sub & Hin & Hd). exists (d, sub). split; [done|]. by apply list_elem_of_filter.
Qed.

(** The files that the walk of [copyProgramFiles] copies from a directory
    at [rel]: at the top level, not [nvda.exe]; where the configuration
    directories are filtered, not below one of them. *)
Lemma copyProgramFiles_walk_mirror (t : Tree) :
  ∀ (rel : path) (detect : bool) (S : path → Prop),
    hoare (mirrored src dst w0 S)
          (copyProgramFiles_walk env src dst t (src ++ rel) detect)
          (λ _, mirrored src dst w0
                  (λ r, S r ∨ ∃ x, x ∈ tree_files t ∧ r = rel ++ x ∧
                          (rel = [] → ∀ f, x = [f] → lower f ≠ "nvda.exe") ∧
                          (detect = true → ∀ n y, x = n :: y → y ≠ [] →
                                           is_config_name n = false))).
Proof using Hsd Hds.
  induction t as [|entries IH] using Tree_ind'; intros rel detect S.
  - apply hoare_ret. intros w. apply mirrored_mono.
    intros r [Hr|(x & []%elem_of_nil & _)]. done.
  - cbn [copyProgramFiles_walk]. rewrite relpath_app.
    eapply hoare_bind; [apply mirrored_query|]. intros isd.
    eapply hoare_bind.
    { destruct (negb isd); [apply mirrored_makedirs|apply hoare_ret; intros w Hw; exact Hw]. }
    intros ?. eapply hoare_bind; [by apply copyProgramFiles_files_mirror|]. intros ?.
    set (S1 := λ r, S r ∨ ∃ f, f ∈ file_names entries ∧ r = rel ++ [f] ∧
                              (rel = [] → lower f ≠ "nvda.exe")).
    set (subDirs' := if detect then _ else _).
    set (detect' := if detect then false else detect).
    assert (detect' = false) as -> by (by destruct detect).
    assert (∀ name sub, (name, sub) ∈ entries → is_TDir sub = true →
                        (detect = true → is_config_name name = false) →
                        name ∈ subDirs') as Hsub'.
    { intros name sub Hin Hd Hcfg. subst subDirs'.
      assert (name ∈ dir_names entries) by (apply elem_of_dir_names; by exists sub).
      destruct detect; [|done]. apply list_elem_of_filter. split; [by apply Hcfg|done]. }
    clearbody subDirs'.
    eapply hoare_weaken with
      (Q := λ _, mirrored src dst w0
                   (λ r, S1 r ∨ ∃ name sub y, (name, sub) ∈ entries ∧ is_TDir sub = true ∧
                                             name ∈ subDirs' ∧
                                             y ∈ tree_files sub ∧ r = rel ++ name :: y)).
    2: done.
    2:{ intros ? w. apply mirrored_mono. intros r [Hr|(x & Hx & -> & Hexe & Hcfg)]; [left; by left|].
        apply elem_of_tree_files_dir in Hx as (name & sub & Hin & Hx).
        destruct (is_TDir sub) eqn:Hd.
        - destruct Hx as (y & Hy & ->). right. exists name, sub, y.
          repeat split; try done. apply (Hsub' name sub); [done|done|].
          intros Hdet. apply (Hcfg Hdet name y eq_refl).
          intros ->. clear -Hy Hd. destruct sub as [|es]; [done|].
          apply elem_of_tree_files_dir in Hy as (n & s & _ & Hy).
          destruct (is_TDir s); [by destruct Hy as (? & _ & ?)|done].
        - subst x. left. right. exists name. split; [|split; [done|]].
          + apply elem_of_file_names. by exists sub.
          + intros Hrel. by apply (Hexe Hrel name). }
    generalize S1. clear S1 Hsub'.
    induction IH as [|[name sub] es Hsub _ IHes]; intros S1.
    + apply hoare_ret. intros w. apply mirrored_mono.
      intros r [Hr|(? & ? & ? & []%elem_of_nil & _)]. done.
    + eapply hoare_bind.
      { instantiate (1 := λ _, mirrored src dst w0
                                 (λ r, S1 r ∨ (is_TDir sub = true ∧ name ∈ subDirs') ∧
                                              ∃ y, y ∈ tree_files sub ∧ r = rel ++ name :: y)).
        destruct (is_TDir sub && bool_decide (name ∈ subDirs')) eqn:Hd.
        - rewrite <- (app_assoc src).
          eapply hoare_weaken; [apply (Hsub (rel ++ [name]) false)|done|].
          intros ? w. apply mirrored_mono. intros r [Hr|[_ (y & Hy & ->)]]; [by left|].
          right. exists y. rewrite <- app_assoc. repeat split; try done.
          intros Hnil. by destruct rel.
        - apply hoare_ret. intros w. apply mirrored_mono.
          intros r [Hr|[[H1 H2] _]]; [done|].
          rewrite H1, bool_decide_true in Hd by done. done. }
      intros ?. eapply hoare_weaken; [apply IHes|done|].
      intros ? w. apply mirrored_mono.
      intros r [Hr|(n & s & y & [[= -> ->]|Hin]%elem_of_cons & Hd & Hn & Hy & ->)].
      * left. by left.
      * left. right. split; [done|]. by exists y.
      * right. by exists n, s, y.
Qed.

End MirrorWalk.

(** X8.  When [copyUserConfig] returns normally, every file of the
    configuration tree is in the destination, at the same relative path,
    with the content it has in the configuration directory; outside the
    destination no file has been created, changed or removed.  The two
    directories are apart. *)
Theorem copyUserConfig_mirrors env configDir configTree destPath w w' :
  ¬ configDir `prefix_of` destPath → ¬ destPath `prefix_of` configDir →
  copyUserConfig env configDir configTree destPath w = (w', Ok tt) →
  (∀ rel, rel ∈ tree_files configTree →
     ∃ c, fs w !! (configDir ++ rel) = Some (File c) ∧
          fs w' !! (destPath ++ rel) = Some (File c)) ∧
  (∀ q, ¬ destPath `prefix_of` q → same_file q w w').
Proof.
  intros Hsd Hds Hrun. unfold copyUserConfig in Hrun.
  rewrite <- (app_nil_r configDir) in Hrun at 2.
  pose proof (copyUserConfig_walk_mirror env configDir destPath w Hsd Hds configTree []
                (λ _, False) w w' tt) as [Hout Hin].
  - split; [done|]. by intros rel [].
  - exact Hrun.
  - split; [|done]. intros rel Hrel. apply Hin. right. by exists rel.
Qed.

(** X9.  When [copyProgramFiles] returns normally, every file of the program
    tree, the top-level [nvda.exe] and what lies in a top-level [userConfig]
    or [systemConfig] directory left out, is in the destination, at the same
    relative path, with the content it has in the program directory; outside
    the destination no file has been created, changed or removed.  The two
    directories are apart. *)
Theorem copyProgramFiles_mirrors env appDir appTree destPath w w' :
  ¬ appDir `prefix_of` destPath → ¬ destPath `prefix_of` appDir →
  copyProgramFiles env appDir appTree destPath w = (w', Ok tt) →
  (∀ rel, rel ∈ tree_files appTree →
     (∀ f, rel = [f] → lower f ≠ "nvda.exe") →
     (∀ n y, rel = n :: y → y ≠ [] → is_config_name n = false) →
     ∃ c, fs w !! (appDir ++ rel) = Some (File c) ∧
          fs w' !! (destPath ++ rel) = Some (File c)) ∧
  (∀ q, ¬ destPath `prefix_of` q → same_file q w w').
Proof.
  intros Hsd Hds Hrun. unfold copyProgramFiles in Hrun.
  rewrite <- (app_nil_r appDir) in Hrun at 2.
  pose proof (copyProgramFiles_walk_mirror env appDir destPath w Hsd Hds appTree [] true
                (λ _, False) w w' tt) as [Hout Hin].
  - split; [done|]. by intros rel [].
  - exact Hrun.
  - split; [|done]. intros rel Hrel Hexe Hcfg. apply Hin. right. exists rel.
    repeat split; done.
Qed.

Lemma copyUserConfig_mirrors_witness :
  let configDir := appDir0 ++ ["userConfig"] in
  let destPath := installDir0 ++ ["userConfig"] in
  let configTree := TDir [("nvda.ini", TFile)] in
  (∀ rel, rel ∈ tree_files configTree →
     ∃ c, fs world0 !! (configDir ++ rel) = Some (File c) ∧
          fs (copyUserConfig env_ok configDir configTree destPath world0).1
            !! (destPath ++ rel) = Some (File c)) ∧
  (∀ q, ¬ destPath `prefix_of` q →
        same_file q world0 (copyUserConfig env_ok configDir configTree destPath world0).1).
Proof.
  intros configDir destPath configTree.
  apply (copyUserConfig_mirrors env_ok configDir configTree destPath world0
           (copyUserConfig env_ok configDir configTree destPath world0).1).
  - apply (bool_decide_unpack _). vm_compute. exact I.
  - apply (bool_decide_unpack _). vm_compute. exact I.
  - apply run_returns. vm_compute. reflexivity.
Defined.

Lemma copyProgramFiles_mirrors_witness :
  (∀ rel, rel ∈ tree_files appTree0 →
     (∀ f, rel = [f] → lower f ≠ "nvda.exe") →
     (∀ n y, rel = n :: y → y ≠ [] → is_config_name n = false) →
     ∃ c, fs world0 !! (appDir0 ++ rel) = Some (File c) ∧
          fs (copyProgramFiles env_ok appDir0 appTree0 installDir0 world0).1
            !! (installDir0 ++ rel) = Some (File c)) ∧
  (∀ q, ¬ installDir0 `prefix_of` q →
        same_file q world0 (copyProgramFiles env_ok appDir0 appTree0 installDir0 world0).1).
Proof.
  apply (copyProgramFiles_mirrors env_ok appDir0 appTree0 installDir0 world0
           (copyProgramFiles env_ok appDir0 appTree0 installDir0 world0).1).
  - apply (bool_decide_unpack _). vm_compute. exact I.
  - apply (bool_decide_unpack _). vm_compute. exact I.
  - apply run_returns. vm_compute. reflexivity.
Defined.

(** ** The documentation page of a language *)

Lemma getDocFilePath_try_find (rootPath : path) (fileName : string) (langs : list string) w :
  ∃ w', getDocFilePath_try rootPath fileName langs w =
          (w', Ok ((λ L, os_path_join rootPath L ++ [fileName +:+ ".html"]) <$>
                   find (has_doc (fs w) rootPath (fileName +:+ ".html")) langs)) ∧
        fs w' = fs w ∧ pending w' = pending w.
Proof.
  revert w. induction langs as [|L langs IH]; intros w.
  - by exists w.
  - cbn [getDocFilePath_try find]. unfold has_doc at 1.
    unfold bind at 1, os_path_isdir, query.
    destruct (is_dir (fs w) (os_path_join rootPath L)); cbn [negb andb].
    + unfold bind at 1, os_path_isfile, query. wsimpl.
      destruct (is_file (fs w) _).
      * eexists. split; [reflexivity|]. done.
      * destruct (IH (record (CIsfile (os_path_join rootPath L ++ [fileName +:+ ".html"])) false
                        (record (CIsdir (os_path_join rootPath L)) true w)))
          as (w' & -> & ? & ?). by exists w'.
    + destruct (IH (record (CIsdir (os_path_join rootPath L)) false w)) as (w' & -> & ? & ?).
      by exists w'.
Qed.

(** X10.  [getDocFilePath] returns the page of the first language, among the
    current language, its base language and English, for which the page
    exists, and [None] when there is none; it changes no file. *)
Theorem getDocFilePath_first_language (lang fileName : string) (installDir : path) (w : World) :
  let rootPath := installDir ++ ["documentation"] in
  let page := (os_path_splitext fileName).1 +:+ ".html" in
  ∃ w', getDocFilePath lang fileName installDir w =
          (w', Ok ((λ L, os_path_join rootPath L ++ [page]) <$>
                   find (has_doc (fs w) rootPath page) (tryLangs lang))) ∧
        fs w' = fs w ∧ pending w' = pending w.
Proof.
  cbv zeta. unfold getDocFilePath. destruct (os_path_splitext fileName) as [root ext].
  apply getDocFilePath_try_find.
Qed.

Lemma splitext_examples :
  os_path_splitext "keyCommands.html" = ("keyCommands", ".html") ∧
  os_path_splitext "a.b.c" = ("a.b", ".c") ∧
  os_path_splitext ".bashrc" = (".bashrc", "") ∧
  os_path_splitext "..x" = ("..x", "") ∧
  os_path_splitext "noext" = ("noext", "") ∧
  os_path_splitext "x." = ("x", ".") ∧
  tryLangs "pt_BR" = ["pt_BR"; "pt"; "en"] ∧ tryLangs "fr" = ["fr"; "en"].
Proof. repeat split. Qed.

(** ** Old program files *)

#[global] Instance keeps_entry_preorder q nd : PreOrder (keeps_entry q nd).
Proof. split; [by intros w ?|]. intros w1 w2 w3 H1 H2 H. by apply H2, H1. Qed.

Lemma tryRemoveFile_keeps_entry env p n iv rb q nd :
  q ≠ p → steps (keeps_entry q nd) any (tryRemoveFile env p n iv rb).
Proof.
  intros Hq w w' r Hrun. split; [|done]. intros Hex.
  destruct (tryRemoveFile_touches_only_path _ _ _ _ _ _ _ _ Hrun) as [Hframe _].
  rewrite Hframe; [done|done|]. intros ->. by rewrite placeholder_fresh in Hex.
Qed.

Section ProgramWalkSteps.

Context (env : Oracle) (destPath : path).
Context (R : relation World) `{!PreOrder R}.

Hypothesis Hremove : ∀ rel f, top_walked rel → has_old_suffix f = true →
  steps R any (tryRemoveFile env (destPath ++ rel ++ [f]) 6 500 false).

Lemma removeOldProgramFiles_files_steps (rel : path) (files : list string) :
  top_walked rel →
  steps R any (removeOldProgramFiles_files env (destPath ++ rel) files).
Proof using Hremove PreOrder0.
  intros Hrel. induction files as [|f files IH]; [by apply (steps_ret R)|].
  cbn [removeOldProgramFiles_files]. apply (steps_bind R any); [|done].
  destruct (has_old_suffix f) eqn:Hf; [|by apply (steps_ret R)].
  apply (steps_except_RetriableFailure R); [|by apply (steps_ret R)].
  rewrite <- app_assoc. by apply Hremove.
Qed.

Lemma top_walked_child (rel : path) (name : string) :
  top_walked rel → (rel = [] → is_kept_top name = false) → top_walked (rel ++ [name]).
Proof.
  intros Hrel Hname n rest Heq. destruct rel as [|n' rel'].
  - injection Heq as <- _. by apply Hname.
  - injection Heq as <- _. by eapply Hrel.
Qed.

Lemma removeOldProgramFiles_walk_steps (t : Tree) :
  ∀ rel, top_walked rel →
    steps R any (removeOldProgramFiles_walk env destPath t (destPath ++ rel)).
Proof using Hremove PreOrder0.
  induction t as [|entries IH] using Tree_ind'; intros rel Hrel.
  - by apply (steps_ret R).
  - cbn [removeOldProgramFiles_walk].
    apply (steps_bind R any); [by apply removeOldProgramFiles_files_steps|].
    intros _ _.
    set (subDirs' := if bool_decide _ then _ else _).
    assert (∀ name, name ∈ subDirs' → rel = [] → is_kept_top name = false) as Hkeep.
    { intros name Hin ->. subst subDirs'. rewrite app_nil_r, bool_decide_true in Hin by done.
      by apply list_elem_of_filter in Hin as [? _]. }
    clearbody subDirs'.
    induction IH as [|[name sub] es Hsub _ IHes]; [by apply (steps_ret R)|].
    apply (steps_bind R any); [|intros _ _; apply IHes].
    destruct (is_TDir sub && bool_decide (name ∈ subDirs')) eqn:Hdesc;
      [|by apply (steps_ret R)].
    apply andb_true_iff in Hdesc as [_ Hin%bool_decide_eq_true].
    rewrite <- (app_assoc destPath). apply Hsub.
    apply top_walked_child; [done|]. by apply Hkeep.
Qed.

End ProgramWalkSteps.

Lemma voices_each_keeps_entry env (root : path) (files : list string) q nd :
  (∀ x, x ∈ files → ¬ (root ++ [x]) `prefix_of` q) →
  steps (keeps_entry q nd) any (removeOldProgramFiles_voices_each env root files).
Proof.
  set (R := keeps_entry q nd).
  induction files as [|x files IH]; intros Hq; [by apply (steps_ret R)|].
  cbn [removeOldProgramFiles_voices_each].
  assert (¬ (root ++ [x]) `prefix_of` q) as Hx by (apply Hq; by left).
  apply (steps_bind R any); [apply (steps_query R); by intros w b ?|]. intros isd _.
  apply (steps_bind R any).
  - apply steps_if; apply (steps_syscall R); intros w; try (by intros ?); intros _ Hex; wsimpl.
    + rewrite remove_subtree_lookup. unfold under. by rewrite bool_decide_false.
    + rewrite lookup_delete_ne; [done|]. by intros <-.
  - intros _ _. apply IH. intros y Hy. apply Hq. by right.
Qed.

Lemma removeOldProgramFiles_keeps_entry env set_order destTree destPath q nd :
  (∀ x, x ≠ "!v" →
        ¬ (destPath ++ ["synthDrivers"; "espeak-ng-data"; "voices"; x]) `prefix_of` q) →
  (∀ rel f, top_walked rel → has_old_suffix f = true → q ≠ destPath ++ rel ++ [f]) →
  steps (keeps_entry q nd) any (removeOldProgramFiles env set_order destTree destPath).
Proof.
  intros Hvoice Hq. set (R := keeps_entry q nd).
  unfold removeOldProgramFiles. apply (steps_bind R any).
  - unfold removeOldProgramFiles_voices.
    apply (steps_bind R any).
    + apply (steps_except_OSError R); [|by apply (steps_ret R)].
      apply (steps_bind R any); [|intros; by apply (steps_ret R)].
      intros w1 w2 r1. unfold os_listdir. destruct (is_dir _ _); by intros [= <- <-].
    + intros [l|] _; [|by apply (steps_ret R)].
      apply voices_each_keeps_entry. intros x [Hx _]%list_elem_of_filter.
      rewrite <- app_assoc. by apply Hvoice.
  - intros _ _. pose proof (removeOldProgramFiles_walk_steps env destPath R) as Hwalk.
    specialize (Hwalk ltac:(intros rel f Hrel Hf; apply tryRemoveFile_keeps_entry;
                            by apply Hq)).
    specialize (Hwalk destTree []). rewrite app_nil_r in Hwalk. by apply Hwalk.
Qed.

(** X11.  [removeOldProgramFiles] leaves in place every entry that is not below a
    voice other than the variants and that either has a name without one of
    the five suffixes or lies below a top-level directory that the walk
    skips. *)
Theorem removeOldProgramFiles_spares env set_order destTree destPath w w' r q nd :
  removeOldProgramFiles env set_order destTree destPath w = (w', r) →
  fs w !! q = Some nd →
  (∀ x, x ≠ "!v" →
        ¬ (destPath ++ ["synthDrivers"; "espeak-ng-data"; "voices"; x]) `prefix_of` q) →
  (∀ f, last q = Some f → has_old_suffix f = false) ∨
  (∃ n rest, is_kept_top n = true ∧ rest ≠ [] ∧ q = destPath ++ n :: rest) →
  fs w' !! q = Some nd.
Proof.
  intros Hrun Hex Hvoice Hq.
  destruct (removeOldProgramFiles_keeps_entry env set_order destTree destPath q nd Hvoice)
    with (w := w) (w' := w') (r := r) as [HR _]; [|done|by apply HR].
  intros rel f Hrel Hf ->. destruct Hq as [Hq|(n & rest & Hn & Hrest & Hq)].
  - specialize (Hq f). rewrite app_assoc, last_snoc in Hq. specialize (Hq eq_refl). congruence.
  - apply app_inv_head in Hq. destruct rel as [|n' rel'].
    + injection Hq as _ <-. done.
    + injection Hq as -> _. by rewrite (Hrel n rel' eq_refl) in Hn.
Qed.

Lemma well_formed_ancestor (f : FS) (p : path) (x : string) (rest : path) :
  well_formed f → rest ≠ [] → is_Some (f !! (p ++ x :: rest)) → f !! (p ++ [x]) = Some Dir.
Proof.
  intros Hwf. induction rest as [|y rest IH] using rev_ind; [done|]. intros _ [nd Hq].
  destruct (Hwf _ _ Hq) as [Hlen|Hdir].
  { rewrite length_app in Hlen. cbn in Hlen. rewrite length_app in Hlen. cbn in Hlen. lia. }
  replace (p ++ x :: rest ++ [y]) with ((p ++ x :: rest) ++ [y]) in Hdir
    by (by rewrite <- app_assoc).
  rewrite dirname_snoc in Hdir. destruct rest as [|z rest']; [done|].
  apply IH; [done|by eexists].
Qed.

Lemma well_formed_delete_file (f : FS) (p : path) (c : content) :
  well_formed f → f !! p = Some (File c) → well_formed (delete p f).
Proof.
  intros Hwf Hp k nd [Hne Hk]%lookup_delete_Some.
  destruct (Hwf _ _ Hk) as [?|Hdir]; [by left|]. right.
  rewrite lookup_delete_ne; [done|]. congruence.
Qed.

Lemma well_formed_remove_subtree (f : FS) (d : path) :
  well_formed f → well_formed (remove_subtree d f).
Proof.
  intros Hwf k nd Hk. rewrite remove_subtree_lookup in Hk.
  destruct (under d k) eqn:Hu; [done|].
  destruct (Hwf _ _ Hk) as [?|Hdir]; [by left|]. right.
  rewrite remove_subtree_lookup.
  destruct (under d (dirname k)) eqn:Hu'; [|done].
  unfold under in Hu, Hu'. apply bool_decide_eq_true in Hu'. apply bool_decide_eq_false in Hu.
  exfalso. apply Hu. etrans; [exact Hu'|]. unfold dirname.
  destruct k as [|y k _] using rev_ind; [done|]. rewrite removelast_last. by apply prefix_app_r.
Qed.

Lemma voices_each_cleared env (root : path) (files : list string) (w w' : World) :
  removeOldProgramFiles_voices_each env root files w = (w', Ok tt) →
  well_formed (fs w) →
  well_formed (fs w') ∧
  (∀ q, fs w !! q = None → fs w' !! q = None) ∧
  (∀ x rest, x ∈ files → fs w' !! (root ++ x :: rest) = None).
Proof.
  revert w. induction files as [|x files IH]; intros w.
  - intros [= <-] Hwf. split; [done|]. split; [done|]. by intros x rest ?%elem_of_nil.
  - cbn [removeOldProgramFiles_voices_each]. unfold bind at 1, os_path_isdir, query.
    unfold bind at 1. intros Hrun Hwf.
    assert (∃ w2, removeOldProgramFiles_voices_each env root files w2 = (w', Ok tt) ∧
                  well_formed (fs w2) ∧
                  (∀ q, fs w !! q = None → fs w2 !! q = None) ∧
                  (∀ rest, fs w2 !! (root ++ x :: rest) = None)) as (w2 & Hrun2 & Hwf2 & Hn2 & Hx2).
    { destruct (is_dir (fs w) (root ++ [x])) eqn:Hd.
      - unfold shutil_rmtree, syscall in Hrun. wsimpl in Hrun. rewrite Hd in Hrun.
        destruct (env _ _); [done|]. cbn [andb negb] in Hrun.
        eexists. split; [exact Hrun|]. wsimpl.
        split; [by apply well_formed_remove_subtree|]. split.
        + intros q Hq. rewrite remove_subtree_lookup. by destruct (under _ _).
        + intros rest. rewrite remove_subtree_lookup. unfold under.
          rewrite bool_decide_true; [done|]. by exists rest; rewrite <- app_assoc.
      - unfold os_remove, syscall in Hrun. wsimpl in Hrun.
        destruct (is_file (fs w) (root ++ [x])) eqn:Hf; [|done].
        destruct (env _ _); [done|]. cbn [andb negb] in Hrun.
        unfold is_file in Hf. destruct (fs w !! (root ++ [x])) as [[c|]|] eqn:Hc; try done.
        eexists. split; [exact Hrun|]. wsimpl.
        split; [by eapply well_formed_delete_file|]. split.
        + intros q Hq. by rewrite lookup_delete_None; right.
        + intros rest. apply lookup_delete_None. destruct rest as [|y rest]; [by left|right].
          destruct (fs w !! (root ++ x :: y :: rest)) as [nd|] eqn:Hq; [|done].
          assert (fs w !! (root ++ [x]) = Some Dir) as Hdir.
          { apply (well_formed_ancestor (fs w) root x (y :: rest)); [done|done|by eexists]. }
          congruence. }
    destruct (IH w2 Hrun2 Hwf2) as (Hwf' & Hn' & Hx').
    split; [done|]. split; [by auto|].
    intros y rest [->|Hy]%elem_of_cons; [by apply Hn'|by apply Hx'].
Qed.

(** X12.  When the first part of [removeOldProgramFiles] returns normally,
    nothing is left in the voices directory but the variants: every other
    entry of the directory is gone, with all that it contained. *)
Theorem removeOldProgramFiles_voices_cleared env set_order destPath w w' :
  let voices := destPath ++ ["synthDrivers"; "espeak-ng-data"; "voices"] in
  well_formed (fs w) →
  (∀ l x, x ∈ l → x ∈ set_order l) →
  is_dir (fs w) voices = true →
  removeOldProgramFiles_voices env set_order destPath w = (w', Ok tt) →
  ∀ x rest, x ≠ "!v" → fs w' !! (voices ++ x :: rest) = None.
Proof.
  intros voices Hwf Hord Hd Hrun x rest Hx.
  unfold removeOldProgramFiles_voices in Hrun. fold voices in Hrun.
  unfold bind at 1, except_OSError, bind, os_listdir in Hrun. rewrite Hd in Hrun.
  cbn in Hrun.
  destruct (voices_each_cleared _ _ _ _ _ Hrun Hwf) as (_ & Hn & Hcl).
  destruct (fs w !! (voices ++ x :: rest)) as [nd|] eqn:Hq; [|by apply Hn].
  apply Hcl. apply list_elem_of_filter. split; [done|]. apply Hord.
  unfold listdir. apply elem_of_remove_dups.
  eapply names_below_spec; [|reflexivity]. by eexists.
Qed.

Lemma well_formed_files1 : well_formed files1.
Proof. apply (bool_decide_unpack _). vm_compute. exact I. Qed.

Lemma removeOldProgramFiles_spares_witness :
  fs (removeOldProgramFiles env_ok id installTree1 installDir0 world1).1
    !! (installDir0 ++ ["userConfig"; "addon.pyd"]) = Some (File "add-on").
Proof.
  apply (removeOldProgramFiles_spares env_ok id installTree1 installDir0 world1
           (removeOldProgramFiles env_ok id installTree1 installDir0 world1).1
           (removeOldProgramFiles env_ok id installTree1 installDir0 world1).2).
  - apply surjective_pairing.
  - vm_compute. reflexivity.
  - intros x _ [k Hk]. cbn in Hk. discriminate Hk.
  - right. exists "userConfig", ["addon.pyd"]. split; [vm_compute; reflexivity|].
    split; [discriminate|reflexivity].
Defined.

(** What [removeOldProgramFiles] removes on the same world: the compiled
    files outside the configuration, and the voices other than the
    variants. *)
Lemma removeOldProgramFiles_example :
  let run := removeOldProgramFiles env_ok id installTree1 installDir0 world1 in
  run.2 = Ok tt ∧
  fs run.1 !! (installDir0 ++ ["library.pyc"]) = None ∧
  fs run.1 !! (installDir0 ++ ["synthDrivers"; "espeak.pyd"]) = None ∧
  fs run.1 !! (voices0 ++ ["en"]) = None ∧
  fs run.1 !! (voices0 ++ ["roa"; "fr"]) = None.
Proof. vm_compute. repeat split. Qed.

Lemma removeOldProgramFiles_voices_cleared_witness :
  fs (removeOldProgramFiles_voices env_ok id installDir0 world1).1
    !! (voices0 ++ ["roa"; "fr"]) = None ∧
  fs (removeOldProgramFiles_voices env_ok id installDir0 world1).1
    !! (voices0 ++ ["en"]) = None.
Proof.
  assert (removeOldProgramFiles_voices env_ok id installDir0 world1 =
            ((removeOldProgramFiles_voices env_ok id installDir0 world1).1, Ok tt)) as Hrun.
  { apply run_returns. vm_compute. reflexivity. }
  assert (is_dir (fs world1) (installDir0 ++ ["synthDrivers"; "espeak-ng-data"; "voices"])
          = true) as Hdir.
  { vm_compute. reflexivity. }
  split.
  - apply (removeOldProgramFiles_voices_cleared env_ok id installDir0 world1 _
             well_formed_files1 (λ l x Hx, Hx) Hdir Hrun "roa" ["fr"]). discriminate.
  - apply (removeOldProgramFiles_voices_cleared env_ok id installDir0 world1 _
             well_formed_files1 (λ l x Hx, Hx) Hdir Hrun "en" []). discriminate.
Defined.

(** ** Old libraries: best effort *)

Lemma never_raises_ret {A} (a : A) : never_raises (ret a).
Proof. intros w. by exists w, a. Qed.

Lemma never_raises_bind {A B} (m : M A) (k : A → M B) :
  never_raises m → (∀ a, never_raises (k a)) → never_raises (bind m k).
Proof.
  intros Hm Hk w. unfold bind. destruct (Hm w) as (w1 & a & ->). apply Hk.
Qed.

Lemma never_raises_except_rmdir env p : never_raises (except_OSError (os_rmdir env p) (ret tt)).
Proof.
  intros w. unfold except_OSError, os_rmdir, syscall.
  match goal with |- context [if ?b then _ else _] => destruct b end; by eexists _, _.
Qed.

Lemma never_raises_except_tryRemoveFile env p n iv rb :
  never_raises (except_RetriableFailure (tryRemoveFile env p n iv rb) (ret tt)).
Proof.
  intros w. unfold except_RetriableFailure.
  destruct (tryRemoveFile env p n iv rb w) as [w' r] eqn:Hrun.
  destruct (tryRemoveFile_touches_only_path _ _ _ _ _ _ _ _ Hrun) as (_ & _ & [->|[msg ->]]);
    by eexists _, _.
Qed.

Lemma removeOldLibFiles_walk_never_raises env cur rebootOK (t : Tree) :
  ∀ parent, never_raises (removeOldLibFiles_walk env cur rebootOK t parent).
Proof.
  induction t as [|entries IH] using Tree_ind'; intros parent; [apply never_raises_ret|].
  cbn [removeOldLibFiles_walk]. apply never_raises_bind.
  - induction IH as [|[name sub] es Hsub _ IHes]; [apply never_raises_ret|].
    apply never_raises_bind; [apply Hsub|]. intros _. apply IHes.
  - intros _. case_bool_decide; [apply never_raises_ret|].
    apply never_raises_bind.
    + induction (dir_names entries) as [|d ds IHd]; [apply never_raises_ret|].
      cbn [removeOldLibFiles_dirs]. apply never_raises_bind; [|intros _; apply IHd].
      case_bool_decide; [apply never_raises_except_rmdir|apply never_raises_ret].
    + intros _. induction (file_names entries) as [|f fs IHf]; [apply never_raises_ret|].
      cbn [removeOldLibFiles_files]. apply never_raises_bind; [|intros _; apply IHf].
      apply never_raises_except_tryRemoveFile.
Qed.

Lemma removeOldLibFiles_never_raises env version destTree destPath rebootOK :
  never_raises (removeOldLibFiles env version destTree destPath rebootOK).
Proof.
  unfold removeOldLibFiles.
  induction ["lib"; "lib64"; "libArm64"] as [|T tops IH]; [apply never_raises_ret|].
  cbn [removeOldLibFiles_tops]. apply never_raises_bind; [|intros _; apply IH].
  destruct (child destTree T); [apply removeOldLibFiles_walk_never_raises|apply never_raises_ret].
Qed.

Lemma removeOldProgramFiles_walk_never_raises env destPath (t : Tree) :
  ∀ cur, never_raises (removeOldProgramFiles_walk env destPath t cur).
Proof.
  induction t as [|entries IH] using Tree_ind'; intros cur; [apply never_raises_ret|].
  cbn [removeOldProgramFiles_walk]. apply never_raises_bind.
  - induction (file_names entries) as [|f fs IHf]; [apply never_raises_ret|].
    cbn [removeOldProgramFiles_files]. apply never_raises_bind; [|intros _; apply IHf].
    destruct (has_old_suffix f); [apply never_raises_except_tryRemoveFile|apply never_raises_ret].
  - intros _. generalize (if bool_decide (cur = destPath)
                          then filter (λ x, is_kept_top x = false) (dir_names entries)
                          else dir_names entries). intros subDirs'.
    induction IH as [|[name sub] es Hsub _ IHes]; [apply never_raises_ret|].
    apply never_raises_bind; [|intros _; apply IHes].
    destruct (_ && _); [apply Hsub|apply never_raises_ret].
Qed.

(** The generic walk of [removeOldLibFiles]. *)
Section LibWalkSteps.

Context (env : Oracle) (destPath : path) (version : string) (rebootOK : bool).
Context (R : relation World) `{!PreOrder R}.

Hypothesis Hrmdir : ∀ T rel x, T ∈ libDirs → rel ≠ [version] →
  destPath ++ T :: rel ++ [x] ≠ destPath ++ [T; version] →
  steps R any (os_rmdir env (destPath ++ T :: rel ++ [x])).
Hypothesis Hremove : ∀ T rel x, T ∈ libDirs → rel ≠ [version] →
  steps R any (tryRemoveFile env (destPath ++ T :: rel ++ [x]) 2 500 rebootOK).

Lemma removeOldLibFiles_walk_steps (T : string) (t : Tree) :
  T ∈ libDirs →
  ∀ rel, steps R any (removeOldLibFiles_walk env (destPath ++ [T; version]) rebootOK t
                        (destPath ++ T :: rel)).
Proof using Hrmdir Hremove PreOrder0.
  intros HT. induction t as [|entries IH] using Tree_ind'; intros rel.
  - by apply (steps_ret R).
  - cbn [removeOldLibFiles_walk]. apply (steps_bind R any).
    + induction IH as [|[name sub] es Hsub _ IHes]; [by apply (steps_ret R)|].
      apply (steps_bind R any); [|intros _ _; apply IHes].
      rewrite <- app_assoc. apply (Hsub (rel ++ [name])).
    + intros _ _. case_bool_decide as Hcur; [by apply (steps_ret R)|].
      assert (rel ≠ [version]) as Hrel by (by intros ->).
      apply (steps_bind R any).
      * induction (dir_names entries) as [|d ds IHd]; [by apply (steps_ret R)|].
        cbn [removeOldLibFiles_dirs]. apply (steps_bind R any); [|intros _ _; apply IHd].
        case_bool_decide as Hguard; [|by apply (steps_ret R)].
        apply (steps_except_OSError R); [|by apply (steps_ret R)].
        rewrite lib_parent in *. by apply Hrmdir.
      * intros _ _. induction (file_names entries) as [|f fs IHf]; [by apply (steps_ret R)|].
        cbn [removeOldLibFiles_files]. apply (steps_bind R any); [|intros _ _; apply IHf].
        apply (steps_except_RetriableFailure R); [|by apply (steps_ret R)].
        rewrite lib_parent. by apply Hremove.
Qed.

Lemma removeOldLibFiles_steps (destTree : Tree) :
  steps R any (removeOldLibFiles env version destTree destPath rebootOK).
Proof using Hrmdir Hremove PreOrder0.
  unfold removeOldLibFiles. fold libDirs.
  assert (Forall (λ T, T ∈ libDirs) libDirs) as Htops by (by apply Forall_forall).
  induction Htops as [|T tops HT _ IH]; [by apply (steps_ret R)|].
  cbn [removeOldLibFiles_tops]. apply (steps_bind R any); [|intros _ _; apply IH].
  destruct (child destTree T) as [t|]; [|by apply (steps_ret R)].
  by apply (removeOldLibFiles_walk_steps T t HT []).
Qed.

End LibWalkSteps.

Lemma removeOldLibFiles_keeps_entry env version destTree destPath rebootOK q nd :
  (∀ T rel x, T ∈ libDirs → q = destPath ++ T :: rel ++ [x] → rel = [version]) →
  steps (keeps_entry q nd) any (removeOldLibFiles env version destTree destPath rebootOK).
Proof.
  intros Hq. apply removeOldLibFiles_steps; [apply _| |].
  - intros T rel x HT Hrel _.
    apply (steps_syscall (keeps_entry q nd)); intros w; [by intros ?|].
    intros _ Hex. wsimpl. rewrite lookup_delete_ne; [done|]. intros <-.
    by apply Hrel, (Hq T rel x).
  - intros T rel x HT Hrel. apply tryRemoveFile_keeps_entry. intros ->.
    by apply Hrel, (Hq T rel x).
Qed.

(** X13.  [removeOldLibFiles] always returns normally, whatever removal fails, and
    leaves in place every entry that is not strictly inside one of the three
    library directories, as well as every entry of the directory of the
    current version. *)
Theorem removeOldLibFiles_best_effort env version destTree destPath rebootOK w :
  ∃ w', removeOldLibFiles env version destTree destPath rebootOK w = (w', Ok tt) ∧
        ∀ q nd, fs w !! q = Some nd →
                (∀ T rel x, T ∈ libDirs → q = destPath ++ T :: rel ++ [x] →
                            rel = [version]) →
                fs w' !! q = Some nd.
Proof.
  destruct (removeOldLibFiles_never_raises env version destTree destPath rebootOK w)
    as (w' & [] & Hrun).
  exists w'. split; [done|]. intros q nd Hex Hq.
  destruct (removeOldLibFiles_keeps_entry env version destTree destPath rebootOK q nd Hq
              _ _ _ Hrun) as [HR _].
  by apply HR.
Qed.

Lemma tryRemoveFile_keeps_dir env p n iv rb q :
  steps (keeps_entry q Dir) any (tryRemoveFile env p n iv rb).
Proof.
  destruct (decide (q = p)) as [->|Hne]; [|by apply tryRemoveFile_keeps_entry].
  intros w w' r Hrun. split; [|done]. intros Hex.
  rewrite tryRemoveFile_unfold in Hrun. cbv zeta in Hrun.
  set (tp := placeholder w (dirname p)) in *.
  assert (fs w !! tp = None) as Htp by apply placeholder_fresh.
  assert (p ≠ tp) as Hptp by congruence.
  set (w1 := record _ _ _) in Hrun.
  destruct (tryRemoveFile_rest_frame env p tp n iv rb w1 "") as (w2 & r2 & Hrun2 & _ & _ & _ & Hnf).
  { subst w1. wsimpl. apply lookup_insert_eq. }
  rewrite Hrun in Hrun2. injection Hrun2 as <- <-.
  destruct Hnf as (_ & Hfs & _).
  { subst w1. wsimpl. unfold is_file. by rewrite lookup_insert_ne, Hex. }
  rewrite Hfs. subst w1. wsimpl. by rewrite lookup_insert_ne.
Qed.

(** X14.  [removeOldLibFiles] never removes the library directory of the
    current version: where it is a directory before the call, in any of the
    three library directories, it is a directory after it, whatever the
    tree that the walk is given and whatever fails. *)
Theorem removeOldLibFiles_keeps_current_directory env version destTree destPath rebootOK w T :
  let cur := destPath ++ [T; version] in
  is_dir (fs w) cur = true →
  is_dir (fs (removeOldLibFiles env version destTree destPath rebootOK w).1) cur = true.
Proof.
  intros cur Hdir.
  assert (fs w !! cur = Some Dir) as Hex.
  { unfold is_dir in Hdir. by destruct (fs w !! cur) as [[|]|]. }
  assert (steps (keeps_entry cur Dir) any
            (removeOldLibFiles env version destTree destPath rebootOK)) as Hsteps.
  { apply removeOldLibFiles_steps; [apply _| |].
    - intros T' rel x _ _ Hguard.
      apply (steps_syscall (keeps_entry cur Dir)); intros w1; [by intros ?|].
      intros _ Hq. wsimpl. rewrite lookup_delete_ne; [done|]. intros Heq.
      apply Hguard. rewrite Heq. subst cur. apply app_inv_head in Heq.
      by injection Heq as -> _.
    - intros T' rel x _ _. apply tryRemoveFile_keeps_dir. }
  destruct (removeOldLibFiles env version destTree destPath rebootOK w) as [w' r] eqn:Hrun.
  destruct (Hsteps _ _ _ Hrun) as [HR _]. cbn [fst]. unfold is_dir. by rewrite (HR Hex).
Qed.

Lemma removeOldLibFiles_keeps_current_directory_witness :
  let cur := installDir0 ++ ["lib"; version0] in
  is_dir (fs (removeOldLibFiles env_ok version0 installTree0 installDir0 true world0).1) cur
    = true.
Proof.
  intros cur.
  apply (removeOldLibFiles_keeps_current_directory env_ok version0 installTree0 installDir0
           true world0 "lib").
  vm_compute. reflexivity.
Defined.

(** ** The portable copy *)

Lemma steps_finally (R : relation World) `{!PreOrder R} {A} (Q : A → Prop) (m : M A)
    (f : M unit) :
  steps R Q m → steps R any f → steps R Q (finally m f).
Proof.
  intros Hm Hf w w' r. unfold finally. destruct (m w) as [w1 r1] eqn:Hrun.
  destruct (Hm _ _ _ Hrun) as [HR HQ].
  destruct (f w1) as [w2 [[]|e]] eqn:Hrun2; destruct (Hf _ _ _ Hrun2) as [HR2 _];
    intros [= <- <-]; (split; [by etrans|done]).
Qed.

Lemma makedirs_effect_keeps (p q : path) (f : FS) (nd : node) :
  f !! q = Some nd → makedirs_effect p f !! q = Some nd.
Proof.
  intros Hq. unfold makedirs_effect.
  destruct (mkdir_plan f p) as [ps|] eqn:Hplan; [|done].
  rewrite make_dirs_lookup. case_decide as Hin; [|done].
  by rewrite (missing_dirs_None _ _ _ Hplan q Hin) in Hq.
Qed.

Lemma replace_keeps_entry env (s d q : path) (nd : node) :
  ¬ s `prefix_of` q → ¬ d `prefix_of` q →
  steps (keeps_entry q nd) any (os_replace env s d).
Proof.
  intros Hs Hd. apply (steps_syscall (keeps_entry q nd)); intros w; [by intros ?|].
  intros _ Hex. wsimpl. unfold replace_effect.
  destruct (fs w !! s) as [[c|]|]; [|by rewrite move_subtree_lookup_outside|done].
  rewrite lookup_insert_ne, lookup_delete_ne; [done| |]; by intros <-.
Qed.

Lemma group_delete_keeps_entry env tempRoot inst rels n iv q nd :
  ¬ inst `prefix_of` q →
  steps (keeps_entry q nd) any (_deleteFileGroupOrFail env tempRoot inst rels n iv).
Proof.
  intros Hinst w w' r Hrun. split; [|done]. intros Hex.
  set (R := keeps_entry q nd).
  unfold _deleteFileGroupOrFail in Hrun. unfold bind at 1, tempfile_mkdtemp in Hrun.
  set (td := scratchDir tempRoot w) in *.
  assert (¬ td `prefix_of` q) as Htd.
  { intros [x ->]. pose proof (scratchDir_fresh tempRoot w x) as Hfresh.
    fold td in Hfresh. congruence. }
  assert (∀ x, q ≠ td ++ x) as Htd'.
  { intros x ->. apply Htd. by apply prefix_app_r. }
  assert (∀ x, q ≠ inst ++ x) as Hinst'.
  { intros x ->. apply Hinst. by apply prefix_app_r. }
  assert (steps R any (finally (group_each env td inst rels n iv)
                               (except_OSError (shutil_rmtree env td) (ret tt)))) as Hsteps.
  { clear Hrun. apply (steps_finally R).
    - induction rels as [|rel rest IH]; [by apply (steps_ret R)|].
      cbn [group_each]. apply (steps_bind R any); [apply (steps_query R); by intros ? ? ?|].
      intros there _. apply steps_if; [exact IH|].
      apply (steps_bind R any).
      { apply (steps_syscall R); intros w1; [by intros ?|]. intros _ Hq. wsimpl.
        by apply makedirs_effect_keeps. }
      intros _ _. apply (steps_bind R any).
      { apply (steps_syscall R); intros w1; [by intros ?|]. intros _ Hq. wsimpl.
        unfold copy_effect. destruct (fs w1 !! (inst ++ rel)) as [[c|]|]; [|done|done].
        by rewrite lookup_insert_ne. }
      intros _ _. apply (steps_bind R any).
      { generalize 1. induction (Z.to_nat n) as [|k IHk]; intros count;
          [by apply (steps_ret R)|].
        cbn [group_remove_attempts]. apply (steps_bind R any).
        { apply steps_if; [|by apply (steps_ret R)].
          intros ? ? ? [= <- <-]. split; [by intros ?|done]. }
        intros _ _. apply (steps_bind R any).
        { apply (steps_succeeds R). apply (steps_syscall R); intros w1; [by intros ?|].
          intros _ Hq. wsimpl. by rewrite lookup_delete_ne. }
        intros deleted _. apply steps_if; [by apply (steps_ret R)|apply IHk]. }
      intros deleted _. apply steps_if; [exact IH|].
      apply (steps_bind R any).
      { apply (steps_syscall R); intros w1; [by intros ?|].
        intros _ Hq. wsimpl. by rewrite lookup_delete_ne. }
      intros _ _. apply (steps_bind R any); [|intros; by apply (steps_raise R)].
      assert (∀ l, Forall (λ k, td `prefix_of` k) l →
                   steps R any (revert_each env td inst l)) as Hrev.
      { intros l Hl. induction Hl as [|k l Hk _ IHl]; [by apply (steps_ret R)|].
        cbn [revert_each]. apply (steps_bind R any); [|intros _ _; apply IHl].
        apply (steps_except_OSError R); [|by apply (steps_ret R)].
        apply replace_keeps_entry.
        + intros Hpre. apply Htd. by etrans.
        + intros Hpre. apply Hinst. etrans; [|exact Hpre]. by apply prefix_app_r. }
      intros w1 w2 r1 Hr. unfold _revertGroupDelete in Hr.
      apply (Hrev (descendants (fs w1) td)); [|exact Hr].
      apply Forall_forall. intros k [Hk _]%elem_of_descendants.
      apply strictly_under_spec in Hk as (x & _ & ->). by apply prefix_app_r.
    - apply (steps_except_OSError R); [|by apply (steps_ret R)].
      apply (steps_syscall R); intros w1; [by intros ?|]. intros _ Hq. wsimpl.
      rewrite remove_subtree_lookup. unfold under. by rewrite bool_decide_false. }
  destruct (Hsteps _ _ _ Hrun) as [HR _]. apply HR. wsimpl.
  rewrite lookup_insert_ne; [done|]. intros <-. by apply Htd.
Qed.

Lemma tryCopyFile_keeps_entry env (s d q : path) (nd : node) :
  q ≠ d → steps (keeps_entry q nd) any (tryCopyFile env s d).
Proof.
  intros Hq w w' r Hrun. split; [|done]. intros Hex.
  destruct (tryCopyFile_outcome env s d w) as (w2 & r2 & Hrun2 & Hframe & _).
  rewrite Hrun in Hrun2. injection Hrun2 as <- <-.
  rewrite Hframe; [done|done|]. intros ->. by rewrite placeholder_fresh in Hex.
Qed.

Lemma makedirs_keeps_entry env (p q : path) (nd : node) :
  steps (keeps_entry q nd) any (os_makedirs env p).
Proof.
  apply (steps_syscall (keeps_entry q nd)); intros w; [by intros ?|].
  intros _ Hex. wsimpl. by apply makedirs_effect_keeps.
Qed.

Lemma copyUserConfig_keeps_entry env configDir configTree dst q nd :
  ¬ dst `prefix_of` q →
  steps (keeps_entry q nd) any (copyUserConfig env configDir configTree dst).
Proof.
  intros Hq. set (R := keeps_entry q nd). unfold copyUserConfig.
  enough (∀ cur, steps R any (copyUserConfig_walk env configDir dst configTree cur)) by done.
  induction configTree as [|entries IH] using Tree_ind'; intros cur; [by apply (steps_ret R)|].
  cbn [copyUserConfig_walk].
  apply (steps_bind R any); [apply (steps_query R); by intros ? ? ?|]. intros isd _.
  apply (steps_bind R any).
  { apply steps_if; [apply makedirs_keeps_entry|by apply (steps_ret R)]. }
  intros _ _. apply (steps_bind R any).
  { induction (file_names entries) as [|f fs IHf]; [by apply (steps_ret R)|].
    cbn [copyUserConfig_files]. apply (steps_bind R any); [|intros _ _; apply IHf].
    apply tryCopyFile_keeps_entry. intros ->. apply Hq. by apply prefix_app_r. }
  intros _ _. induction IH as [|[name sub] es Hsub _ IHes]; [by apply (steps_ret R)|].
  apply (steps_bind R any); [|intros _ _; apply IHes].
  apply steps_if; [apply Hsub|by apply (steps_ret R)].
Qed.

Lemma copyProgramFiles_keeps_entry env appDir appTree dst q nd :
  ¬ dst `prefix_of` q →
  steps (keeps_entry q nd) any (copyProgramFiles env appDir appTree dst).
Proof.
  intros Hq. set (R := keeps_entry q nd).
  apply (copyProgramFiles_steps env appDir dst R).
  - intros rel _. apply (steps_query R). by intros ? ? ?.
  - intros rel _. apply makedirs_keeps_entry.
  - intros rel f _ _. apply tryCopyFile_keeps_entry. intros ->. apply Hq. by apply prefix_app_r.
Qed.

Lemma tree_files_nonempty (t : Tree) : [] ∉ tree_files t.
Proof.
  destruct t as [|es]; [by intros ?%elem_of_nil|].
  intros (name & sub & _ & Hx)%elem_of_tree_files_dir.
  destruct (is_TDir sub); [by destruct Hx as (? & _ & ?)|done].
Qed.

Section PortableCopyProperties.

Context (env : Oracle) (tempRoot appDir : path) (version : string) (configDir : path).
Context (set_order : list string → list string).
Context (destTree appTree configTree libTree : Tree) (destPath : path) (copyConfig : bool).

Hypothesis Hsd : ¬ appDir `prefix_of` destPath.
Hypothesis Hds : ¬ destPath `prefix_of` appDir.

Lemma app_outside (rel : path) : ¬ destPath `prefix_of` appDir ++ rel.
Proof using Hsd Hds.
  intros Hpre.
  destruct (prefix_weak_total destPath appDir (appDir ++ rel));
    [done|by apply prefix_app_r|done|done].
Qed.

(** The entry [nd] at [destPath ++ n :: y] outlives the last two steps. *)
Lemma portable_tail_keeps (n : string) (y : path) (nd : node) :
  is_config_name n = false → n ∉ libDirs →
  steps (keeps_entry (destPath ++ n :: y) nd) any
    ((if copyConfig
      then copyUserConfig env configDir configTree (destPath ++ ["userConfig"])
      else ret tt) ;;;
     removeOldLibFiles env version libTree destPath true).
Proof.
  intros Hcfg Hlib. set (R := keeps_entry (destPath ++ n :: y) nd).
  apply (steps_bind R any).
  - apply steps_if; [|by apply (steps_ret R)].
    apply copyUserConfig_keeps_entry. intros [k Hk]. rewrite <- app_assoc in Hk.
    apply app_inv_head in Hk. injection Hk as -> _. by vm_compute in Hcfg.
  - intros _ _. apply removeOldLibFiles_keeps_entry.
    intros T rel x HT Heq%app_inv_head. injection Heq as -> _. done.
Qed.

Lemma createPortableCopy_run (w w' : World) :
  createPortableCopy env tempRoot appDir version configDir set_order
    destTree appTree configTree libTree destPath copyConfig w = (w', Ok tt) →
  ∃ w2 w3 w4,
    (∀ q nd, ¬ destPath `prefix_of` q → keeps_entry q nd w w2) ∧
    copyProgramFiles env appDir appTree destPath w2 = (w3, Ok tt) ∧
    tryCopyFile env (destPath ++ ["nvda_noUIAccess.exe"]) (destPath ++ ["nvda.exe"]) w3
      = (w4, Ok tt) ∧
    (∀ n y nd, is_config_name n = false → n ∉ libDirs →
               keeps_entry (destPath ++ n :: y) nd w4 w').
Proof using Hsd Hds.
  unfold createPortableCopy. unfold bind at 1.
  destruct (_deleteFileGroupOrFail _ _ _ _ _ _ w) as [w1 [[]|e]] eqn:H1; [|done].
  unfold bind at 1.
  destruct (removeOldProgramFiles _ _ _ _ w1) as [w2 [[]|e]] eqn:H2; [|done].
  unfold bind at 1.
  destruct (copyProgramFiles _ _ _ _ w2) as [w3 [[]|e]] eqn:H3; [|done].
  unfold bind at 1.
  destruct (tryCopyFile _ _ _ w3) as [w4 [[]|e]] eqn:H4; [|done].
  intros H5. exists w2, w3, w4. split; [|split; [done|split; [done|]]].
  - intros q nd Hq. etrans.
    + by destruct (group_delete_keeps_entry _ _ _ _ _ _ q nd Hq _ _ _ H1).
    + destruct (removeOldProgramFiles_keeps_entry env set_order destTree destPath q nd)
        with (w := w1) (w' := w2) (r := Ok tt) as [HR _]; [| |done|done].
      * intros x _ Hpre. apply Hq. etrans; [|exact Hpre]. by apply prefix_app_r.
      * intros rel f _ _ ->. apply Hq. by apply prefix_app_r.
  - intros n y nd Hcfg Hlib.
    by destruct (portable_tail_keeps n y nd Hcfg Hlib _ _ _ H5).
Qed.

End PortableCopyProperties.

(** X15.  When [createPortableCopy] returns normally, every program file that a
    portable copy keeps is in the destination with the content it had in the
    program directory, and the destination's [nvda.exe] has the content of
    the program's [nvda_noUIAccess.exe]. *)
Theorem createPortableCopy_result env tempRoot appDir version configDir set_order
    destTree appTree configTree libTree destPath copyConfig w w' :
  ¬ appDir `prefix_of` destPath → ¬ destPath `prefix_of` appDir →
  createPortableCopy env tempRoot appDir version configDir set_order
    destTree appTree configTree libTree destPath copyConfig w = (w', Ok tt) →
  (∀ rel c, rel ∈ tree_files appTree → portable_file rel →
            fs w !! (appDir ++ rel) = Some (File c) →
            fs w' !! (destPath ++ rel) = Some (File c)) ∧
  (∀ c, ["nvda_noUIAccess.exe"] ∈ tree_files appTree →
        fs w !! (appDir ++ ["nvda_noUIAccess.exe"]) = Some (File c) →
        fs w' !! (destPath ++ ["nvda.exe"]) = Some (File c)).
Proof.
  intros Hsd Hds Hrun.
  destruct (createPortableCopy_run env tempRoot appDir version configDir set_order
              destTree appTree configTree libTree destPath copyConfig Hsd Hds w w' Hrun)
    as (w2 & w3 & w4 & Hpre & Hcopy & Hexe & Htail).
  assert (∀ rel c, rel ∈ tree_files appTree → portable_file rel →
                   fs w !! (appDir ++ rel) = Some (File c) →
                   fs w3 !! (destPath ++ rel) = Some (File c)) as Hmirror.
  { intros rel c Hrel [Hexe' Hlib] Hc.
    apply (Hpre _ _ (app_outside appDir destPath Hsd Hds rel)) in Hc.
    unfold copyProgramFiles in Hcopy. rewrite <- (app_nil_r appDir) in Hcopy at 2.
    destruct (copyProgramFiles_walk_mirror env appDir destPath w2 Hsd Hds appTree [] true
                (λ _, False) w2 w3 tt) as [_ Hin].
    - split; [done|]. by intros ? [].
    - exact Hcopy.
    - destruct (Hin rel) as (c' & H0 & H1); [|congruence].
      right. exists rel. split; [done|]. split; [done|]. split; [by intros _|].
      intros _ n y -> _. by destruct (Hlib n y eq_refl). }
  destruct (tryCopyFile_outcome env (destPath ++ ["nvda_noUIAccess.exe"])
              (destPath ++ ["nvda.exe"]) w3) as (w5 & r5 & Hrun5 & Hframe & Hok & _).
  rewrite Hexe in Hrun5. injection Hrun5 as <- <-.
  split.
  - intros rel c Hrel Hport Hc. pose proof (Hmirror rel c Hrel Hport Hc) as H3.
    destruct Hport as [Hexe' Hlib].
    destruct rel as [|n y].
    { by apply tree_files_nonempty in Hrel. }
    destruct (Hlib n y eq_refl) as [Hcfg Hl].
    apply (Htail n y _ Hcfg Hl). rewrite Hframe; [done| |].
    + intros Heq%app_inv_head. injection Heq as -> ->. by apply (Hexe' "nvda.exe").
    + intros Heq. rewrite Heq in H3. by rewrite placeholder_fresh in H3.
  - intros c Hrel Hc.
    assert (fs w3 !! (destPath ++ ["nvda_noUIAccess.exe"]) = Some (File c)) as H3.
    { apply Hmirror; [done| |done]. split.
      - by intros f [= <-].
      - intros n y [= <- <-]. split; [vm_compute; reflexivity|].
        apply (bool_decide_unpack _). vm_compute. exact I. }
    apply (Htail "nvda.exe" [] (File c));
      [vm_compute; reflexivity|apply (bool_decide_unpack _); vm_compute; exact I|].
    by destruct (Hok c H3 eq_refl).
Qed.

Lemma createPortableCopy_result_witness :
  (∀ rel c, rel ∈ tree_files appTree0 → portable_file rel →
            fs world0 !! (appDir0 ++ rel) = Some (File c) →
            fs (createPortableCopy env_ok tempRoot0 appDir0 version0
                  (appDir0 ++ ["userConfig"]) id (TDir []) appTree0
                  (TDir [("nvda.ini", TFile)]) (TDir []) portableDir0 true world0).1
              !! (portableDir0 ++ rel) = Some (File c)) ∧
  (∀ c, ["nvda_noUIAccess.exe"] ∈ tree_files appTree0 →
        fs world0 !! (appDir0 ++ ["nvda_noUIAccess.exe"]) = Some (File c) →
        fs (createPortableCopy env_ok tempRoot0 appDir0 version0
              (appDir0 ++ ["userConfig"]) id (TDir []) appTree0
              (TDir [("nvda.ini", TFile)]) (TDir []) portableDir0 true world0).1
          !! (portableDir0 ++ ["nvda.exe"]) = Some (File c)).
Proof.
  apply (createPortableCopy_result env_ok tempRoot0 appDir0 version0
           (appDir0 ++ ["userConfig"]) id (TDir []) appTree0 (TDir [("nvda.ini", TFile)])
           (TDir []) portableDir0 true world0).
  - apply (bool_decide_unpack _). vm_compute. exact I.
  - apply (bool_decide_unpack _). vm_compute. exact I.
  - apply run_returns. vm_compute. reflexivity.
Defined.

(** The portable copy made on the concrete world. *)
Lemma createPortableCopy_example :
  let run := createPortableCopy env_ok tempRoot0 appDir0 version0 (appDir0 ++ ["userConfig"])
               id (TDir []) appTree0 (TDir [("nvda.ini", TFile)]) (TDir [])
               portableDir0 true world0 in
  run.2 = Ok tt ∧
  fs run.1 !! (portableDir0 ++ ["nvda.exe"]) = Some (File "noUIAccess 2025") ∧
  fs run.1 !! (portableDir0 ++ ["nvda_slave.exe"]) = Some (File "slave 2025") ∧
  fs run.1 !! (portableDir0 ++ ["userConfig"; "nvda.ini"]) = Some (File "settings") ∧
  fs run.1 !! (portableDir0 ++ ["locale"; "userConfig"; "notes.txt"]) = Some (File "notes").
Proof. vm_compute. repeat split. Qed.

(** ** Shortcuts with fallbacks *)

(** The equation of the source: one call, then the handler. *)
Lemma fallback_unfold senv a fh fp :
  _createShortcutWithFallback senv a fh fp =
  try_except_Exception (createShortcut senv a)
    (match hotkey a, fh with
     | Some _, Some f => _createShortcutWithFallback senv (retry_hotkey a f) None fp
     | _, _ =>
         match fp with
         | Some p => _createShortcutWithFallback senv (retry_path a p) fh None
         | None => λ h, (h, Ok tt)
         end
     end).
Proof.
  unfold _createShortcutWithFallback at 1. rewrite Subterm.FixWf_unfold.
  - cbn [pr1 pr2]. unfold _createShortcutWithFallback_functional.
    destruct fh as [f|]; [|destruct fp as [p|]].
    + unfold _createShortcutWithFallback_clause_1.
      destruct (hotkey a); [reflexivity|].
      unfold _createShortcutWithFallback_clause_1_clause_2. by destruct fp.
    + by destruct (hotkey a).
    + by destruct (hotkey a).
  - intros [a' [fh' fp']] f g Hfg. cbn [pr1 pr2].
    unfold _createShortcutWithFallback_functional.
    destruct fh' as [f'|]; [|destruct fp' as [p'|]].
    + unfold _createShortcutWithFallback_clause_1.
      destruct (hotkey a'); [by rewrite Hfg|].
      unfold _createShortcutWithFallback_clause_1_clause_2. destruct fp'; [by rewrite Hfg|done].
    + by rewrite Hfg.
    + done.
Qed.

Lemma try_createShortcut senv a k h :
  try_except_Exception (createShortcut senv a) k h =
  match senv h a with
  | None => ((a, None) :: h, Ok tt)
  | Some e => k ((a, Some e) :: h)
  end.
Proof. unfold try_except_Exception, createShortcut. by destruct (senv h a). Qed.

Lemma retry_of_trans a a' c :
  targetPath a' = targetPath a → arguments a' = arguments a →
  prependSpecialFolder a' = prependSpecialFolder a →
  retry_of a' c → retry_of a c.
Proof. unfold retry_of. intros -> -> ->. tauto. Qed.

Lemma fallback_run senv n :
  ∀ a fh fp h, fallbacks fh fp ≤ n →
  ∃ retries e,
    _createShortcutWithFallback senv a fh fp h = (retries ++ (a, e) :: h, Ok tt) ∧
    length retries ≤ fallbacks fh fp ∧
    (e = None → retries = []) ∧
    Forall raised (tail retries) ∧
    Forall (retry_of a) retries ∧
    (hotkey a = None → Forall (λ c, hotkey c.1 = None) retries).
Proof.
  induction n as [|n IH]; intros a fh fp h Hn.
  - destruct fh, fp; cbn in Hn; try lia.
    rewrite fallback_unfold, try_createShortcut.
    destruct (senv h a) as [e|].
    + exists [], (Some e). destruct (hotkey a); cbn; repeat split; (done || lia || constructor).
    + exists [], None. cbn; repeat split; (done || lia || constructor).
  - rewrite fallback_unfold, try_createShortcut.
    destruct (senv h a) as [e|]; [|exists [], None; cbn; repeat split; (done || lia || constructor)].
    assert (∀ a' fh' fp',
      fallbacks fh' fp' ≤ n → S (fallbacks fh' fp') ≤ fallbacks fh fp →
      (∃ f, a' = retry_hotkey a f) ∧ hotkey a ≠ None ∨ (∃ p, a' = retry_path a p) →
      ∃ retries e0,
        _createShortcutWithFallback senv a' fh' fp' ((a, Some e) :: h)
          = (retries ++ (a, e0) :: h, Ok tt) ∧
        length retries ≤ fallbacks fh fp ∧ (e0 = None → retries = []) ∧
        Forall raised (tail retries) ∧ Forall (retry_of a) retries ∧
        (hotkey a = None → Forall (λ c, hotkey c.1 = None) retries)) as Hrec.
    { intros a' fh' fp' Hle Hlt Ha'.
      destruct (IH a' fh' fp' ((a, Some e) :: h) Hle)
        as (rs & e' & Hrun & Hlen & Hnone & Hraised & Hretry & Hhot).
      exists (rs ++ [(a', e')]), (Some e). rewrite <- app_assoc. cbn [app].
      assert (retry_of a (a', e')) as Hra.
      { destruct Ha' as [[[f ->] _]|[p ->]]; by repeat split. }
      split; [exact Hrun|]. split; [rewrite length_app; cbn; lia|].
      split; [done|]. split.
      { destruct rs as [|c rs]; [constructor|]. cbn [tail app].
        apply Forall_app. split; [exact Hraised|]. constructor; [|constructor].
        intros He'. cbn in He'. by specialize (Hnone He'). }
      split.
      { apply Forall_app. split; [|by constructor].
        eapply Forall_impl; [exact Hretry|]. intros c.
        destruct Ha' as [[[f ->] _]|[p ->]]; by apply retry_of_trans. }
      intros Hk. destruct Ha' as [[_ []]|[p ->]]; [done|].
      apply Forall_app. split; [by apply Hhot|]. by constructor. }
    destruct (hotkey a) as [k|] eqn:Hk; [destruct fh as [f|]|].
    + apply Hrec; [destruct fp; cbn in *; lia|destruct fp; cbn; lia|].
      left. split; [by exists f|done].
    + destruct fp as [p|].
      * apply Hrec; [cbn in *; lia|cbn; lia|]. right. by exists p.
      * exists [], (Some e). cbn; repeat split; (done || lia || constructor).
    + destruct fp as [p|].
      * apply Hrec; [destruct fh; cbn in *; lia|destruct fh; cbn; lia|]. right. by exists p.
      * exists [], (Some e). cbn; repeat split; (done || lia || constructor).
Qed.

Lemma fallback_all_fail senv a k f p h :
  hotkey a = Some k →
  (∀ h' x, senv h' x ≠ None) →
  ∃ e1 e2 e3,
    _createShortcutWithFallback senv a (Some f) (Some p) h =
      ([(retry_path (retry_hotkey a f) p, Some e3); (retry_hotkey a f, Some e2);
        (a, Some e1)] ++ h, Ok tt).
Proof.
  intros Hk Hfail.
  rewrite fallback_unfold, try_createShortcut, Hk.
  destruct (senv h a) as [e1|] eqn:H1; [|by apply Hfail in H1].
  rewrite fallback_unfold, try_createShortcut. cbn [hotkey retry_hotkey].
  destruct (senv _ (retry_hotkey a f)) as [e2|] eqn:H2; [|by apply Hfail in H2].
  rewrite fallback_unfold, try_createShortcut. cbn [hotkey retry_hotkey retry_path].
  destruct (senv _ (retry_path _ p)) as [e3|] eqn:H3; [|by apply Hfail in H3].
  by exists e1, e2, e3.
Qed.

(** X16.  [_createShortcutWithFallback] never raises, whatever
    [createShortcut] does: it returns normally after the first call with the
    arguments given and at most one retry for each fallback it was given.
    It retries only after a call that raised, and stops at the first call
    that succeeds: every call but the last one made has raised. *)
Theorem createShortcutWithFallback_never_raises senv a fallbackHotkey fallbackPath h :
  ∃ retries e,
    _createShortcutWithFallback senv a fallbackHotkey fallbackPath h
      = (retries ++ (a, e) :: h, Ok tt) ∧
    length retries ≤ fallbacks fallbackHotkey fallbackPath ∧
    length retries ≤ 2 ∧
    (e = None → retries = []) ∧
    Forall raised (tail retries).
Proof.
  destruct (fallback_run senv _ a fallbackHotkey fallbackPath h (le_n _))
    as (rs & e & Hrun & Hlen & Hnone & Hraised & _).
  exists rs, e. repeat split; try done.
  destruct fallbackHotkey, fallbackPath; cbn in Hlen; lia.
Qed.

(** X17.  A retry of [_createShortcutWithFallback] does not pass on the
    icon location and the working directory: every call of [createShortcut]
    after the first is made with [iconLocation = None] and
    [workingDirectory = None], and with the target path, the arguments and
    the special folder of the first call. *)
Theorem createShortcutWithFallback_retries_drop_directory senv a fallbackHotkey
    fallbackPath h :
  ∃ retries e,
    _createShortcutWithFallback senv a fallbackHotkey fallbackPath h
      = (retries ++ (a, e) :: h, Ok tt) ∧
    Forall (retry_of a) retries.
Proof.
  destruct (fallback_run senv _ a fallbackHotkey fallbackPath h (le_n _))
    as (rs & e & Hrun & _ & _ & _ & Hretry & _).
  by exists rs, e.
Qed.

(** X18.  When no shortcut can be made, a call with a hotkey, a fallback
    hotkey and a fallback path makes three calls of [createShortcut]: with
    the arguments given, then with the fallback hotkey, then with the
    fallback path and still the fallback hotkey.  It returns normally
    although no shortcut was made. *)
Theorem createShortcutWithFallback_order senv a k f p h :
  hotkey a = Some k →
  (∀ h' x, senv h' x ≠ None) →
  ∃ e1 e2 e3,
    _createShortcutWithFallback senv a (Some f) (Some p) h =
      ([(retry_path (retry_hotkey a f) p, Some e3); (retry_hotkey a f, Some e2);
        (a, Some e1)] ++ h, Ok tt).
Proof. apply fallback_all_fail. Qed.

Lemma createShortcutWithFallback_order_witness :
  ∃ e1 e2 e3,
    _createShortcutWithFallback senv_fails desktopShortcut0 (Some "CTRL+ALT+N")
        (Some "NVDA (desktop).lnk") [] =
      ([(retry_path (retry_hotkey desktopShortcut0 "CTRL+ALT+N") "NVDA (desktop).lnk", Some e3);
        (retry_hotkey desktopShortcut0 "CTRL+ALT+N", Some e2);
        (desktopShortcut0, Some e1)] ++ [], Ok tt).
Proof.
  apply (createShortcutWithFallback_order senv_fails desktopShortcut0 "STRG+ALT+N"
           "CTRL+ALT+N" "NVDA (desktop).lnk" []).
  - reflexivity.
  - intros h' x. discriminate.
Defined.

(** X19.  A fallback hotkey is used only in place of a hotkey: when the
    call gives no hotkey, no call of [createShortcut] is made with one, and
    there is at most one retry, with the fallback path. *)
Theorem createShortcutWithFallback_no_hotkey senv a fallbackHotkey fallbackPath h :
  hotkey a = None →
  ∃ retries e,
    _createShortcutWithFallback senv a fallbackHotkey fallbackPath h
      = (retries ++ (a, e) :: h, Ok tt) ∧
    Forall (λ c, hotkey c.1 = None) retries ∧
    length retries ≤ 1 ∧
    (∀ c, c ∈ retries → ∃ p, fallbackPath = Some p ∧ c.1 = retry_path a p).
Proof.
  intros Hk. rewrite fallback_unfold, try_createShortcut, Hk.
  assert (∀ e, ∃ retries e0 : _,
    ((a, e) :: h, Ok tt) = (retries ++ (a, e0) :: h, Ok tt) ∧
    Forall (λ c : ShortcutCall, hotkey c.1 = None) retries ∧ length retries ≤ 1 ∧
    (∀ c, c ∈ retries → ∃ p, fallbackPath = Some p ∧ c.1 = retry_path a p)) as Hnone.
  { intros e. exists [], e. split; [done|]. split; [constructor|]. split; [cbn; lia|].
    intros c Hc. by apply elem_of_nil in Hc. }
  destruct (senv h a) as [e|]; [|apply Hnone].
  destruct fallbackPath as [p|]; [|apply Hnone].
  rewrite fallback_unfold, try_createShortcut. cbn [hotkey retry_path]. rewrite Hk.
  assert (∀ e', ∃ retries e0 : _,
    ((retry_path a p, e') :: (a, Some e) :: h, Ok tt) = (retries ++ (a, e0) :: h, Ok tt) ∧
    Forall (λ c : ShortcutCall, hotkey c.1 = None) retries ∧ length retries ≤ 1 ∧
    (∀ c, c ∈ retries → ∃ p0, Some p = Some p0 ∧ c.1 = retry_path a p0)) as Hone.
  { intros e'. exists [(retry_path a p, e')], (Some e). split; [done|].
    split; [by repeat constructor|]. split; [cbn; lia|].
    intros c Hc. apply list_elem_of_singleton in Hc as ->. by exists p. }
  destruct (senv _ (retry_path a p)) as [e'|]; apply Hone.
Qed.

Lemma createShortcutWithFallback_no_hotkey_witness :
  ∃ retries e,
    _createShortcutWithFallback senv_fails startMenuShortcut0 (Some "CTRL+ALT+N")
        (Some "NVDA\NVDA web site.lnk") []
      = (retries ++ (startMenuShortcut0, e) :: [], Ok tt) ∧
    Forall (λ c, hotkey c.1 = None) retries ∧
    length retries ≤ 1 ∧
    (∀ c, c ∈ retries →
       ∃ p, Some "NVDA\NVDA web site.lnk" = Some p ∧ c.1 = retry_path startMenuShortcut0 p).
Proof.
  apply (createShortcutWithFallback_no_hotkey senv_fails startMenuShortcut0
           (Some "CTRL+ALT+N") (Some "NVDA\NVDA web site.lnk") []).
  reflexivity.
Defined.

(** ** What the group deletion leaves alone *)

#[global] Instance defers_nothing_preorder : PreOrder defers_nothing.
Proof.
  split; [by intros w|].
  intros w1 w2 w3 [H1 H2] [H3 H4]. split; congruence.
Qed.





Lemma raises_only_ret {A} P (a : A) : raises_only P (ret a).
Proof. by intros w w' e. Qed.

Lemma raises_only_raise {A} (P : Exc → Prop) e : P e → raises_only P (@raise A e).
Proof. by intros He w w' e' [= _ <-]. Qed.

Lemma raises_only_bind {A B} P (m : M A) (k : A → M B) :
  raises_only P m → (∀ a, raises_only P (k a)) → raises_only P (bind m k).
Proof.
  intros Hm Hk w w' e. unfold bind. destruct (m w) as [w1 [a|e1]] eqn:Hrun.
  - apply Hk.
  - intros [= _ <-]. by eapply Hm.
Qed.

Lemma raises_only_if {A} P (b : bool) (m1 m2 : M A) :
  raises_only P m1 → raises_only P m2 → raises_only P (if b then m1 else m2).
Proof. by destruct b. Qed.

Lemma raises_only_syscall env P c pre eff :
  P OSError → raises_only P (syscall env c pre eff).
Proof.
  intros HP w w' e. unfold syscall.
  destruct (pre (fs w) && negb (env (trace w) c)); [done|]. by intros [= _ <-].
Qed.

Lemma raises_only_query P c ans : raises_only P (query c ans).
Proof. by intros w w' e. Qed.

Lemma raises_only_caught env P c pre eff :
  raises_only P (except_OSError (syscall env c pre eff) (ret tt)).
Proof.
  intros w w' e. unfold except_OSError, syscall.
  by destruct (pre (fs w) && negb (env (trace w) c)).
Qed.

Lemma raises_only_succeeds env P c pre eff :
  raises_only P (succeeds (syscall env c pre eff)).
Proof.
  intros w w' e. unfold succeeds, except_OSError, bind, syscall.
  by destruct (pre (fs w) && negb (env (trace w) c)).
Qed.

Lemma raises_only_finally {A} P (m : M A) (f : M unit) :
  raises_only P m → raises_only P f → raises_only P (finally m f).
Proof.
  intros Hm Hf w w' e. unfold finally. destruct (m w) as [w1 r1] eqn:Hrun.
  destruct (f w1) as [w2 [[]|e2]] eqn:Hrun2.
  - intros [= _ ->]. by eapply Hm.
  - intros [= _ <-]. by eapply Hf.
Qed.

Lemma group_delete_raises_only env tempRoot inst rels n iv :
  raises_only group_failure (_deleteFileGroupOrFail env tempRoot inst rels n iv).
Proof.
  set (P := group_failure).
  assert (P OSError) as HOS by by right.
  unfold _deleteFileGroupOrFail. apply raises_only_bind; [by intros w w' e|].
  intros td. apply raises_only_finally; [|apply raises_only_caught].
  induction rels as [|rel rest IH]; [apply raises_only_ret|].
  cbn [group_each]. apply raises_only_bind; [apply raises_only_query|].
  intros there. apply raises_only_if; [exact IH|].
  apply raises_only_bind; [by apply raises_only_syscall|].
  intros _. apply raises_only_bind; [by apply raises_only_syscall|].
  intros _. apply raises_only_bind.
  { generalize 1. induction (Z.to_nat n) as [|k IHk]; intros count; [apply raises_only_ret|].
    cbn [group_remove_attempts]. apply raises_only_bind.
    { apply raises_only_if; [by intros w w' e|apply raises_only_ret]. }
    intros _. apply raises_only_bind; [apply raises_only_succeeds|].
    intros deleted. apply raises_only_if; [apply raises_only_ret|apply IHk]. }
  intros deleted. apply raises_only_if; [exact IH|].
  apply raises_only_bind; [by apply raises_only_syscall|].
  intros _. apply raises_only_bind; [|intros; apply raises_only_raise; by left].
  assert (∀ l, raises_only P (revert_each env td inst l)) as Hrev.
  { induction l as [|k l IHl]; [apply raises_only_ret|].
    cbn [revert_each]. apply raises_only_bind; [apply raises_only_caught|]. intros _. apply IHl. }
  intros w1 w2 e Hr. by apply (Hrev (descendants (fs w1) td) w1 w2).
Qed.



(** X21.  [_deleteFileGroupOrFail] ends in one of three ways: it returns,
    it raises [RetriableFailure] with the message of the failed move to the
    scratch directory, or it raises [OSError].  It raises no
    [RetriableFailure] of [tryRemoveFile] or [tryCopyFile] and no
    [RuntimeError]. *)
Theorem deleteFileGroupOrFail_outcomes env tempRoot installDir relativeFilepaths
    numTries retryWaitInterval w :
  ∃ w' r,
    _deleteFileGroupOrFail env tempRoot installDir relativeFilepaths numTries
        retryWaitInterval w = (w', r) ∧
    (r = Ok tt ∨ r = Raise (RetriableFailure MoveToTempFailed) ∨ r = Raise OSError).
Proof.
  destruct (_deleteFileGroupOrFail env tempRoot installDir relativeFilepaths numTries
              retryWaitInterval w) as [w' [[]|e]] eqn:Hrun.
  - exists w', (Ok tt). split; [done|by left].
  - exists w', (Raise e). split; [done|]. right.
    destruct (group_delete_raises_only env tempRoot installDir relativeFilepaths numTries
                retryWaitInterval _ _ _ Hrun) as [->| ->]; [by left|by right].
Qed.

(** X22.  [tryRemoveFile] removes no directory.  The placeholder is made
    before the renaming, and a directory cannot be renamed onto an existing
    file: the call raises [RetriableFailure] at the renaming, without one
    deletion attempt and without registering anything; the directory is
    where it was and the empty placeholder stays beside it. *)
Theorem tryRemoveFile_directory env p n iv rb w :
  let tp := placeholder w (dirname p) in
  fs w !! p = Some Dir →
  ∃ w', tryRemoveFile env p n iv rb w =
          (w', Raise (RetriableFailure (RenameBeforeRemoveFailed p))) ∧
        fs w' = <[tp := File ""]> (fs w) ∧
        fs w' !! p = Some Dir ∧
        pending w' = pending w ∧
        calls_of is_delete (trace w') = calls_of is_delete (trace w).
Proof.
  intros tp Hp. rewrite tryRemoveFile_unfold. cbv zeta. fold tp.
  assert (fs w !! tp = None) as Htp by apply placeholder_fresh.
  assert (p ≠ tp) as Hne by congruence.
  set (w1 := record _ _ _).
  destruct (tryRemoveFile_rest_frame env p tp n iv rb w1 "") as (w2 & r2 & -> & _ & _ & _ & Hnf).
  { subst w1. wsimpl. apply lookup_insert_eq. }
  destruct Hnf as (-> & Hfs & Hpend & Hcalls).
  { subst w1. wsimpl. unfold is_file. by rewrite lookup_insert_ne, Hp. }
  exists w2. split; [done|]. subst w1. cbn [fs pending trace record set_fs] in *.
  rewrite calls_of_cons in Hcalls. rewrite Hfs, lookup_insert_ne by done. done.
Qed.

Lemma tryRemoveFile_directory_witness :
  let p := installDir0 ++ ["lib"] in
  let tp := placeholder world0 (dirname p) in
  ∃ w', tryRemoveFile env_ok p 6 500 true world0 =
          (w', Raise (RetriableFailure (RenameBeforeRemoveFailed p))) ∧
        fs w' = <[tp := File ""]> (fs world0) ∧
        fs w' !! p = Some Dir ∧
        pending w' = pending world0 ∧
        calls_of is_delete (trace w') = calls_of is_delete (trace world0).
Proof.
  intros p tp.
  apply (tryRemoveFile_directory env_ok p 6 500 true world0).
  vm_compute. reflexivity.
Defined.
